(** * A decoder-only transformer (GPT.py): model and verification

    The Python module builds a GPT-style language model on top of PyTorch.
    This development embeds the module in Rocq:

    - tensors are a shape together with an element function on
      multi-indices (row-major coordinates, as PyTorch exposes them);
    - floating-point numbers are idealised as real numbers; the one
      non-real float the program creates on purpose, [float('-inf')],
      has its own constructor, and the one [nan] it can return (a mean
      over no element) has one in the result of the loss;
    - Python exceptions are the [Err] results of an error monad, and the
      random generator of PyTorch is a state threaded through every
      call that may draw (dropout, multinomial sampling, initialisers);
    - the module-level hyperparameters are a record, with the constants
      of the file as its value [source_hparams];
    - the memory layout of a tensor is represented where the module
      depends on it: the targets of [forward] carry their strides, which
      decide whether [view] accepts them; the logits the module computes
      are freshly allocated, so contiguous.  The placement of tensors on
      a device is not represented. *)

From Stdlib Require Import List Arith ZArith Lia Bool.
From Stdlib Require Import Reals Lra.
Import ListNotations.

Set Implicit Arguments.

(** ** Python exceptions and the result type *)

Inductive error : Type :=
| IndexError
| ValueError
| RuntimeError
| ZeroDivisionError.

Inductive result (A : Type) : Type :=
| Ok (a : A)
| Err (e : error).

Arguments Ok {A} a.
Arguments Err {A} e.

(** ** Tensors *)

Record Tensor (A : Type) : Type := mkTensor {
  shape : list nat;
  at_ : list nat -> A
}.

Arguments mkTensor {A} shape at_.

Notation "t .[ ix ]" := (at_ t ix) (at level 1, ix at level 200, format "t .[ ix ]").

(** [float('-inf')] next to the ordinary floats. *)
Inductive xreal : Type :=
| Fin (r : R)
| NegInf.

(** A Python scalar that may be [nan]. *)
Inductive scalar : Type :=
| Real (r : R)
| NaN.

Definition numel (s : list nat) : nat := fold_right Nat.mul 1 s.

(** An index is inside a shape when it has its rank and every coordinate
    is below the dimension. *)
Definition valid_ix (s ix : list nat) : Prop := Forall2 lt ix s.

(** All indices of a shape, in row-major order. *)
Fixpoint all_indices (s : list nat) : list (list nat) :=
  match s with
  | [] => [[]]
  | d :: s' => flat_map (fun i => map (cons i) (all_indices s')) (seq 0 d)
  end.

(** Row-major coordinates of the [k]-th element of a shape. *)
Fixpoint unravel (s : list nat) (k : nat) : list nat :=
  match s with
  | [] => []
  | d :: s' => (k / numel s') :: unravel s' (k mod numel s')
  end.

Definition tmap {A B} (f : A -> B) (t : Tensor A) : Tensor B :=
  mkTensor (shape t) (fun ix => f t.[ix]).

(** Finite sums of reals, [sum_{k < n} f k]. *)
Fixpoint Rsum (n : nat) (f : nat -> R) : R :=
  match n with
  | O => 0%R
  | S k => (Rsum k f + f k)%R
  end.

(** Last two coordinates of an index and what precedes them. *)
Definition ix_last (ix : list nat) : nat := last ix 0.
Definition ix_init (ix : list nat) : list nat := removelast ix.

(** ** The random generator of PyTorch

    Sampling is the work of the numerical library.  Its generator is an
    abstract state; a draw returns the sample and the next state.  The
    only fact the model relies on is the range of a multinomial draw. *)

Inductive Dist : Type :=
| Normal (mean std : R)
| KaimingUniform (a : R)
| Uniform (lo hi : R)
| Bernoulli (p : R).

Class TorchRandom : Type := {
  Generator : Type;
  (** fill a tensor of the given shape with independent draws *)
  sample : Generator -> Dist -> list nat -> (list nat -> R) * Generator;
  (** one category out of [n], with the given weights *)
  multinomial1 : Generator -> (nat -> R) -> nat -> nat * Generator;
  multinomial1_lt : forall g p n, 0 < n -> fst (multinomial1 g p n) < n
}.

(** ** The monad of a PyTorch call: generator state and exceptions *)

Section Monad.
Context {TR : TorchRandom}.

Definition M (A : Type) : Type := Generator -> result (A * Generator).

Definition ret {A} (a : A) : M A := fun g => Ok (a, g).

Definition bind {A B} (m : M A) (f : A -> M B) : M B :=
  fun g => match m g with
           | Ok (a, g') => f a g'
           | Err e => Err e
           end.

Definition raise {A} (e : error) : M A := fun _ => Err e.

Definition lift {A} (r : result A) : M A :=
  fun g => match r with
           | Ok a => Ok (a, g)
           | Err e => Err e
           end.

(** A draw of the generator, as a computation. *)
Definition draw (d : Dist) (s : list nat) : M (Tensor R) :=
  fun g => let (f, g') := sample g d s in Ok (mkTensor s f, g').

Fixpoint mapM {A B} (f : A -> M B) (l : list A) : M (list B) :=
  match l with
  | [] => ret []
  | a :: l' => bind (f a) (fun b => bind (mapM f l') (fun bs => ret (b :: bs)))
  end.

(** [nn.Sequential] over modules of one kind: each is applied in turn. *)
Fixpoint foldM {A B} (f : B -> A -> M A) (l : list B) (a : A) : M A :=
  match l with
  | [] => ret a
  | b :: l' => bind (f b a) (foldM f l')
  end.

(** [for _ in range(n)]: the body run [n] times on the loop state. *)
Fixpoint iterM {A} (n : nat) (body : A -> M A) (a : A) : M A :=
  match n with
  | O => ret a
  | S k => bind (body a) (iterM k body)
  end.
(** [m] started in [g] returns a value and a state that satisfy [Q]. *)
Definition returns {A} (m : M A) (g : Generator)
  (Q : A -> Generator -> Prop) : Prop :=
  match m g with
  | Ok (a, g') => Q a g'
  | Err _ => False
  end.

(** [m] neither reads nor advances the generator: it is a plain result. *)
Definition generator_free {A} (m : M A) : Prop :=
  exists r : result A, forall g, m g = lift r g.

End Monad.

Notation "x <- m ;; k" := (bind m (fun x => k))
  (at level 61, m at next level, right associativity).
Notation "' pat <- m ;; k" := (bind m (fun x => match x with pat => k end))
  (at level 61, pat pattern, m at next level, right associativity).

(** Bind of the plain error monad, for the pure operations. *)
Definition rbind {A B} (r : result A) (f : A -> result B) : result B :=
  match r with
  | Ok a => f a
  | Err e => Err e
  end.

(** ** Tensor operations of the library *)

Local Open Scope R_scope.

(** Equality of shapes. *)
Fixpoint shape_eqb (s1 s2 : list nat) : bool :=
  match s1, s2 with
  | [], [] => true
  | a :: r1, b :: r2 => (a =? b)%nat && shape_eqb r1 r2
  | _, _ => false
  end.

(** Tuple unpacking of a shape: [B, T = t.shape] and [B, T, C = t.shape]
    raise [ValueError] on another rank. *)
Definition unpack2 (s : list nat) : result (nat * nat) :=
  match s with
  | [a; b] => Ok (a, b)
  | _ => Err ValueError
  end.

Definition unpack3 (s : list nat) : result (nat * nat * nat) :=
  match s with
  | [a; b; c] => Ok (a, b, c)
  | _ => Err ValueError
  end.

(** Broadcasting of two shapes, aligned on the right (the shapes are given
    reversed). *)
Fixpoint broadcast_rev (s1 s2 : list nat) : result (list nat) :=
  match s1, s2 with
  | [], s => Ok s
  | s, [] => Ok s
  | d1 :: r1, d2 :: r2 =>
      rbind (broadcast_rev r1 r2) (fun r =>
        if (d1 =? d2)%nat then Ok (d1 :: r)
        else if (d1 =? 1)%nat then Ok (d2 :: r)
        else if (d2 =? 1)%nat then Ok (d1 :: r)
        else Err RuntimeError)
  end.

Definition broadcast_shapes (s1 s2 : list nat) : result (list nat) :=
  rbind (broadcast_rev (rev s1) (rev s2)) (fun r => Ok (rev r)).

(** The index an operand of shape [s] is read at, for the index [ix] of
    the broadcast result: leading coordinates are dropped, and a
    coordinate of a dimension of size one is [0]. *)
Definition bc_ix (s ix : list nat) : list nat :=
  map (fun di => if (fst di =? 1)%nat then 0%nat else snd di)
      (combine s (skipn (length ix - length s) ix)).

(** [a + b] *)
Definition tadd (a b : Tensor R) : result (Tensor R) :=
  rbind (broadcast_shapes (shape a) (shape b)) (fun s =>
    Ok (mkTensor s (fun ix => a.[bc_ix (shape a) ix] + b.[bc_ix (shape b) ix]))).

(** [a * s] for a Python float [s] *)
Definition tscale (a : Tensor R) (s : R) : Tensor R :=
  tmap (fun v => v * s) a.

(** [n ** -0.5] for a Python int [n]: the float power, and
    [ZeroDivisionError] for [0 ** -0.5]. *)
Definition pow_neg_half (n : nat) : result R :=
  if (n =? 0)%nat then Err ZeroDivisionError
  else Ok (Rpower (INR n) (- (1 / 2))).

(** Swap of the last two elements of a list. *)
Definition swap_last2 {A} (l : list A) : list A :=
  match rev l with
  | j :: i :: r => rev (i :: j :: r)
  | _ => l
  end.

(** [t.transpose(-2, -1)] *)
Definition transpose_last2 {A} (t : Tensor A) : result (Tensor A) :=
  if (2 <=? length (shape t))%nat
  then Ok (mkTensor (swap_last2 (shape t)) (fun ix => t.[swap_last2 ix]))
  else Err IndexError.

Definition ix_row (ix : list nat) : nat := last (removelast ix) 0%nat.
Definition ix_batch (ix : list nat) : list nat := removelast (removelast ix).

(** [a @ b] for two batches of matrices over the same batch dimensions
    (the only products the module forms). *)
Definition matmul (a b : Tensor R) : result (Tensor R) :=
  match rev (shape a), rev (shape b) with
  | m :: n :: ra, p :: m' :: rb =>
      if (m =? m')%nat then
        if shape_eqb ra rb then
          Ok (mkTensor (rev ra ++ [n; p])
                (fun ix => Rsum m (fun k =>
                   a.[ix_batch ix ++ [ix_row ix; k]] * b.[ix_batch ix ++ [k; ix_last ix]])))
        else Err RuntimeError
      else Err RuntimeError
  | _, _ => Err RuntimeError
  end.

(** [t[:r, :c]] on a matrix *)
Definition slice2 {A} (t : Tensor A) (r c : nat) : result (Tensor A) :=
  match shape t with
  | [n; m] => Ok (mkTensor [Nat.min r n; Nat.min c m] (at_ t))
  | _ => Err IndexError
  end.

(** [t == 0] *)
Definition teq0 (t : Tensor R) : Tensor bool :=
  tmap (fun v => if Req_dec_T v 0 then true else false) t.

(** [t.masked_fill(mask, v)]: the mask is broadcast to the shape of [t]. *)
Definition masked_fill (t : Tensor R) (mask : Tensor bool) (v : xreal)
  : result (Tensor xreal) :=
  rbind (broadcast_shapes (shape t) (shape mask)) (fun s =>
    if shape_eqb s (shape t)
    then Ok (mkTensor (shape t)
               (fun ix => if mask.[bc_ix (shape mask) ix] then v else Fin t.[ix]))
    else Err RuntimeError).

Definition xexp (x : xreal) : R :=
  match x with
  | Fin r => exp r
  | NegInf => 0
  end.

(** [F.softmax(t, dim=-1)], as a quotient of reals.  (A row of minus
    infinities only would be [nan]; the causal mask keeps the diagonal, so
    no such row is formed.) *)
Definition F_softmax (t : Tensor xreal) : Tensor R :=
  mkTensor (shape t)
    (fun ix => xexp t.[ix] /
               Rsum (last (shape t) 0%nat) (fun j => xexp t.[ix_init ix ++ [j]])).

(** [F.relu] *)
Definition F_relu (t : Tensor R) : Tensor R := tmap (Rmax 0) t.

(** Element of the concatenation along the last axis: the tensors are
    walked until the one that holds column [c]. *)
Fixpoint cat_last_at (ts : list (Tensor R)) (pre : list nat) (c : nat) : R :=
  match ts with
  | [] => 0
  | t :: r =>
      let d := last (shape t) 0%nat in
      if (c <? d)%nat then t.[pre ++ [c]] else cat_last_at r pre (c - d)
  end.

Definition same_lead (s : list nat) (t : Tensor R) : bool :=
  if shape_eqb (removelast (shape t)) s then
    match shape t with [] => false | _ => true end
  else false.

(** [torch.cat(ts, dim=-1)]; an empty list is a [ValueError]. *)
Definition torch_cat_last (ts : list (Tensor R)) : result (Tensor R) :=
  match ts with
  | [] => Err ValueError
  | t0 :: _ =>
      if forallb (same_lead (removelast (shape t0))) ts
      then Ok (mkTensor
                 (removelast (shape t0) ++
                    [fold_right (fun t acc => (last (shape t) 0 + acc)%nat) 0%nat ts])
                 (fun ix => cat_last_at ts (ix_init ix) (ix_last ix)))
      else Err RuntimeError
  end.

(** [torch.cat((a, b), dim=1)] for two index matrices *)
Definition torch_cat_dim1 (a b : Tensor Z) : result (Tensor Z) :=
  match shape a, shape b with
  | [B; T], [B'; T'] =>
      if (B =? B')%nat
      then Ok (mkTensor [B; (T + T')%nat]
                 (fun ix => match ix with
                            | [i; t] => if (t <? T)%nat then a.[[i; t]]
                                        else b.[[i; (t - T)%nat]]
                            | _ => 0%Z
                            end))
      else Err RuntimeError
  | _, _ => Err RuntimeError
  end.

(** [torch.arange(n)] *)
Definition torch_arange (n : nat) : Tensor Z :=
  mkTensor [n] (fun ix => Z.of_nat (hd 0%nat ix)).

(** [torch.tril(torch.ones(n, n))] *)
Definition tril_ones (n : nat) : Tensor R :=
  mkTensor [n; n] (fun ix => if (ix_last ix <=? ix_row ix)%nat then 1 else 0).

(** Row-major position of an index in a shape. *)
Fixpoint ravel (s ix : list nat) : nat :=
  match s, ix with
  | _ :: s', i :: ix' => (i * numel s' + ravel s' ix')%nat
  | _, _ => 0%nat
  end.

(** ** Memory layout and [Tensor.view]

    A tensor that a caller hands to the module reads its elements through
    the strides of its storage.  [view] is the one operation of the module
    whose outcome depends on them: it never copies, so it raises when the
    requested shape cannot be laid over the strides. *)
Record Strided (A : Type) : Type := mkStrided {
  values : Tensor A;
  strides : list nat
}.

Arguments mkStrided {A} values strides.

Coercion values : Strided >-> Tensor.

(** The strides of a freshly allocated tensor (row-major, a dimension of
    size 0 counted as 1). *)
Definition numel1 (s : list nat) : nat :=
  fold_right (fun d acc => (Nat.max d 1 * acc)%nat) 1%nat s.

Fixpoint contiguous_strides (s : list nat) : list nat :=
  match s with
  | [] => []
  | _ :: s' => numel1 s' :: contiguous_strides s'
  end.

Definition contiguous {A} (t : Tensor A) : Strided A :=
  mkStrided t (contiguous_strides (shape t)).

(** The stride computation of the library ([computeStride]), reduced to
    its verdict.  The axes of the tensor are walked from the last to the
    first and cut into chunks of axes that lie contiguously in the
    storage; [fill_chunk] is the inner loop that takes axes of the view
    until they hold as many elements as the chunk. *)
Fixpoint fill_chunk (new_rev : list nat) (view_numel tensor_numel : nat)
  : nat * list nat :=
  match new_rev with
  | d :: r =>
      if ((view_numel <? tensor_numel) || (d =? 1))%nat
      then fill_chunk r (view_numel * d)%nat tensor_numel
      else (view_numel, new_rev)
  | [] => (view_numel, [])
  end.

Fixpoint chunks (old_rev : list (nat * nat)) (tensor_numel chunk_base : nat)
  (new_rev : list nat) : bool :=
  match old_rev with
  | [] => true
  | (d, _) :: rest =>
      let tensor_numel := (tensor_numel * d)%nat in
      match rest with
      | [] =>
          let (view_numel, left) := fill_chunk new_rev 1 tensor_numel in
          (view_numel =? tensor_numel)%nat
          && match left with [] => true | _ => false end
      | (d1, st1) :: _ =>
          if (negb (d1 =? 1) && negb (st1 =? tensor_numel * chunk_base))%nat then
            let (view_numel, left) := fill_chunk new_rev 1 tensor_numel in
            if (view_numel =? tensor_numel)%nat then chunks rest 1 st1 left
            else false
          else chunks rest tensor_numel chunk_base new_rev
      end
  end.

Definition viewable (old_shape old_strides new_shape : list nat) : bool :=
  match old_shape with
  | [] => true
  | _ =>
      if (numel old_shape =? 0)%nat then true
      else match rev (combine old_shape old_strides) with
           | (d, st) :: rest => chunks ((d, st) :: rest) 1 st (rev new_shape)
           | [] => true
           end
  end.

(** [t.view(s)] for a tensor [t] with the given strides: the same
    elements in row-major order, or [RuntimeError] when the number of
    elements differs or the strides do not allow the shape. *)
Definition view {A} (t : Tensor A) (st : list nat) (s : list nat)
  : result (Tensor A) :=
  if (numel (shape t) =? numel s)%nat then
    if viewable (shape t) st s
    then Ok (mkTensor s (fun ix => t.[unravel (shape t) (ravel s ix)]))
    else Err RuntimeError
  else Err RuntimeError.

(** [t.view(t.numel())] is possible. *)
Definition flattenable {A} (t : Strided A) : bool :=
  viewable (shape t) (strides t) [numel (shape t)].

(** [t[:, -n:]] *)
Definition slice_last_cols (t : Tensor Z) (n : nat) : result (Tensor Z) :=
  match shape t with
  | B :: T :: rest =>
      let start := if (n =? 0)%nat then 0%nat else (T - n)%nat in
      Ok (mkTensor (B :: (T - start)%nat :: rest)
            (fun ix => match ix with
                       | b :: i :: r => t.[b :: (i + start)%nat :: r]
                       | _ => t.[ix]
                       end))
  | _ => Err IndexError
  end.

(** [t[:, -1, :]] on a tensor of three axes (the logits) *)
Definition select_last_step (t : Tensor R) : result (Tensor R) :=
  match shape t with
  | [B; T; C] =>
      if (T =? 0)%nat then Err IndexError
      else Ok (mkTensor [B; C]
                 (fun ix => match ix with
                            | [b; c] => t.[[b; (T - 1)%nat; c]]
                            | _ => 0
                            end))
  | _ => Err IndexError
  end.

(** [F.cross_entropy(logits, targets)] with its defaults: mean over the
    targets that are not [ignore_index]; a target outside the classes is
    an error; a mean over no target is [nan]. *)
Definition ignore_index : Z := (-100)%Z.

Definition target_ok (C : nat) (t : Z) : bool :=
  (t =? ignore_index)%Z || ((0 <=? t)%Z && (t <? Z.of_nat C)%Z).

Definition nll (logits : Tensor R) (targets : Tensor Z) (C n : nat) : R :=
  ln (Rsum C (fun j => exp logits.[[n; j]])) - logits.[[n; Z.to_nat targets.[[n]]]].

Definition F_cross_entropy (logits : Tensor R) (targets : Tensor Z) : result scalar :=
  match shape logits, shape targets with
  | [N; C], [N'] =>
      if (N =? N')%nat then
        if forallb (fun n => target_ok C targets.[[n]]) (seq 0 N) then
          let kept := filter (fun n => negb (targets.[[n]] =? ignore_index)%Z) (seq 0 N) in
          match kept with
          | [] => Ok NaN
          | _ => Ok (Real (fold_right (fun n acc => nll logits targets C n + acc) 0 kept
                           / INR (length kept)))
          end
        else Err IndexError
      else Err ValueError
  | _, _ => Err RuntimeError
  end.

(** ** Modules of the library *)

(** [nn.Linear]: [weight] has shape [(out_features, in_features)] and
    [bias], when there is one, shape [(out_features,)]. *)
Record Linear : Type := mkLinear {
  weight : Tensor R;
  bias : option (Tensor R)
}.

Definition Linear_forward (l : Linear) (x : Tensor R) : result (Tensor R) :=
  match shape (weight l), rev (shape x) with
  | [o; i], d :: pre =>
      if (d =? i)%nat then
        match bias l with
        | None =>
            Ok (mkTensor (rev pre ++ [o])
                  (fun ix => Rsum i (fun k => x.[ix_init ix ++ [k]] * (weight l).[[ix_last ix; k]])))
        | Some b =>
            if shape_eqb (shape b) [o] then
              Ok (mkTensor (rev pre ++ [o])
                    (fun ix => Rsum i (fun k => x.[ix_init ix ++ [k]] * (weight l).[[ix_last ix; k]])
                               + b.[[ix_last ix]]))
            else Err RuntimeError
        end
      else Err RuntimeError
  | _, _ => Err RuntimeError
  end.

(** [nn.Embedding]: [weight] has shape [(num_embeddings, embedding_dim)];
    an index outside the table is an [IndexError].  This is the lookup in
    a table that holds at least one row and one column; in a table
    without element the library reports the failure with another class
    ([RuntimeError]), which the model does not set apart. *)
Record Embedding : Type := mkEmbedding {
  emb_weight : Tensor R
}.

Definition in_table (n : nat) (i : Z) : bool :=
  (0 <=? i)%Z && (i <? Z.of_nat n)%Z.

Definition Embedding_forward (e : Embedding) (idx : Tensor Z) : result (Tensor R) :=
  match shape (emb_weight e) with
  | [n; d] =>
      if forallb (fun ix => in_table n idx.[ix]) (all_indices (shape idx))
      then Ok (mkTensor (shape idx ++ [d])
                 (fun ix => (emb_weight e).[[Z.to_nat idx.[ix_init ix]; ix_last ix]]))
      else Err IndexError
  | _ => Err RuntimeError
  end.

(** [nn.LayerNorm(d)]: normalisation over the last axis, biased variance. *)
Record LayerNorm : Type := mkLayerNorm {
  normalized_shape : nat;
  ln_weight : Tensor R;
  ln_bias : Tensor R;
  eps : R
}.

Definition layer_norm_at (l : LayerNorm) (x : Tensor R) (ix : list nat) : R :=
  let d := normalized_shape l in
  let row := fun j => x.[ix_init ix ++ [j]] in
  let mean := Rsum d row / INR d in
  let var := Rsum d (fun j => (row j - mean) * (row j - mean)) / INR d in
  (x.[ix] - mean) / sqrt (var + eps l) * (ln_weight l).[[ix_last ix]]
  + (ln_bias l).[[ix_last ix]].

Definition LayerNorm_forward (l : LayerNorm) (x : Tensor R) : result (Tensor R) :=
  match rev (shape x) with
  | d :: _ =>
      if (d =? normalized_shape l)%nat then
        if shape_eqb (shape (ln_weight l)) [normalized_shape l] then
          if shape_eqb (shape (ln_bias l)) [normalized_shape l] then
            Ok (mkTensor (shape x) (layer_norm_at l x))
          else Err RuntimeError
        else Err RuntimeError
      else Err RuntimeError
  | [] => Err RuntimeError
  end.

Definition LayerNorm_init (d : nat) : LayerNorm :=
  mkLayerNorm d (mkTensor [d] (fun _ => 1)) (mkTensor [d] (fun _ => 0)) (1 / 100000).

(** [nn.Dropout(p)]: active in training mode only. *)
Record Dropout : Type := mkDropout {
  drop_p : R;
  training : bool
}.

Definition Dropout_init (p : R) : result Dropout :=
  if Rle_dec 0 p then
    if Rle_dec p 1 then Ok (mkDropout p true) else Err ValueError
  else Err ValueError.

Section Random.
Context {TR : TorchRandom}.

Definition Dropout_forward (d : Dropout) (x : Tensor R) : M (Tensor R) :=
  if training d then
    if Req_dec_T (drop_p d) 0 then ret x
    else if (numel (shape x) =? 0)%nat then ret x
    else if Req_dec_T (drop_p d) 1 then ret (tmap (fun _ => 0) x)
    else
      mask <- draw (Bernoulli (1 - drop_p d)) (shape x) ;;
      ret (mkTensor (shape x) (fun ix => x.[ix] * mask.[ix] / (1 - drop_p d)))
  else ret x.

(** Default initialisation of [nn.Linear(i, o, bias)] and of
    [nn.Embedding(n, d)]. *)
Definition Linear_init (i o : nat) (with_bias : bool) : M Linear :=
  w <- draw (KaimingUniform (sqrt 5)) [o; i] ;;
  if with_bias then
    let bound := if (i =? 0)%nat then 0 else 1 / sqrt (INR i) in
    b <- draw (Uniform (- bound) bound) [o] ;;
    ret (mkLinear w (Some b))
  else ret (mkLinear w None).

Definition Embedding_init (n d : nat) : M Embedding :=
  w <- draw (Normal 0 1) [n; d] ;;
  ret (mkEmbedding w).

(** [torch.multinomial(probs, num_samples=1)] on a matrix of weights:
    one draw per row, in row order. *)
Definition Rle_bool (x y : R) : bool := if Rle_dec x y then true else false.
Definition Rlt_bool (x y : R) : bool := if Rlt_dec x y then true else false.

Definition valid_dist (probs : Tensor R) (B n : nat) : bool :=
  forallb (fun b =>
    forallb (fun c => Rle_bool 0 probs.[[b; c]]) (seq 0 n)
    && Rlt_bool 0 (Rsum n (fun c => probs.[[b; c]]))) (seq 0 B).

Definition draw_row (probs : Tensor R) (n b : nat) : M nat :=
  fun g => Ok (multinomial1 g (fun c => probs.[[b; c]]) n).

Definition torch_multinomial (probs : Tensor R) : M (Tensor Z) :=
  match shape probs with
  | [B; n] =>
      if (n =? 0)%nat then raise RuntimeError
      else if (B =? 0)%nat then ret (mkTensor [0%nat; 1%nat] (fun _ => 0%Z))
      else if valid_dist probs B n then
        ks <- mapM (draw_row probs n) (seq 0 B) ;;
        ret (mkTensor [B; 1%nat] (fun ix => Z.of_nat (nth (hd 0%nat ix) ks 0%nat)))
      else raise RuntimeError
  | _ => raise RuntimeError
  end.
End Random.

(** ** GPT.py *)

(** The hyperparameters the classes read (module-level constants). *)
Module HP.
Record t : Type := mk {
  block_size : nat;
  n_embed : nat;
  n_layer : nat;
  n_head : nat;
  dropout : R
}.
End HP.

Definition source_hparams : HP.t :=
  HP.mk 64 384 8 8 (2 / 10).

Section InitWeights.
Context {TR : TorchRandom}.

(** [_init_weights] on a linear layer and on an embedding table. *)
Definition init_weights_Linear (l : Linear) : M Linear :=
  w <- draw (Normal 0 (2 / 100)) (shape (weight l)) ;;
  ret (mkLinear w (option_map (fun b => mkTensor (shape b) (fun _ => 0)) (bias l))).

Definition init_weights_Embedding (e : Embedding) : M Embedding :=
  w <- draw (Normal 0 (2 / 100)) (shape (emb_weight e)) ;;
  ret (mkEmbedding w).
End InitWeights.

Module Head.
Record t : Type := mk {
  key : Linear;
  query : Linear;
  value : Linear;
  tril : Tensor R;
  dropout : Dropout
}.

Section Methods.
Context {TR : TorchRandom}.
Variable hp : HP.t.

Definition init (head_size : nat) : M t :=
  k <- Linear_init (HP.n_embed hp) head_size false ;;
  q <- Linear_init (HP.n_embed hp) head_size false ;;
  v <- Linear_init (HP.n_embed hp) head_size false ;;
  d <- lift (Dropout_init (HP.dropout hp)) ;;
  ret (mk k q v (tril_ones (HP.block_size hp)) d).

Definition forward (h : t) (x : Tensor R) : M (Tensor R) :=
  '(B, T, C) <- lift (unpack3 (shape x)) ;;
  k <- lift (Linear_forward (key h) x) ;;
  q <- lift (Linear_forward (query h) x) ;;
  kT <- lift (transpose_last2 k) ;;
  qk <- lift (matmul q kT) ;;
  s <- lift (pow_neg_half (last (shape k) 0%nat)) ;;
  let wei := tscale qk s in
  mask <- lift (slice2 (tril h) T T) ;;
  wei <- lift (masked_fill wei (teq0 mask) NegInf) ;;
  let wei := F_softmax wei in
  wei <- Dropout_forward (dropout h) wei ;;
  v <- lift (Linear_forward (value h) x) ;;
  lift (matmul wei v).

Definition apply_init_weights (h : t) : M t :=
  k <- init_weights_Linear (key h) ;;
  q <- init_weights_Linear (query h) ;;
  v <- init_weights_Linear (value h) ;;
  ret (mk k q v (tril h) (dropout h)).
End Methods.
End Head.

Module MultiHeadAttention.
Record t : Type := mk {
  heads : list Head.t;
  proj : Linear;
  dropout : Dropout
}.

Section Methods.
Context {TR : TorchRandom}.
Variable hp : HP.t.

Definition init (num_heads head_size : nat) : M t :=
  hs <- mapM (fun _ => Head.init hp head_size) (seq 0 num_heads) ;;
  p <- Linear_init (head_size * num_heads) (HP.n_embed hp) true ;;
  d <- lift (Dropout_init (HP.dropout hp)) ;;
  ret (mk hs p d).

Definition forward (m : t) (x : Tensor R) : M (Tensor R) :=
  outs <- mapM (fun h => Head.forward h x) (heads m) ;;
  out <- lift (torch_cat_last outs) ;;
  out <- lift (Linear_forward (proj m) out) ;;
  Dropout_forward (dropout m) out.

Definition apply_init_weights (m : t) : M t :=
  hs <- mapM Head.apply_init_weights (heads m) ;;
  p <- init_weights_Linear (proj m) ;;
  ret (mk hs p (dropout m)).
End Methods.
End MultiHeadAttention.

Module FeedForward.
(** [net] is [nn.Sequential(Linear, ReLU, Linear, Dropout)]; the fields
    are its entries 0, 2 and 3. *)
Record t : Type := mk {
  net_0 : Linear;
  net_2 : Linear;
  net_3 : Dropout
}.

Section Methods.
Context {TR : TorchRandom}.
Variable hp : HP.t.

Definition init (n_embed : nat) : M t :=
  l0 <- Linear_init n_embed (4 * n_embed) true ;;
  l2 <- Linear_init (4 * n_embed) n_embed true ;;
  d <- lift (Dropout_init (HP.dropout hp)) ;;
  ret (mk l0 l2 d).

Definition forward (f : t) (x : Tensor R) : M (Tensor R) :=
  h <- lift (Linear_forward (net_0 f) x) ;;
  let h := F_relu h in
  h <- lift (Linear_forward (net_2 f) h) ;;
  Dropout_forward (net_3 f) h.

Definition apply_init_weights (f : t) : M t :=
  l0 <- init_weights_Linear (net_0 f) ;;
  l2 <- init_weights_Linear (net_2 f) ;;
  ret (mk l0 l2 (net_3 f)).
End Methods.
End FeedForward.

Module Block.
Record t : Type := mk {
  sa : MultiHeadAttention.t;
  ffwd : FeedForward.t;
  ln1 : LayerNorm;
  ln2 : LayerNorm
}.

Section Methods.
Context {TR : TorchRandom}.
Variable hp : HP.t.

(** [n_embed // n_head] raises [ZeroDivisionError] for no head. *)
Definition init (n_embed n_head : nat) : M t :=
  head_size <- (if (n_head =? 0)%nat then raise ZeroDivisionError
                else ret (n_embed / n_head)%nat) ;;
  a <- MultiHeadAttention.init hp n_head head_size ;;
  f <- FeedForward.init hp n_embed ;;
  ret (mk a f (LayerNorm_init n_embed) (LayerNorm_init n_embed)).

Definition forward (b : t) (x : Tensor R) : M (Tensor R) :=
  y <- MultiHeadAttention.forward (sa b) x ;;
  s <- lift (tadd x y) ;;
  x <- lift (LayerNorm_forward (ln1 b) s) ;;
  y <- FeedForward.forward (ffwd b) x ;;
  s <- lift (tadd x y) ;;
  x <- lift (LayerNorm_forward (ln2 b) s) ;;
  ret x.

Definition apply_init_weights (b : t) : M t :=
  a <- MultiHeadAttention.apply_init_weights (sa b) ;;
  f <- FeedForward.apply_init_weights (ffwd b) ;;
  ret (mk a f (ln1 b) (ln2 b)).
End Methods.
End Block.

Module GPTLanguageModel.
Record t : Type := mk {
  token_embedding_table : Embedding;
  position_embedding_table : Embedding;
  blocks : list Block.t;
  ln_f : LayerNorm;
  lm_head : Linear
}.

Section Methods.
Context {TR : TorchRandom}.
Variable hp : HP.t.

(** [self.apply(self._init_weights)] *)
Definition apply_init_weights (m : t) : M t :=
  tok <- init_weights_Embedding (token_embedding_table m) ;;
  pos <- init_weights_Embedding (position_embedding_table m) ;;
  bs <- mapM Block.apply_init_weights (blocks m) ;;
  h <- init_weights_Linear (lm_head m) ;;
  ret (mk tok pos bs (ln_f m) h).

Definition init (vocab_size : nat) : M t :=
  tok <- Embedding_init vocab_size (HP.n_embed hp) ;;
  pos <- Embedding_init (HP.block_size hp) (HP.n_embed hp) ;;
  bs <- mapM (fun _ => Block.init hp (HP.n_embed hp) (HP.n_head hp))
             (seq 0 (HP.n_layer hp)) ;;
  h <- Linear_init (HP.n_embed hp) vocab_size true ;;
  apply_init_weights (mk tok pos bs (LayerNorm_init (HP.n_embed hp)) h).

Definition forward (m : t) (index : Tensor Z) (targets : option (Strided Z))
  : M (Tensor R * option scalar) :=
  '(B, T) <- lift (unpack2 (shape index)) ;;
  tok_emb <- lift (Embedding_forward (token_embedding_table m) index) ;;
  pos_emb <- lift (Embedding_forward (position_embedding_table m) (torch_arange T)) ;;
  x <- lift (tadd tok_emb pos_emb) ;;
  x <- foldM Block.forward (blocks m) x ;;
  x <- lift (LayerNorm_forward (ln_f m) x) ;;
  logits <- lift (Linear_forward (lm_head m) x) ;;
  match targets with
  | None => ret (logits, None)
  | Some targets =>
      '(B, T, C) <- lift (unpack3 (shape logits)) ;;
      logits <- lift (view logits (contiguous_strides (shape logits))
                           [(B * T)%nat; C]) ;;
      targets <- lift (view (values targets) (strides targets) [(B * T)%nat]) ;;
      loss <- lift (F_cross_entropy logits targets) ;;
      ret (logits, Some loss)
  end.

(** The body of the loop of [generate]. *)
Definition generate_step (m : t) (index : Tensor Z) : M (Tensor Z) :=
  index_cond <- lift (slice_last_cols index (HP.block_size hp)) ;;
  '(logits, loss) <- forward m index_cond None ;;
  logits <- lift (select_last_step logits) ;;
  let probs := F_softmax (tmap Fin logits) in
  index_next <- torch_multinomial probs ;;
  lift (torch_cat_dim1 index index_next).

Definition generate (m : t) (index : Tensor Z) (max_new_tokens : nat)
  : M (Tensor Z) :=
  iterM max_new_tokens (generate_step m) index.
End Methods.
End GPTLanguageModel.

(** ** Well-formed parameters

    The shapes [__init__] gives to the parameters and buffers, as
    predicates on the parameter tree. *)

Definition wf_Linear (i o : nat) (with_bias : bool) (l : Linear) : Prop :=
  shape (weight l) = [o; i] /\
  match bias l with
  | Some b => with_bias = true /\ shape b = [o]
  | None => with_bias = false
  end.

Definition wf_Embedding (n d : nat) (e : Embedding) : Prop :=
  shape (emb_weight e) = [n; d].

Definition wf_LayerNorm (d : nat) (l : LayerNorm) : Prop :=
  normalized_shape l = d /\ shape (ln_weight l) = [d] /\ shape (ln_bias l) = [d].

(** The buffer [tril]: ones on and below the diagonal of an [n x n] matrix. *)
Definition is_tril (n : nat) (t : Tensor R) : Prop :=
  shape t = [n; n] /\
  forall r c, (r < n)%nat -> (c < n)%nat ->
    t.[[r; c]] = if (c <=? r)%nat then 1 else 0.

Definition wf_Head (hp : HP.t) (head_size : nat) (h : Head.t) : Prop :=
  wf_Linear (HP.n_embed hp) head_size false (Head.key h) /\
  wf_Linear (HP.n_embed hp) head_size false (Head.query h) /\
  wf_Linear (HP.n_embed hp) head_size false (Head.value h) /\
  is_tril (HP.block_size hp) (Head.tril h).

Definition wf_MultiHeadAttention (hp : HP.t) (num_heads head_size : nat)
  (m : MultiHeadAttention.t) : Prop :=
  length (MultiHeadAttention.heads m) = num_heads /\
  Forall (wf_Head hp head_size) (MultiHeadAttention.heads m) /\
  wf_Linear (head_size * num_heads) (HP.n_embed hp) true (MultiHeadAttention.proj m).

Definition wf_FeedForward (n : nat) (f : FeedForward.t) : Prop :=
  wf_Linear n (4 * n) true (FeedForward.net_0 f) /\
  wf_Linear (4 * n) n true (FeedForward.net_2 f).

(** A block as [Block(n_embed, n_head)] builds it from the module-level
    [n_embed] and [n_head]. *)
Definition wf_Block (hp : HP.t) (b : Block.t) : Prop :=
  wf_MultiHeadAttention hp (HP.n_head hp) (HP.n_embed hp / HP.n_head hp) (Block.sa b) /\
  wf_FeedForward (HP.n_embed hp) (Block.ffwd b) /\
  wf_LayerNorm (HP.n_embed hp) (Block.ln1 b) /\
  wf_LayerNorm (HP.n_embed hp) (Block.ln2 b).

Definition wf_GPT (hp : HP.t) (vocab_size : nat) (m : GPTLanguageModel.t) : Prop :=
  wf_Embedding vocab_size (HP.n_embed hp) (GPTLanguageModel.token_embedding_table m) /\
  wf_Embedding (HP.block_size hp) (HP.n_embed hp)
               (GPTLanguageModel.position_embedding_table m) /\
  length (GPTLanguageModel.blocks m) = HP.n_layer hp /\
  Forall (wf_Block hp) (GPTLanguageModel.blocks m) /\
  wf_LayerNorm (HP.n_embed hp) (GPTLanguageModel.ln_f m) /\
  wf_Linear (HP.n_embed hp) vocab_size true (GPTLanguageModel.lm_head m).

(** Every head has at least one channel: [n_embed // n_head >= 1]
    (48 for the constants of the file). *)
Definition head_size (hp : HP.t) : nat := (HP.n_embed hp / HP.n_head hp)%nat.

(** Dropout disabled: every [nn.Dropout] of the tree is in evaluation
    mode, as after [model.eval()]. *)
Definition eval_Head (h : Head.t) : Prop :=
  training (Head.dropout h) = false.

Definition eval_MultiHeadAttention (m : MultiHeadAttention.t) : Prop :=
  Forall eval_Head (MultiHeadAttention.heads m) /\
  training (MultiHeadAttention.dropout m) = false.

Definition eval_Block (b : Block.t) : Prop :=
  eval_MultiHeadAttention (Block.sa b) /\
  training (FeedForward.net_3 (Block.ffwd b)) = false.

Definition eval_GPT (m : GPTLanguageModel.t) : Prop :=
  Forall eval_Block (GPTLanguageModel.blocks m).

(** Token indices of a matrix inside the vocabulary. *)
Definition valid_tokens (vocab_size : nat) (idx : Tensor Z) : Prop :=
  forall b t, valid_ix (shape idx) [b; t] ->
    (0 <= idx.[[b; t]] < Z.of_nat vocab_size)%Z.

Definition has_shape (s : list nat) (t : Tensor R) : Prop := shape t = s.

(** Two index matrices with the same tokens at the positions [0..i]. *)
Definition agree_tokens (i : nat) (idx idx' : Tensor Z) : Prop :=
  forall b t, valid_ix (shape idx) [b; t] -> (t <= i)%nat ->
    idx.[[b; t]] = idx'.[[b; t]].

(** Two activation tensors that agree on the time steps [0..i]. *)
Definition agree_upto {A} (i : nat) (x x' : Tensor A) : Prop :=
  forall b t c, valid_ix (shape x) [b; t; c] -> (t <= i)%nat ->
    x.[[b; t; c]] = x'.[[b; t; c]].

(** ** The components as the specification words them

    One attention head (section 4.1): key, query and value are three
    unbiased linear maps of the input; the score of positions [i] and [j]
    is the scaled dot product [(q_i . k_j) / sqrt(head_size)], set to
    minus infinity for [j > i]; every row is normalised by softmax; the
    output is the sum of the value vectors weighted by the row. *)
Section HeadSpec.
Variable h : Head.t.
Variable x : Tensor R.
Variables n_embed head_size T : nat.

Definition spec_linear (W : Tensor R) (b t c : nat) : R :=
  Rsum n_embed (fun e => x.[[b; t; e]] * W.[[c; e]]).

Definition spec_k : nat -> nat -> nat -> R := spec_linear (weight (Head.key h)).
Definition spec_q : nat -> nat -> nat -> R := spec_linear (weight (Head.query h)).
Definition spec_v : nat -> nat -> nat -> R := spec_linear (weight (Head.value h)).

Definition spec_scores (b i j : nat) : xreal :=
  if (i <? j)%nat then NegInf
  else Fin (Rsum head_size (fun c => spec_q b i c * spec_k b j c)
            / sqrt (INR head_size)).

Definition spec_probs (b i j : nat) : R :=
  xexp (spec_scores b i j) / Rsum T (fun j' => xexp (spec_scores b i j')).

Definition spec_out (b i c : nat) : R :=
  Rsum T (fun j => spec_probs b i j * spec_v b j c).
End HeadSpec.

(** The transformer block (section 4.4), post-normalisation:
    [x' = LayerNorm(x + MultiHeadAttention(x))],
    [x'' = LayerNorm(x' + FeedForward(x'))], return [x'']. *)
Section BlockSpec.
Context {TR : TorchRandom}.

Definition spec_add_norm (ln : LayerNorm) (x sub : Tensor R) : M (Tensor R) :=
  lift (rbind (tadd x sub) (LayerNorm_forward ln)).

Definition spec_block (b : Block.t) (x : Tensor R) : M (Tensor R) :=
  a <- MultiHeadAttention.forward (Block.sa b) x ;;
  x' <- spec_add_norm (Block.ln1 b) x a ;;
  f <- FeedForward.forward (Block.ffwd b) x' ;;
  x'' <- spec_add_norm (Block.ln2 b) x' f ;;
  ret x''.
End BlockSpec.

(** [index[b, j] = v] *)
Definition set_token (index : Tensor Z) (b j : nat) (v : Z) : Tensor Z :=
  mkTensor (shape index)
    (fun ix => match ix with
               | [b'; t] => if ((b' =? b) && (t =? j))%nat then v else index.[ix]
               | _ => index.[ix]
               end).

(** ** Instances for the examples

    A generator that counts its draws, returns zero samples and always the
    first category; a model of any size with zero weights, in evaluation
    mode. *)
Definition counting_random : TorchRandom :=
  {| Generator := nat;
     sample := fun g _ _ => (fun _ => 0, S g);
     multinomial1 := fun g _ _ => (0%nat, S g);
     multinomial1_lt := fun _ _ _ H => H |}.

Definition zeros (s : list nat) : Tensor R := mkTensor s (fun _ => 0).

Definition zero_Linear (i o : nat) (with_bias : bool) : Linear :=
  mkLinear (zeros [o; i]) (if with_bias then Some (zeros [o]) else None).

Definition zero_Head (hp : HP.t) : Head.t :=
  Head.mk (zero_Linear (HP.n_embed hp) (head_size hp) false)
          (zero_Linear (HP.n_embed hp) (head_size hp) false)
          (zero_Linear (HP.n_embed hp) (head_size hp) false)
          (tril_ones (HP.block_size hp))
          (mkDropout (HP.dropout hp) false).

Definition zero_Block (hp : HP.t) : Block.t :=
  Block.mk
    (MultiHeadAttention.mk (repeat (zero_Head hp) (HP.n_head hp))
       (zero_Linear (head_size hp * HP.n_head hp) (HP.n_embed hp) true)
       (mkDropout (HP.dropout hp) false))
    (FeedForward.mk (zero_Linear (HP.n_embed hp) (4 * HP.n_embed hp) true)
       (zero_Linear (4 * HP.n_embed hp) (HP.n_embed hp) true)
       (mkDropout (HP.dropout hp) false))
    (LayerNorm_init (HP.n_embed hp)) (LayerNorm_init (HP.n_embed hp)).

Definition zero_GPT (hp : HP.t) (vocab_size : nat) : GPTLanguageModel.t :=
  GPTLanguageModel.mk
    (mkEmbedding (zeros [vocab_size; HP.n_embed hp]))
    (mkEmbedding (zeros [HP.block_size hp; HP.n_embed hp]))
    (repeat (zero_Block hp) (HP.n_layer hp))
    (LayerNorm_init (HP.n_embed hp))
    (zero_Linear (HP.n_embed hp) vocab_size true).

(** An index matrix filled with token [0]. *)
Definition zero_tokens (B T : nat) : Tensor Z := mkTensor [B; T] (fun _ => 0%Z).

(** The index matrix [arange(B * T).view(B, T)]. *)
Definition iota_tokens (B T : nat) : Tensor Z :=
  mkTensor [B; T] (fun ix => Z.of_nat (ravel [B; T] ix)).

(** Hyperparameters whose head count does not divide the width. *)
Definition uneven_hparams : HP.t := HP.mk 64 10 1 3 (2 / 10).

(** Hyperparameters with more heads than channels: [n_embed // n_head]
    is [0]. *)
Definition crowded_hparams : HP.t := HP.mk 64 2 1 3 (2 / 10).

(** The bias a linear layer adds to channel [c] (none: [0]). *)
Definition bias_at (l : Linear) (c : nat) : R :=
  match bias l with
  | Some b => b.[[c]]
  | None => 0
  end.

(** ** The state of a model right after construction *)

(** A linear layer whose bias, if any, is zero everywhere. *)
Definition zero_bias (l : Linear) : Prop :=
  match bias l with
  | Some b => forall ix, b.[ix] = 0
  | None => True
  end.

(** A dropout layer as [nn.Dropout(p)] leaves it: in training mode. *)
Definition fresh_Dropout (p : R) (d : Dropout) : Prop :=
  drop_p d = p /\ training d = true.

Definition fresh_Head (hp : HP.t) (h : Head.t) : Prop :=
  bias (Head.key h) = None /\ bias (Head.query h) = None /\
  bias (Head.value h) = None /\
  Head.tril h = tril_ones (HP.block_size hp) /\
  fresh_Dropout (HP.dropout hp) (Head.dropout h).

Definition fresh_Block (hp : HP.t) (b : Block.t) : Prop :=
  Forall (fresh_Head hp) (MultiHeadAttention.heads (Block.sa b)) /\
  fresh_Dropout (HP.dropout hp) (MultiHeadAttention.dropout (Block.sa b)) /\
  fresh_Dropout (HP.dropout hp) (FeedForward.net_3 (Block.ffwd b)) /\
  Block.ln1 b = LayerNorm_init (HP.n_embed hp) /\
  Block.ln2 b = LayerNorm_init (HP.n_embed hp).

Definition zero_biases_Block (b : Block.t) : Prop :=
  zero_bias (MultiHeadAttention.proj (Block.sa b)) /\
  zero_bias (FeedForward.net_0 (Block.ffwd b)) /\
  zero_bias (FeedForward.net_2 (Block.ffwd b)).

Definition fresh_GPT (hp : HP.t) (m : GPTLanguageModel.t) : Prop :=
  Forall (fun b => fresh_Block hp b /\ zero_biases_Block b)
         (GPTLanguageModel.blocks m) /\
  GPTLanguageModel.ln_f m = LayerNorm_init (HP.n_embed hp) /\
  zero_bias (GPTLanguageModel.lm_head m).

(** The sampling loop as the specification words it (section 4.5): at
    every step a distribution over the next token is given for the running
    sequence, one token is drawn from it for every row, and the column of
    the drawn tokens is appended.  The generator enters through the draw
    alone. *)
Section GenerateSpec.
Context {TR : TorchRandom}.

Definition spec_sample_step (probs : result (Tensor R)) (index : Tensor Z)
  : M (Tensor Z) :=
  probs <- lift probs ;;
  index_next <- torch_multinomial probs ;;
  lift (torch_cat_dim1 index index_next).

Definition spec_generate (P : Tensor Z -> result (Tensor R))
  (index : Tensor Z) (max_new_tokens : nat) : M (Tensor Z) :=
  iterM max_new_tokens (fun index => spec_sample_step (P index) index) index.
End GenerateSpec.

(** The last [block_size] columns of two index matrices of [B] rows, of
    [T] and of [T'] columns, hold the same tokens. *)
Definition same_window (block_size B T T' : nat) (index index' : Tensor Z)
  : Prop :=
  forall b t, (b < B)%nat -> (t < block_size)%nat ->
    index.[[b; (T - block_size + t)%nat]]
    = index'.[[b; (T' - block_size + t)%nat]].

(** Row [b] of [x] and row [b'] of [x'] hold the same values at the time
    steps [0..i] (channels below [C]). *)
Definition agree_row (b b' i C : nat) (x x' : Tensor R) : Prop :=
  forall t c, (t <= i)%nat -> (c < C)%nat -> x.[[b; t; c]] = x'.[[b'; t; c]].

(** * Verification *)

Unset Implicit Arguments.

(** ** The operations on small inputs *)

Example ex_broadcast_ok : broadcast_shapes [2; 3; 4]%nat [3; 4]%nat = Ok [2; 3; 4]%nat.
Proof. reflexivity. Qed.
Example ex_broadcast_err : broadcast_shapes [2; 3]%nat [4; 3]%nat = Err RuntimeError.
Proof. reflexivity. Qed.
Example ex_broadcast_one : broadcast_shapes [2; 1; 4]%nat [3; 1]%nat = Ok [2; 3; 4]%nat.
Proof. reflexivity. Qed.
Example ex_unravel : unravel [2; 3]%nat 4 = [1; 1]%nat.
Proof. reflexivity. Qed.
Example ex_ravel : ravel [2; 3]%nat [1; 1]%nat = 4%nat.
Proof. reflexivity. Qed.
Example ex_all_indices : all_indices [2; 2]%nat = [[0; 0]; [0; 1]; [1; 0]; [1; 1]]%nat.
Proof. reflexivity. Qed.
Example ex_swap : swap_last2 [7; 8; 9]%nat = [7; 9; 8]%nat.
Proof. reflexivity. Qed.
Example ex_slice_shape :
  match slice_last_cols (iota_tokens 2 5) 3 with
  | Ok y => (shape y, y.[[0; 0]%nat], y.[[1; 2]%nat])
  | Err _ => ([], 0%Z, 0%Z)
  end = ([2; 3]%nat, 2%Z, 9%Z).
Proof. reflexivity. Qed.
Example ex_slice_short :
  match slice_last_cols (iota_tokens 2 2) 3 with
  | Ok y => (shape y, y.[[1; 1]%nat])
  | Err _ => ([], 0%Z)
  end = ([2; 2]%nat, 3%Z).
Proof. reflexivity. Qed.
Example ex_cat :
  match torch_cat_dim1 (iota_tokens 2 2) (mkTensor [2; 1]%nat (fun _ => 42%Z)) with
  | Ok y => (shape y, y.[[1; 1]%nat], y.[[1; 2]%nat])
  | Err _ => ([], 0%Z, 0%Z)
  end = ([2; 3]%nat, 3%Z, 42%Z).
Proof. reflexivity. Qed.
Example ex_embedding_range :
  Embedding_forward (mkEmbedding (zeros [3; 4]%nat)) (iota_tokens 2 2) = Err IndexError.
Proof. reflexivity. Qed.
Example ex_view_err :
  view (iota_tokens 2 3) (contiguous_strides [2; 3]%nat) [4]%nat = Err RuntimeError.
Proof. reflexivity. Qed.
Example ex_contiguous_strides : contiguous_strides [2; 3; 4]%nat = [12; 4; 1]%nat.
Proof. reflexivity. Qed.
Example ex_view_flat :
  match view (iota_tokens 2 3) (contiguous_strides [2; 3]%nat) [6]%nat with
  | Ok y => (shape y, y.[[4]%nat])
  | Err _ => ([], 0%Z)
  end = ([6]%nat, 4%Z).
Proof. reflexivity. Qed.
Example ex_view_transposed :
  view (iota_tokens 2 3) [1; 2]%nat [6]%nat = Err RuntimeError.
Proof. reflexivity. Qed.
Example ex_view_sliced :
  view (iota_tokens 2 3) [4; 1]%nat [6]%nat = Err RuntimeError.
Proof. reflexivity. Qed.
Example ex_view_single_row :
  viewable [1; 3]%nat [7; 1]%nat [3]%nat = true.
Proof. reflexivity. Qed.
Example ex_view_split :
  viewable [6]%nat [1]%nat [2; 3]%nat = true.
Proof. reflexivity. Qed.
Example ex_pow : pow_neg_half 0 = Err ZeroDivisionError.
Proof. reflexivity. Qed.
Example ex_floor : head_size (HP.mk 64 10 1 3 0%R) = 3%nat.
Proof. reflexivity. Qed.

(** ** Indices and sums *)

Lemma valid_ix1 (A a : nat) : valid_ix [A] [a] <-> (a < A)%nat.
Proof.
  unfold valid_ix; split.
  - intros H; inversion H; subst; assumption.
  - intros H; repeat constructor; assumption.
Qed.

Lemma valid_ix2 (A B a b : nat) :
  valid_ix [A; B] [a; b] <-> (a < A)%nat /\ (b < B)%nat.
Proof.
  unfold valid_ix; split.
  - intros H; inversion H as [|? ? ? ? H1 H2]; subst.
    inversion H2; subst; auto.
  - intros [H1 H2]; repeat constructor; assumption.
Qed.

Lemma valid_ix3 (A B C a b c : nat) :
  valid_ix [A; B; C] [a; b; c] <-> (a < A)%nat /\ (b < B)%nat /\ (c < C)%nat.
Proof.
  unfold valid_ix; split.
  - intros H; inversion H as [|? ? ? ? H1 H2]; subst.
    inversion H2 as [|? ? ? ? H3 H4]; subst.
    inversion H4; subst; auto.
  - intros (H1 & H2 & H3); repeat constructor; assumption.
Qed.

Lemma in_all_indices (s ix : list nat) :
  In ix (all_indices s) <-> valid_ix s ix.
Proof.
  revert ix; induction s as [|d s IH]; intros ix; simpl.
  - split.
    + intros [<-|[]]; constructor.
    + intros H; inversion H; auto.
  - rewrite in_flat_map; split.
    + intros (i & Hi & Hm). apply in_map_iff in Hm as (ix' & <- & Hin).
      apply in_seq in Hi. constructor; [lia | now apply IH].
    + intros H; inversion H as [|i ? ix' ? Hlt Hrest]; subst.
      exists i; split; [apply in_seq; lia|].
      apply in_map, IH, Hrest.
Qed.

Lemma Rsum_ext (n : nat) (f g : nat -> R) :
  (forall k, (k < n)%nat -> f k = g k) -> Rsum n f = Rsum n g.
Proof.
  induction n as [|n IH]; intros H; simpl; [reflexivity|].
  rewrite IH, H by (intros; auto with arith); reflexivity.
Qed.

Lemma Rsum_nonneg (n : nat) (f : nat -> R) :
  (forall k, (k < n)%nat -> 0 <= f k) -> 0 <= Rsum n f.
Proof.
  induction n as [|n IH]; intros H; simpl; [lra|].
  assert (0 <= Rsum n f) by (apply IH; intros; apply H; lia).
  assert (0 <= f n) by (apply H; lia). lra.
Qed.

Lemma Rsum_pos (n : nat) (f : nat -> R) :
  (0 < n)%nat -> (forall k, (k < n)%nat -> 0 < f k) -> 0 < Rsum n f.
Proof.
  intros Hn H; destruct n as [|n]; [lia|]; simpl.
  assert (0 <= Rsum n f) by (apply Rsum_nonneg; intros; apply Rlt_le, H; lia).
  assert (0 < f n) by (apply H; lia). lra.
Qed.

Lemma Rsum_term_le (n : nat) (f : nat -> R) (k : nat) :
  (forall j, (j < n)%nat -> 0 <= f j) -> (k < n)%nat -> f k <= Rsum n f.
Proof.
  induction n as [|n IH]; intros H Hk; [lia|]; simpl.
  assert (0 <= f n) by (apply H; lia).
  assert (0 <= Rsum n f) by (apply Rsum_nonneg; intros; apply H; lia).
  destruct (Nat.eq_dec k n) as [->|Hne]; [lra|].
  assert (f k <= Rsum n f) by (apply IH; [intros; apply H|]; lia). lra.
Qed.

Lemma Rsum_scal_r (n : nat) (f : nat -> R) (c : R) :
  Rsum n (fun k => f k * c) = Rsum n f * c.
Proof.
  induction n as [|n IH]; simpl; [lra|]. rewrite IH; lra.
Qed.

(** ** Results of the monad *)

Section MonadFacts.
Context {TR : TorchRandom}.

Lemma returns_ret {A} (a : A) g (Q : A -> Generator -> Prop) :
  Q a g -> returns (ret a) g Q.
Proof. intros H; exact H. Qed.

Lemma returns_bind {A B} (m : M A) (f : A -> M B) g (Q : B -> Generator -> Prop) :
  returns m g (fun a g' => returns (f a) g' Q) -> returns (bind m f) g Q.
Proof.
  unfold returns, bind. destruct (m g) as [[a g']|e]; auto.
Qed.

Lemma returns_lift {A} (r : result A) (a : A) g (Q : A -> Generator -> Prop) :
  r = Ok a -> Q a g -> returns (lift r) g Q.
Proof. intros -> H; exact H. Qed.

Lemma returns_mono {A} (m : M A) g (P Q : A -> Generator -> Prop) :
  returns m g P -> (forall a g', P a g' -> Q a g') -> returns m g Q.
Proof.
  unfold returns. destruct (m g) as [[a g']|e]; auto.
Qed.

Lemma returns_inv {A} (m : M A) g (Q : A -> Generator -> Prop) :
  returns m g Q -> exists a g', m g = Ok (a, g') /\ Q a g'.
Proof.
  unfold returns. destruct (m g) as [[a g']|e]; [eauto | tauto].
Qed.

Lemma returns_intro {A} (m : M A) g a g' (Q : A -> Generator -> Prop) :
  m g = Ok (a, g') -> Q a g' -> returns m g Q.
Proof. unfold returns; intros -> H; exact H. Qed.
End MonadFacts.

(** ** Facts on the tensor operations *)

Lemma broadcast_rev_same (s : list nat) : broadcast_rev s s = Ok s.
Proof.
  induction s as [|d s IH]; simpl; [reflexivity|].
  rewrite IH; simpl. now rewrite Nat.eqb_refl.
Qed.

Lemma broadcast_shapes_same (s : list nat) : broadcast_shapes s s = Ok s.
Proof.
  unfold broadcast_shapes. rewrite broadcast_rev_same; simpl.
  now rewrite rev_involutive.
Qed.

Lemma broadcast_shapes_3_2 (B T C : nat) :
  broadcast_shapes [B; T; C] [T; C] = Ok [B; T; C].
Proof.
  unfold broadcast_shapes; simpl. now rewrite !Nat.eqb_refl.
Qed.

Lemma bc_ix_same3 (B T C b t c : nat) :
  (b < B)%nat -> (t < T)%nat -> (c < C)%nat ->
  bc_ix [B; T; C] [b; t; c] = [b; t; c].
Proof.
  intros Hb Ht Hc; unfold bc_ix; simpl.
  destruct (Nat.eqb_spec B 1), (Nat.eqb_spec T 1), (Nat.eqb_spec C 1);
    repeat f_equal; lia.
Qed.

Lemma bc_ix_3_2 (T C b t c : nat) :
  (t < T)%nat -> (c < C)%nat -> bc_ix [T; C] [b; t; c] = [t; c].
Proof.
  intros Ht Hc; unfold bc_ix; simpl.
  destruct (Nat.eqb_spec T 1), (Nat.eqb_spec C 1); repeat f_equal; lia.
Qed.

Lemma bc_ix_2_3 (T b i j : nat) :
  (i < T)%nat -> (j < T)%nat -> bc_ix [T; T] [b; i; j] = [i; j].
Proof. intros; now apply bc_ix_3_2. Qed.

Lemma tadd_same3 (x y : Tensor R) (B T C : nat) :
  shape x = [B; T; C] -> shape y = [B; T; C] ->
  exists z, tadd x y = Ok z /\ shape z = [B; T; C] /\
    forall b t c, (b < B)%nat -> (t < T)%nat -> (c < C)%nat ->
      z.[[b; t; c]] = x.[[b; t; c]] + y.[[b; t; c]].
Proof.
  intros Hx Hy. unfold tadd. rewrite Hx, Hy, broadcast_shapes_same; simpl.
  eexists; split; [reflexivity|]; split; [reflexivity|].
  intros b t c Hb Ht Hc; simpl. now rewrite bc_ix_same3.
Qed.

Lemma tadd_3_2 (x y : Tensor R) (B T C : nat) :
  shape x = [B; T; C] -> shape y = [T; C] ->
  exists z, tadd x y = Ok z /\ shape z = [B; T; C] /\
    forall b t c, (b < B)%nat -> (t < T)%nat -> (c < C)%nat ->
      z.[[b; t; c]] = x.[[b; t; c]] + y.[[t; c]].
Proof.
  intros Hx Hy. unfold tadd. rewrite Hx, Hy, broadcast_shapes_3_2; simpl.
  eexists; split; [reflexivity|]; split; [reflexivity|].
  intros b t c Hb Ht Hc; simpl. now rewrite bc_ix_same3, bc_ix_3_2.
Qed.

(** The bias a linear layer adds to channel [c]. *)
Lemma Linear_forward_3 (l : Linear) (x : Tensor R) (i o : nat) (wb : bool)
  (B T : nat) :
  wf_Linear i o wb l -> shape x = [B; T; i] ->
  exists y, Linear_forward l x = Ok y /\ shape y = [B; T; o] /\
    forall b t c,
      y.[[b; t; c]] =
      Rsum i (fun k => x.[[b; t; k]] * (weight l).[[c; k]])
      + match bias l with Some bt => bt.[[c]] | None => 0 end.
Proof.
  intros [HW Hb] Hx. unfold Linear_forward. rewrite HW, Hx; simpl.
  rewrite Nat.eqb_refl. destruct (bias l) as [bt|].
  - destruct Hb as [_ Hs]. rewrite Hs; simpl. rewrite Nat.eqb_refl; simpl.
    eexists; split; [reflexivity|]; split; [reflexivity|].
    intros; reflexivity.
  - eexists; split; [reflexivity|]; split; [reflexivity|].
    intros; simpl. unfold ix_init, ix_last; simpl. lra.
Qed.

Lemma transpose_last2_3 {A} (x : Tensor A) (B T C : nat) :
  shape x = [B; T; C] ->
  exists y, transpose_last2 x = Ok y /\ shape y = [B; C; T] /\
    forall b c t, y.[[b; c; t]] = x.[[b; t; c]].
Proof.
  intros Hx. unfold transpose_last2. rewrite Hx; simpl.
  eexists; split; [reflexivity|]; split; [reflexivity|].
  intros; reflexivity.
Qed.

Lemma matmul_3 (a b : Tensor R) (B n m p : nat) :
  shape a = [B; n; m] -> shape b = [B; m; p] ->
  exists y, matmul a b = Ok y /\ shape y = [B; n; p] /\
    forall bi i j,
      y.[[bi; i; j]] = Rsum m (fun k => a.[[bi; i; k]] * b.[[bi; k; j]]).
Proof.
  intros Ha Hb. unfold matmul. rewrite Ha, Hb; simpl.
  rewrite !Nat.eqb_refl; simpl.
  eexists; split; [reflexivity|]; split; [reflexivity|].
  intros; reflexivity.
Qed.

Lemma slice2_tril (t : Tensor R) (n T : nat) :
  is_tril n t -> (T <= n)%nat ->
  exists mask, slice2 t T T = Ok mask /\ shape mask = [T; T] /\
    forall i j, (i < T)%nat -> (j < T)%nat ->
      (teq0 mask).[[i; j]] = (i <? j)%nat.
Proof.
  intros [Hs Hv] HT. unfold slice2. rewrite Hs.
  eexists; split; [reflexivity|]; split.
  - simpl. now rewrite !Nat.min_l.
  - intros i j Hi Hj; simpl. rewrite Hv by lia.
    destruct (Nat.leb_spec j i), (Nat.ltb_spec i j); try lia.
    + destruct (Req_dec_T 1 0); [lra | reflexivity].
    + destruct (Req_dec_T 0 0); [reflexivity | lra].
Qed.

Lemma masked_fill_3_2 (w : Tensor R) (mask : Tensor bool) (v : xreal) (B T : nat) :
  shape w = [B; T; T] -> shape mask = [T; T] ->
  exists y, masked_fill w mask v = Ok y /\ shape y = [B; T; T] /\
    forall b i j, (i < T)%nat -> (j < T)%nat ->
      y.[[b; i; j]] = if mask.[[i; j]] then v else Fin w.[[b; i; j]].
Proof.
  intros Hw Hm. unfold masked_fill. rewrite Hw, Hm, broadcast_shapes_3_2; simpl.
  rewrite !Nat.eqb_refl; simpl.
  eexists; split; [reflexivity|]; split; [reflexivity|].
  intros b i j Hi Hj; simpl. now rewrite bc_ix_2_3.
Qed.

Lemma pow_neg_half_pos (n : nat) :
  (1 <= n)%nat -> pow_neg_half n = Ok (/ sqrt (INR n)).
Proof.
  intros Hn. unfold pow_neg_half.
  destruct (Nat.eqb_spec n 0) as [->|_]; [lia|].
  assert (Hpos : 0 < INR n) by (apply lt_0_INR; lia).
  rewrite Rpower_Ropp. replace (1 / 2) with (/ 2) by lra.
  now rewrite Rpower_sqrt.
Qed.

Lemma F_softmax_3 (w : Tensor xreal) (B T C : nat) :
  shape w = [B; T; C] ->
  shape (F_softmax w) = [B; T; C] /\
  forall b i j,
    (F_softmax w).[[b; i; j]] =
    xexp w.[[b; i; j]] / Rsum C (fun j' => xexp w.[[b; i; j']]).
Proof.
  intros Hw; split; [exact Hw|].
  intros b i j; unfold F_softmax; simpl. now rewrite Hw.
Qed.

Section DropoutFacts.
Context {TR : TorchRandom}.

Lemma Dropout_forward_eval (d : Dropout) (x : Tensor R) :
  training d = false -> Dropout_forward d x = ret x.
Proof. intros H; unfold Dropout_forward; now rewrite H. Qed.

Lemma Dropout_forward_shape (d : Dropout) (x : Tensor R) g :
  returns (Dropout_forward d x) g (fun y _ => shape y = shape x).
Proof.
  unfold Dropout_forward, returns.
  destruct (training d); [|reflexivity].
  destruct (Req_dec_T (drop_p d) 0); [reflexivity|].
  destruct (numel (shape x) =? 0)%nat; [reflexivity|].
  destruct (Req_dec_T (drop_p d) 1); [reflexivity|].
  unfold bind, draw. destruct (sample g _ _); reflexivity.
Qed.
End DropoutFacts.

(** ** The attention head *)

Section HeadFacts.
Context {TR : TorchRandom}.
Variable hp : HP.t.

(** In either mode a head maps [(B, T, n_embed)] to [(B, T, head_size)]. *)
Lemma Head_forward_shape (h : Head.t) (x : Tensor R) (hs B T : nat) g :
  wf_Head hp hs h -> (1 <= hs)%nat ->
  shape x = [B; T; HP.n_embed hp] -> (T <= HP.block_size hp)%nat ->
  returns (Head.forward h x) g (fun y _ => shape y = [B; T; hs]).
Proof.
  intros (Hk & Hq & Hv & Ht) Hhs Hx HT.
  destruct (Linear_forward_3 _ _ _ _ _ B T Hk Hx) as (k & Ek & Sk & _).
  destruct (Linear_forward_3 _ _ _ _ _ B T Hq Hx) as (q & Eq & Sq & _).
  destruct (Linear_forward_3 _ _ _ _ _ B T Hv Hx) as (v & Ev & Sv & _).
  destruct (transpose_last2_3 _ _ _ _ Sk) as (kT & EkT & SkT & _).
  destruct (matmul_3 _ _ _ _ _ _ Sq SkT) as (qk & Eqk & Sqk & _).
  destruct (slice2_tril _ _ _ Ht HT) as (mask & Em & Sm & _).
  assert (Sw : shape (tscale qk (/ sqrt (INR hs))) = [B; T; T]) by exact Sqk.
  destruct (masked_fill_3_2 _ (teq0 mask) NegInf _ _ Sw Sm) as (w & Ew & Sw' & _).
  destruct (F_softmax_3 _ _ _ _ Sw') as (Ss & _).
  unfold Head.forward, returns, bind, lift.
  rewrite Hx; cbn [unpack3].
  rewrite Ek, Eq, EkT, Eqk, Sk; cbn [last].
  rewrite (pow_neg_half_pos _ Hhs), Em, Ew.
  pose proof (Dropout_forward_shape (Head.dropout h) (F_softmax w) g) as Hd.
  unfold returns in Hd.
  destruct (Dropout_forward (Head.dropout h) (F_softmax w) g) as [[wd g']|e];
    [|contradiction].
  rewrite Ss in Hd. rewrite Ev.
  destruct (matmul_3 _ _ _ _ _ _ Hd Sv) as (y & Ey & Sy & _).
  now rewrite Ey.
Qed.

(** A head without channels fails on [0 ** -0.5]. *)
Lemma Head_forward_no_channel (h : Head.t) (x : Tensor R) (B T : nat) g :
  wf_Head hp 0 h -> shape x = [B; T; HP.n_embed hp] ->
  Head.forward h x g = Err ZeroDivisionError.
Proof.
  intros (Hk & Hq & _) Hx.
  destruct (Linear_forward_3 _ _ _ _ _ B T Hk Hx) as (k & Ek & Sk & _).
  destruct (Linear_forward_3 _ _ _ _ _ B T Hq Hx) as (q & Eq & Sq & _).
  destruct (transpose_last2_3 _ _ _ _ Sk) as (kT & EkT & SkT & _).
  destruct (matmul_3 _ _ _ _ _ _ Sq SkT) as (qk & Eqk & _).
  unfold Head.forward, bind, lift.
  rewrite Hx; cbn [unpack3]. now rewrite Ek, Eq, EkT, Eqk, Sk.
Qed.

(** With dropout disabled the head computes the attention of the
    specification and leaves the generator alone. *)
Lemma Head_forward_eval (h : Head.t) (x : Tensor R) (hs B T : nat) g :
  wf_Head hp hs h -> (1 <= hs)%nat -> eval_Head h ->
  shape x = [B; T; HP.n_embed hp] -> (T <= HP.block_size hp)%nat ->
  exists y, Head.forward h x g = Ok (y, g) /\ shape y = [B; T; hs] /\
    forall b i c, (i < T)%nat ->
      y.[[b; i; c]] = spec_out h x (HP.n_embed hp) hs T b i c.
Proof.
  intros (Hk & Hq & Hv & Ht) Hhs Hev Hx HT.
  destruct (Linear_forward_3 _ _ _ _ _ B T Hk Hx) as (k & Ek & Sk & Vk).
  destruct (Linear_forward_3 _ _ _ _ _ B T Hq Hx) as (q & Eq & Sq & Vq).
  destruct (Linear_forward_3 _ _ _ _ _ B T Hv Hx) as (v & Ev & Sv & Vv).
  destruct (transpose_last2_3 _ _ _ _ Sk) as (kT & EkT & SkT & VkT).
  destruct (matmul_3 _ _ _ _ _ _ Sq SkT) as (qk & Eqk & Sqk & Vqk).
  destruct (slice2_tril _ _ _ Ht HT) as (mask & Em & Sm & Vm).
  assert (Sw : shape (tscale qk (/ sqrt (INR hs))) = [B; T; T]) by exact Sqk.
  destruct (masked_fill_3_2 _ (teq0 mask) NegInf _ _ Sw Sm) as (w & Ew & Sw' & Vw).
  destruct (F_softmax_3 _ _ _ _ Sw') as (Ss & Vs).
  destruct (matmul_3 _ _ _ _ _ _ Ss Sv) as (y & Ey & Sy & Vy).
  exists y; split; [|split; [exact Sy|]].
  - unfold Head.forward, bind, lift.
    rewrite Hx; cbn [unpack3].
    rewrite Ek, Eq, EkT, Eqk, Sk; cbn [last].
    rewrite (pow_neg_half_pos _ Hhs), Em, Ew.
    rewrite (Dropout_forward_eval _ _ Hev); unfold ret.
    now rewrite Ev, Ey.
  - assert (Hbias : forall l, wf_Linear (HP.n_embed hp) hs false l -> bias l = None).
    { intros l [_ Hb]. destruct (bias l); [destruct Hb; discriminate | reflexivity]. }
    assert (Hm : forall b i j, (i < T)%nat -> (j < T)%nat ->
              w.[[b; i; j]] = spec_scores h x (HP.n_embed hp) hs b i j).
    { intros b i j Hi Hj. rewrite Vw, Vm by assumption.
      unfold spec_scores. destruct (i <? j)%nat; [reflexivity|].
      f_equal. unfold tscale; simpl. rewrite Vqk. unfold Rdiv. f_equal.
      apply Rsum_ext; intros c _. rewrite VkT, Vq, Vk.
      rewrite (Hbias _ Hk), (Hbias _ Hq).
      unfold spec_q, spec_k, spec_linear. lra. }
    intros b i c Hi. rewrite Vy. unfold spec_out.
    apply Rsum_ext; intros j Hj. f_equal.
    + rewrite Vs. unfold spec_probs. rewrite Hm by assumption. f_equal.
      apply Rsum_ext; intros j' Hj'. now rewrite Hm.
    + rewrite Vv, (Hbias _ Hv). unfold spec_v, spec_linear. lra.
Qed.
End HeadFacts.

(** ** Operations on two inputs that agree on a prefix of the time axis *)

Lemma agree_upto_3 {A} (i : nat) (x x' : Tensor A) (B T C : nat) :
  shape x = [B; T; C] ->
  (agree_upto i x x' <->
   forall b t c, (b < B)%nat -> (t < T)%nat -> (c < C)%nat -> (t <= i)%nat ->
     x.[[b; t; c]] = x'.[[b; t; c]]).
Proof.
  intros Hx; unfold agree_upto; rewrite Hx; split.
  - intros H b t c Hb Ht Hc Hi. apply H; [apply valid_ix3|]; auto.
  - intros H b t c Hv Hi. apply valid_ix3 in Hv as (? & ? & ?). now apply H.
Qed.

Lemma Linear_forward_2 (l : Linear) (x x' : Tensor R) (i o : nat) (wb : bool)
  (B T : nat) :
  wf_Linear i o wb l -> shape x = [B; T; i] -> shape x' = [B; T; i] ->
  exists y y', Linear_forward l x = Ok y /\ Linear_forward l x' = Ok y' /\
    shape y = [B; T; o] /\ shape y' = [B; T; o] /\
    forall n, agree_upto n x x' -> agree_upto n y y'.
Proof.
  intros Hl Hx Hx'.
  destruct (Linear_forward_3 _ _ _ _ _ B T Hl Hx) as (y & Ey & Sy & Vy).
  destruct (Linear_forward_3 _ _ _ _ _ B T Hl Hx') as (y' & Ey' & Sy' & Vy').
  exists y, y'; repeat split; auto.
  intros n Hag. rewrite (agree_upto_3 _ _ _ _ _ _ Hx) in Hag.
  apply (agree_upto_3 _ _ _ _ _ _ Sy). intros b t c Hb Ht Hc Hn.
  rewrite Vy, Vy'. f_equal. apply Rsum_ext; intros k Hk.
  now rewrite Hag.
Qed.

Lemma tadd_same3_2 (x y x' y' : Tensor R) (B T C : nat) :
  shape x = [B; T; C] -> shape y = [B; T; C] ->
  shape x' = [B; T; C] -> shape y' = [B; T; C] ->
  exists z z', tadd x y = Ok z /\ tadd x' y' = Ok z' /\
    shape z = [B; T; C] /\ shape z' = [B; T; C] /\
    forall n, agree_upto n x x' -> agree_upto n y y' -> agree_upto n z z'.
Proof.
  intros Hx Hy Hx' Hy'.
  destruct (tadd_same3 _ _ _ _ _ Hx Hy) as (z & Ez & Sz & Vz).
  destruct (tadd_same3 _ _ _ _ _ Hx' Hy') as (z' & Ez' & Sz' & Vz').
  exists z, z'; repeat split; auto.
  intros n Hax Hay.
  rewrite (agree_upto_3 _ _ _ _ _ _ Hx) in Hax.
  rewrite (agree_upto_3 _ _ _ _ _ _ Hy) in Hay.
  apply (agree_upto_3 _ _ _ _ _ _ Sz). intros b t c Hb Ht Hc Hn.
  rewrite Vz, Vz', Hax, Hay by assumption. reflexivity.
Qed.

Lemma LayerNorm_forward_3 (l : LayerNorm) (x : Tensor R) (B T d : nat) :
  wf_LayerNorm d l -> shape x = [B; T; d] ->
  exists y, LayerNorm_forward l x = Ok y /\ shape y = [B; T; d] /\
    forall b t c, y.[[b; t; c]] = layer_norm_at l x [b; t; c].
Proof.
  intros (Hn & Hw & Hb) Hx. unfold LayerNorm_forward.
  rewrite Hx, Hn, Hw, Hb; simpl. rewrite !Nat.eqb_refl; simpl.
  eexists; split; [reflexivity|]; split; [reflexivity|].
  intros; reflexivity.
Qed.

Lemma LayerNorm_forward_2 (l : LayerNorm) (x x' : Tensor R) (B T d : nat) :
  wf_LayerNorm d l -> shape x = [B; T; d] -> shape x' = [B; T; d] ->
  exists y y', LayerNorm_forward l x = Ok y /\ LayerNorm_forward l x' = Ok y' /\
    shape y = [B; T; d] /\ shape y' = [B; T; d] /\
    forall n, agree_upto n x x' -> agree_upto n y y'.
Proof.
  intros Hl Hx Hx'.
  destruct (LayerNorm_forward_3 _ _ _ _ _ Hl Hx) as (y & Ey & Sy & Vy).
  destruct (LayerNorm_forward_3 _ _ _ _ _ Hl Hx') as (y' & Ey' & Sy' & Vy').
  exists y, y'; repeat split; auto.
  intros n Hag. rewrite (agree_upto_3 _ _ _ _ _ _ Hx) in Hag.
  apply (agree_upto_3 _ _ _ _ _ _ Sy). intros b t c Hb Ht Hc Hn.
  rewrite Vy, Vy'. unfold layer_norm_at.
  destruct Hl as (Hd & _). rewrite Hd.
  unfold ix_init, ix_last; simpl.
  assert (Hrow : forall j, (j < d)%nat -> x.[[b; t; j]] = x'.[[b; t; j]])
    by (intros; now apply Hag).
  assert (Hmean : Rsum d (fun j => x.[[b; t; j]]) = Rsum d (fun j => x'.[[b; t; j]]))
    by (apply Rsum_ext; exact Hrow).
  rewrite Hmean, (Hrow c Hc). do 3 f_equal. f_equal. f_equal. f_equal.
  apply Rsum_ext; intros j Hj. now rewrite (Hrow j Hj).
Qed.

Lemma F_relu_2 (x x' : Tensor R) :
  shape (F_relu x) = shape x /\
  forall n, agree_upto n x x' -> agree_upto n (F_relu x) (F_relu x').
Proof.
  split; [reflexivity|].
  intros n H b t c Hv Hn. unfold F_relu, tmap; simpl.
  f_equal. now apply H.
Qed.

Lemma shape_eqb_refl (s : list nat) : shape_eqb s s = true.
Proof.
  induction s as [|d s IH]; simpl; [reflexivity|].
  now rewrite Nat.eqb_refl, IH.
Qed.

Lemma shape_eqb_eq (s s' : list nat) : shape_eqb s s' = true -> s = s'.
Proof.
  revert s'; induction s as [|d s IH]; intros [|d' s']; simpl; try discriminate.
  - reflexivity.
  - intros H. apply andb_prop in H as [H1 H2].
    apply Nat.eqb_eq in H1. f_equal; auto.
Qed.

Lemma cat_cols (ts : list (Tensor R)) (B T hs : nat) :
  Forall (has_shape [B; T; hs]) ts ->
  forallb (same_lead [B; T]) ts = true /\
  fold_right (fun t acc => (last (shape t) 0 + acc)%nat) 0%nat ts
  = (hs * length ts)%nat.
Proof.
  induction 1 as [|t ts Ht _ [IH1 IH2]]; simpl; [split; [reflexivity | lia]|].
  red in Ht. unfold same_lead at 1. rewrite !Ht; simpl.
  rewrite !Nat.eqb_refl; simpl.
  rewrite IH1, IH2; split; [reflexivity | lia].
Qed.

Lemma cat_last_at_agree (n B T hs : nat) (ts ts' : list (Tensor R)) :
  Forall (has_shape [B; T; hs]) ts -> Forall (has_shape [B; T; hs]) ts' ->
  Forall2 (agree_upto n) ts ts' ->
  forall b t c, (b < B)%nat -> (t < T)%nat -> (t <= n)%nat ->
    cat_last_at ts [b; t] c = cat_last_at ts' [b; t] c.
Proof.
  intros Hs Hs' Hag; revert Hs Hs'.
  induction Hag as [|x x' ts ts' Hx _ IH]; intros Hs Hs' b t c Hb Ht Hn;
    [reflexivity|].
  inversion Hs as [|? ? Sx Sr]; inversion Hs' as [|? ? Sx' Sr']; subst.
  red in Sx, Sx'. simpl. rewrite !Sx, !Sx'; simpl.
  destruct (Nat.ltb_spec c hs) as [Hc|Hc].
  - apply Hx; [rewrite Sx; apply valid_ix3|]; auto.
  - now apply IH.
Qed.

Lemma torch_cat_last_2 (ts ts' : list (Tensor R)) (B T hs : nat) :
  ts <> [] -> length ts' = length ts ->
  Forall (has_shape [B; T; hs]) ts -> Forall (has_shape [B; T; hs]) ts' ->
  exists y y', torch_cat_last ts = Ok y /\ torch_cat_last ts' = Ok y' /\
    shape y = [B; T; (hs * length ts)%nat] /\
    shape y' = [B; T; (hs * length ts)%nat] /\
    forall n, Forall2 (agree_upto n) ts ts' -> agree_upto n y y'.
Proof.
  intros Hne Hlen Hs Hs'.
  destruct (cat_cols _ _ _ _ Hs) as [F1 C1].
  destruct (cat_cols _ _ _ _ Hs') as [F1' C1'].
  destruct ts as [|t0 ts]; [congruence|].
  destruct ts' as [|t0' ts']; [discriminate|].
  assert (S0 : shape t0 = [B; T; hs]) by (inversion Hs; assumption).
  assert (S0' : shape t0' = [B; T; hs]) by (inversion Hs'; assumption).
  unfold torch_cat_last. rewrite S0, S0'.
  change (removelast [B; T; hs]) with [B; T].
  rewrite F1, F1', C1, C1', Hlen.
  eexists; eexists; split; [reflexivity|]; split; [reflexivity|].
  split; [reflexivity|]; split; [reflexivity|].
  intros n Hag b t c Hv Hn. simpl in Hv. apply valid_ix3 in Hv as (Hb & Ht & _).
  change ((mkTensor [B; T; (hs * length (t0 :: ts))%nat]
             (fun ix => cat_last_at (t0 :: ts) (ix_init ix) (ix_last ix))).[[b; t; c]])
    with (cat_last_at (t0 :: ts) [b; t] c).
  change ((mkTensor [B; T; (hs * length (t0 :: ts))%nat]
             (fun ix => cat_last_at (t0' :: ts') (ix_init ix) (ix_last ix))).[[b; t; c]])
    with (cat_last_at (t0' :: ts') [b; t] c).
  now apply (cat_last_at_agree n B T hs).
Qed.

(** ** Causality of one head *)

Section HeadCausal.
Context {TR : TorchRandom}.
Variable hp : HP.t.

Lemma spec_linear_agree (W x x' : Tensor R) (n B T i b t c : nat) :
  shape x = [B; T; n] -> agree_upto i x x' ->
  (b < B)%nat -> (t < T)%nat -> (t <= i)%nat ->
  spec_linear x n W b t c = spec_linear x' n W b t c.
Proof.
  intros Hx Hag Hb Ht Hi. rewrite (agree_upto_3 _ _ _ _ _ _ Hx) in Hag.
  unfold spec_linear. apply Rsum_ext; intros e He. now rewrite Hag.
Qed.

Lemma spec_scores_agree (h : Head.t) (x x' : Tensor R) (n hs B T i b t j : nat) :
  shape x = [B; T; n] -> agree_upto i x x' ->
  (b < B)%nat -> (t < T)%nat -> (j < T)%nat -> (t <= i)%nat ->
  spec_scores h x n hs b t j = spec_scores h x' n hs b t j.
Proof.
  intros Hx Hag Hb Ht Hj Hi. unfold spec_scores.
  destruct (Nat.ltb_spec t j) as [Hlt|Hle]; [reflexivity|].
  do 2 f_equal. apply Rsum_ext; intros c _.
  unfold spec_q, spec_k.
  rewrite (spec_linear_agree _ x x' n B T i b t c Hx Hag) by assumption.
  rewrite (spec_linear_agree _ x x' n B T i b j c Hx Hag) by (assumption || lia).
  reflexivity.
Qed.

(** A position gives no weight to a later one. *)
Lemma spec_probs_future (h : Head.t) (x : Tensor R) (n hs T b t j : nat) :
  (t < j)%nat -> spec_probs h x n hs T b t j = 0.
Proof.
  intros Hlt. unfold spec_probs, spec_scores.
  destruct (Nat.ltb_spec t j) as [_|Hle]; [|lia].
  simpl. unfold Rdiv. apply Rmult_0_l.
Qed.

Lemma spec_out_agree (h : Head.t) (x x' : Tensor R) (n hs B T i b t c : nat) :
  shape x = [B; T; n] -> agree_upto i x x' ->
  (b < B)%nat -> (t < T)%nat -> (t <= i)%nat ->
  spec_out h x n hs T b t c = spec_out h x' n hs T b t c.
Proof.
  intros Hx Hag Hb Ht Hi. unfold spec_out.
  apply Rsum_ext; intros j Hj.
  destruct (Nat.lt_ge_cases t j) as [Hlt|Hle].
  - rewrite !spec_probs_future by assumption. lra.
  - f_equal.
    + unfold spec_probs.
      rewrite (spec_scores_agree h x x' n hs B T i b t j Hx Hag) by assumption.
      f_equal. apply Rsum_ext; intros j' Hj'.
      now rewrite (spec_scores_agree h x x' n hs B T i b t j' Hx Hag).
    + unfold spec_v.
      apply (spec_linear_agree _ x x' n B T i b j c Hx Hag); assumption || lia.
Qed.

Lemma Head_forward_2 (h : Head.t) (x x' : Tensor R) (hs B T : nat) g g' :
  wf_Head hp hs h -> (1 <= hs)%nat ->
  shape x = [B; T; HP.n_embed hp] -> shape x' = [B; T; HP.n_embed hp] ->
  (T <= HP.block_size hp)%nat ->
  exists y y' g1 g1',
    Head.forward h x g = Ok (y, g1) /\ Head.forward h x' g' = Ok (y', g1') /\
    has_shape [B; T; hs] y /\ has_shape [B; T; hs] y' /\
    (eval_Head h ->
     g1 = g /\ g1' = g' /\ forall n, agree_upto n x x' -> agree_upto n y y').
Proof.
  intros Hh Hhs Hx Hx' HT.
  destruct (returns_inv _ _ _ (Head_forward_shape hp h x hs B T g Hh Hhs Hx HT))
    as (y & g1 & E & S).
  destruct (returns_inv _ _ _ (Head_forward_shape hp h x' hs B T g' Hh Hhs Hx' HT))
    as (y' & g1' & E' & S').
  exists y, y', g1, g1'; repeat split; auto.
  - destruct (Head_forward_eval hp h x hs B T g Hh Hhs H Hx HT) as (y0 & E0 & _).
    congruence.
  - destruct (Head_forward_eval hp h x' hs B T g' Hh Hhs H Hx' HT) as (y0 & E0 & _).
    congruence.
  - intros n Hag.
    destruct (Head_forward_eval hp h x hs B T g Hh Hhs H Hx HT) as (y0 & E0 & _ & V0).
    destruct (Head_forward_eval hp h x' hs B T g' Hh Hhs H Hx' HT)
      as (y0' & E0' & _ & V0').
    assert (y0 = y) by congruence. assert (y0' = y') by congruence. subst y0 y0'.
    apply (agree_upto_3 _ _ _ _ _ _ S). intros b t c Hb Ht Hc Hn.
    rewrite V0, V0' by assumption.
    now apply (spec_out_agree h x x' _ hs B T n).
Qed.

Lemma mapM_heads_2 (hs_ : list Head.t) (x x' : Tensor R) (hs B T : nat) g g' :
  Forall (wf_Head hp hs) hs_ -> (1 <= hs)%nat ->
  shape x = [B; T; HP.n_embed hp] -> shape x' = [B; T; HP.n_embed hp] ->
  (T <= HP.block_size hp)%nat ->
  exists ys ys' g1 g1',
    mapM (fun h => Head.forward h x) hs_ g = Ok (ys, g1) /\
    mapM (fun h => Head.forward h x') hs_ g' = Ok (ys', g1') /\
    length ys = length hs_ /\ length ys' = length hs_ /\
    Forall (has_shape [B; T; hs]) ys /\ Forall (has_shape [B; T; hs]) ys' /\
    (Forall eval_Head hs_ ->
     g1 = g /\ g1' = g' /\
     forall n, agree_upto n x x' -> Forall2 (agree_upto n) ys ys').
Proof.
  intros Hwf Hhs Hx Hx' HT; revert g g'.
  induction Hwf as [|h l Hh _ IH]; intros g g'.
  - exists [], [], g, g'; simpl; unfold ret; repeat split; auto.
  - destruct (Head_forward_2 h x x' hs B T g g' Hh Hhs Hx Hx' HT)
      as (y & y' & g1 & g1' & E & E' & S & S' & Hev).
    destruct (IH g1 g1') as (ys & ys' & g2 & g2' & F & F' & L & L' & Ss & Ss' & Hevs).
    exists (y :: ys), (y' :: ys'), g2, g2'.
    cbn [mapM]; unfold bind, ret. rewrite E, E', F, F'.
    repeat split; simpl; auto.
    + inversion H as [|? ? H1 H2]; subst.
      destruct (Hev H1) as (-> & _ & _). now destruct (Hevs H2) as (-> & _ & _).
    + inversion H as [|? ? H1 H2]; subst.
      destruct (Hev H1) as (_ & -> & _). now destruct (Hevs H2) as (_ & -> & _).
    + intros n Hag. inversion H as [|? ? H1 H2]; subst.
      destruct (Hev H1) as (_ & _ & A1). destruct (Hevs H2) as (_ & _ & A2).
      constructor; auto.
Qed.
End HeadCausal.

(** ** Multi-head attention, feed-forward and block *)

Section BlockFacts.
Context {TR : TorchRandom}.
Variable hp : HP.t.

Lemma Dropout_forward_2 (d : Dropout) (x x' : Tensor R) g g' :
  exists y y' g1 g1',
    Dropout_forward d x g = Ok (y, g1) /\ Dropout_forward d x' g' = Ok (y', g1') /\
    shape y = shape x /\ shape y' = shape x' /\
    (training d = false -> g1 = g /\ g1' = g' /\ y = x /\ y' = x').
Proof.
  destruct (returns_inv _ _ _ (Dropout_forward_shape d x g)) as (y & g1 & E & S).
  destruct (returns_inv _ _ _ (Dropout_forward_shape d x' g')) as (y' & g1' & E' & S').
  exists y, y', g1, g1'; split; [exact E|]; split; [exact E'|].
  split; [exact S|]; split; [exact S'|]. intros H.
  rewrite (Dropout_forward_eval d x H) in E.
  rewrite (Dropout_forward_eval d x' H) in E'.
  unfold ret in E, E'. inversion E; inversion E'; subst; auto.
Qed.

Lemma MultiHeadAttention_forward_2 (m : MultiHeadAttention.t) (x x' : Tensor R)
  (nh hs B T : nat) g g' :
  wf_MultiHeadAttention hp nh hs m -> (1 <= hs)%nat -> (1 <= nh)%nat ->
  shape x = [B; T; HP.n_embed hp] -> shape x' = [B; T; HP.n_embed hp] ->
  (T <= HP.block_size hp)%nat ->
  exists y y' g1 g1',
    MultiHeadAttention.forward m x g = Ok (y, g1) /\
    MultiHeadAttention.forward m x' g' = Ok (y', g1') /\
    shape y = [B; T; HP.n_embed hp] /\ shape y' = [B; T; HP.n_embed hp] /\
    (eval_MultiHeadAttention m ->
     g1 = g /\ g1' = g' /\ forall n, agree_upto n x x' -> agree_upto n y y').
Proof.
  intros (Hlen & Hheads & Hproj) Hhs Hnh Hx Hx' HT.
  destruct (mapM_heads_2 hp _ x x' hs B T g g' Hheads Hhs Hx Hx' HT)
    as (ys & ys' & g1 & g1' & E & E' & L & L' & Ss & Ss' & Hev).
  assert (Hne : ys <> []) by (destruct ys; [simpl in L; lia | discriminate]).
  destruct (torch_cat_last_2 ys ys' B T hs Hne ltac:(congruence) Ss Ss')
    as (c & c' & Ec & Ec' & Sc & Sc' & Hc).
  rewrite L, Hlen in Sc, Sc'.
  destruct (Linear_forward_2 _ c c' _ _ _ B T Hproj Sc Sc')
    as (p & p' & Ep & Ep' & Sp & Sp' & Hp).
  destruct (Dropout_forward_2 (MultiHeadAttention.dropout m) p p' g1 g1')
    as (y & y' & g2 & g2' & Ed & Ed' & Sd & Sd' & Hd).
  exists y, y', g2, g2'.
  unfold MultiHeadAttention.forward, bind, lift.
  rewrite E, E', Ec, Ec', Ep, Ep', Ed, Ed'.
  repeat split; try congruence.
  - destruct H as [H1 H2]. destruct (Hev H1) as (-> & _). now destruct (Hd H2) as (-> & _).
  - destruct H as [H1 H2]. destruct (Hev H1) as (_ & -> & _).
    now destruct (Hd H2) as (_ & -> & _).
  - intros n Hag. destruct H as [H1 H2].
    destruct (Hev H1) as (_ & _ & A). destruct (Hd H2) as (_ & _ & -> & ->).
    auto.
Qed.

Lemma FeedForward_forward_2 (f : FeedForward.t) (x x' : Tensor R) (B T : nat) g g' :
  wf_FeedForward (HP.n_embed hp) f ->
  shape x = [B; T; HP.n_embed hp] -> shape x' = [B; T; HP.n_embed hp] ->
  exists y y' g1 g1',
    FeedForward.forward f x g = Ok (y, g1) /\
    FeedForward.forward f x' g' = Ok (y', g1') /\
    shape y = [B; T; HP.n_embed hp] /\ shape y' = [B; T; HP.n_embed hp] /\
    (training (FeedForward.net_3 f) = false ->
     g1 = g /\ g1' = g' /\ forall n, agree_upto n x x' -> agree_upto n y y').
Proof.
  intros (H0 & H2) Hx Hx'.
  destruct (Linear_forward_2 _ x x' _ _ _ B T H0 Hx Hx')
    as (a & a' & Ea & Ea' & Sa & Sa' & Ha).
  destruct (F_relu_2 a a') as (Sr & Hr).
  destruct (F_relu_2 a' a) as (Sr' & _).
  rewrite Sa in Sr. rewrite Sa' in Sr'.
  destruct (Linear_forward_2 _ (F_relu a) (F_relu a') _ _ _ B T H2 Sr Sr')
    as (c & c' & Ec & Ec' & Sc & Sc' & Hc).
  destruct (Dropout_forward_2 (FeedForward.net_3 f) c c' g g')
    as (y & y' & g1 & g1' & Ed & Ed' & Sd & Sd' & Hd).
  exists y, y', g1, g1'.
  unfold FeedForward.forward, bind, lift.
  rewrite Ea, Ea', Ec, Ec', Ed, Ed'.
  repeat split; try congruence.
  - now destruct (Hd H) as (-> & _).
  - now destruct (Hd H) as (_ & -> & _).
  - intros n Hag. destruct (Hd H) as (_ & _ & -> & ->). auto.
Qed.

Lemma Block_forward_2 (b : Block.t) (x x' : Tensor R) (B T : nat) g g' :
  wf_Block hp b -> (1 <= head_size hp)%nat ->
  shape x = [B; T; HP.n_embed hp] -> shape x' = [B; T; HP.n_embed hp] ->
  (T <= HP.block_size hp)%nat ->
  exists y y' g1 g1',
    Block.forward b x g = Ok (y, g1) /\ Block.forward b x' g' = Ok (y', g1') /\
    shape y = [B; T; HP.n_embed hp] /\ shape y' = [B; T; HP.n_embed hp] /\
    (eval_Block b ->
     g1 = g /\ g1' = g' /\ forall n, agree_upto n x x' -> agree_upto n y y').
Proof.
  intros (Hsa & Hff & Hl1 & Hl2) Hhs Hx Hx' HT.
  assert (Hnh : (1 <= HP.n_head hp)%nat).
  { unfold head_size in Hhs. destruct (HP.n_head hp); [simpl in Hhs; lia | lia]. }
  destruct (MultiHeadAttention_forward_2 _ x x' _ _ B T g g' Hsa Hhs Hnh Hx Hx' HT)
    as (a & a' & g1 & g1' & Ea & Ea' & Sa & Sa' & Hev1).
  destruct (tadd_same3_2 x a x' a' B T _ Hx Sa Hx' Sa')
    as (s & s' & Es & Es' & Ss & Ss' & Hs).
  destruct (LayerNorm_forward_2 _ s s' B T _ Hl1 Ss Ss')
    as (u & u' & Eu & Eu' & Su & Su' & Hu).
  destruct (FeedForward_forward_2 _ u u' B T g1 g1' Hff Su Su')
    as (f & f' & g2 & g2' & Ef & Ef' & Sf & Sf' & Hev2).
  destruct (tadd_same3_2 u f u' f' B T _ Su Sf Su' Sf')
    as (r & r' & Er & Er' & Sr & Sr' & Hr).
  destruct (LayerNorm_forward_2 _ r r' B T _ Hl2 Sr Sr')
    as (y & y' & Ey & Ey' & Sy & Sy' & Hy).
  exists y, y', g2, g2'.
  unfold Block.forward, bind, lift, ret.
  rewrite Ea, Ea', Es, Es', Eu, Eu', Ef, Ef', Er, Er', Ey, Ey'.
  repeat split; auto.
  - destruct H as [H1 H2]. destruct (Hev1 H1) as (-> & _).
    now destruct (Hev2 H2) as (-> & _).
  - destruct H as [H1 H2]. destruct (Hev1 H1) as (_ & -> & _).
    now destruct (Hev2 H2) as (_ & -> & _).
  - intros n Hag. destruct H as [H1 H2].
    destruct (Hev1 H1) as (_ & _ & A1). destruct (Hev2 H2) as (_ & _ & A2).
    auto 10.
Qed.

Lemma blocks_forward_2 (bs : list Block.t) (x x' : Tensor R) (B T : nat) g g' :
  Forall (wf_Block hp) bs -> (1 <= head_size hp)%nat ->
  shape x = [B; T; HP.n_embed hp] -> shape x' = [B; T; HP.n_embed hp] ->
  (T <= HP.block_size hp)%nat ->
  exists y y' g1 g1',
    foldM Block.forward bs x g = Ok (y, g1) /\
    foldM Block.forward bs x' g' = Ok (y', g1') /\
    shape y = [B; T; HP.n_embed hp] /\ shape y' = [B; T; HP.n_embed hp] /\
    (Forall eval_Block bs ->
     g1 = g /\ g1' = g' /\ forall n, agree_upto n x x' -> agree_upto n y y').
Proof.
  intros Hwf Hhs Hx Hx' HT; revert x x' g g' Hx Hx'.
  induction Hwf as [|b l Hb _ IH]; intros x x' g g' Hx Hx'.
  - exists x, x', g, g'; simpl; unfold ret; repeat split; auto.
  - destruct (Block_forward_2 b x x' B T g g' Hb Hhs Hx Hx' HT)
      as (u & u' & g1 & g1' & E & E' & S & S' & Hev).
    destruct (IH u u' g1 g1' S S') as (y & y' & g2 & g2' & F & F' & Sy & Sy' & Hevs).
    exists y, y', g2, g2'.
    cbn [foldM]; unfold bind. rewrite E, E', F, F'.
    repeat split; auto.
    + inversion H as [|? ? H1 H2]; subst.
      destruct (Hev H1) as (-> & _). now destruct (Hevs H2) as (-> & _).
    + inversion H as [|? ? H1 H2]; subst.
      destruct (Hev H1) as (_ & -> & _). now destruct (Hevs H2) as (_ & -> & _).
    + intros n Hag. inversion H as [|? ? H1 H2]; subst.
      destruct (Hev H1) as (_ & _ & A1). destruct (Hevs H2) as (_ & _ & A2).
      auto.
Qed.
End BlockFacts.

(** ** Embedding lookups *)

Lemma forallb_all_indices (s : list nat) (f : list nat -> bool) :
  (forall ix, valid_ix s ix -> f ix = true) -> forallb f (all_indices s) = true.
Proof.
  intros H. apply forallb_forall. intros ix Hin. apply H, in_all_indices, Hin.
Qed.

Lemma in_table_spec (n : nat) (v : Z) :
  in_table n v = true <-> (0 <= v < Z.of_nat n)%Z.
Proof.
  unfold in_table. rewrite andb_true_iff, Z.leb_le, Z.ltb_lt. tauto.
Qed.

Lemma Embedding_forward_tokens (e : Embedding) (idx : Tensor Z) (n d B T : nat) :
  wf_Embedding n d e -> shape idx = [B; T] -> valid_tokens n idx ->
  exists y, Embedding_forward e idx = Ok y /\ shape y = [B; T; d] /\
    forall b t c, y.[[b; t; c]] = (emb_weight e).[[Z.to_nat idx.[[b; t]]; c]].
Proof.
  intros He Hs Hv. unfold Embedding_forward. rewrite He, Hs.
  rewrite forallb_all_indices.
  - eexists; split; [reflexivity|]; split; [reflexivity|]. intros; reflexivity.
  - intros ix Hix. apply in_table_spec.
    assert (exists b t, ix = [b; t]) as (b & t & ->).
    { inversion Hix as [|b ? ix1 ? _ H1]; subst.
      inversion H1 as [|t ? ix2 ? _ H2]; subst.
      inversion H2; subst. eauto. }
    apply Hv. now rewrite Hs.
Qed.

Lemma Embedding_forward_arange (e : Embedding) (n d T : nat) :
  wf_Embedding n d e -> (T <= n)%nat ->
  exists y, Embedding_forward e (torch_arange T) = Ok y /\ shape y = [T; d] /\
    forall t c, y.[[t; c]] = (emb_weight e).[[t; c]].
Proof.
  intros He HT. unfold Embedding_forward. rewrite He.
  rewrite forallb_all_indices.
  - eexists; split; [reflexivity|]; split; [reflexivity|].
    intros t c; simpl. unfold ix_init, ix_last; simpl. now rewrite Nat2Z.id.
  - intros ix Hix. apply in_table_spec. simpl in Hix.
    inversion Hix as [|t ? ix1 ? Ht H1]; subst. simpl. lia.
Qed.

(** A position past the table is an [IndexError]. *)
Lemma Embedding_forward_arange_err (e : Embedding) (n d T : nat) :
  wf_Embedding n d e -> (n < T)%nat ->
  Embedding_forward e (torch_arange T) = Err IndexError.
Proof.
  intros He HT. unfold Embedding_forward. rewrite He.
  destruct (forallb _ _) eqn:E; [|reflexivity].
  rewrite forallb_forall in E.
  specialize (E [n]). simpl in E.
  assert (Hin : In [n] (all_indices [T])) by (apply in_all_indices, valid_ix1, HT).
  apply E, in_table_spec in Hin. simpl in Hin. lia.
Qed.

(** ** The forward pass *)

Section ForwardFacts.
Context {TR : TorchRandom}.
Variable hp : HP.t.

Lemma forward_2 (m : GPTLanguageModel.t) (idx idx' : Tensor Z) (V B T : nat) g g' :
  wf_GPT hp V m -> (1 <= head_size hp)%nat ->
  shape idx = [B; T] -> shape idx' = [B; T] -> (T <= HP.block_size hp)%nat ->
  valid_tokens V idx -> valid_tokens V idx' ->
  exists L L' g1 g1',
    GPTLanguageModel.forward m idx None g = Ok ((L, None), g1) /\
    GPTLanguageModel.forward m idx' None g' = Ok ((L', None), g1') /\
    shape L = [B; T; V] /\ shape L' = [B; T; V] /\
    (eval_GPT m ->
     g1 = g /\ g1' = g' /\
     forall n, agree_tokens n idx idx' -> agree_upto n L L').
Proof.
  intros (Htok & Hpos & _ & Hbs & Hln & Hhead) Hhs Hs Hs' HT Hv Hv'.
  destruct (Embedding_forward_tokens _ idx _ _ B T Htok Hs Hv) as (te & Ete & Ste & Vte).
  destruct (Embedding_forward_tokens _ idx' _ _ B T Htok Hs' Hv')
    as (te' & Ete' & Ste' & Vte').
  destruct (Embedding_forward_arange _ _ _ T Hpos HT) as (pe & Epe & Spe & Vpe).
  destruct (tadd_3_2 te pe B T _ Ste Spe) as (x & Ex & Sx & Vx).
  destruct (tadd_3_2 te' pe B T _ Ste' Spe) as (x' & Ex' & Sx' & Vx').
  destruct (blocks_forward_2 hp _ x x' B T g g' Hbs Hhs Sx Sx' HT)
    as (u & u' & g1 & g1' & Eu & Eu' & Su & Su' & Hev).
  destruct (LayerNorm_forward_2 _ u u' B T _ Hln Su Su')
    as (w & w' & Ew & Ew' & Sw & Sw' & Hw).
  destruct (Linear_forward_2 _ w w' _ _ _ B T Hhead Sw Sw')
    as (L & L' & EL & EL' & SL & SL' & HL).
  exists L, L', g1, g1'.
  unfold GPTLanguageModel.forward, bind, lift, ret.
  rewrite Hs, Hs'; cbn [unpack2].
  rewrite Ete, Ete', Epe, Ex, Ex', Eu, Eu', Ew, Ew', EL, EL'.
  repeat split; auto.
  - now destruct (Hev H) as (-> & _).
  - now destruct (Hev H) as (_ & -> & _).
  - intros n Hag. destruct (Hev H) as (_ & _ & A).
    apply HL, Hw, A.
    apply (agree_upto_3 _ _ _ _ _ _ Sx). intros b t c Hb Ht Hc Hn.
    rewrite Vx, Vx', Vte, Vte' by assumption.
    rewrite (Hag b t); [reflexivity | rewrite Hs; now apply valid_ix2 | assumption].
Qed.

(** With targets the pass continues from the logits of the pass without. *)
Lemma forward_targets (m : GPTLanguageModel.t) (idx : Tensor Z)
  (tg : Strided Z) g L g1 :
  GPTLanguageModel.forward m idx None g = Ok ((L, None), g1) ->
  GPTLanguageModel.forward m idx (Some tg) g =
  ('(B, T, C) <- lift (unpack3 (shape L)) ;;
   logits <- lift (view L (contiguous_strides (shape L)) [(B * T)%nat; C]) ;;
   targets <- lift (view tg (strides tg) [(B * T)%nat]) ;;
   loss <- lift (F_cross_entropy logits targets) ;;
   ret (logits, Some loss)) g1.
Proof.
  unfold GPTLanguageModel.forward, bind, lift, ret.
  destruct (unpack2 (shape idx)) as [[B T]|]; [|discriminate].
  destruct (Embedding_forward _ idx); [|discriminate].
  destruct (Embedding_forward _ (torch_arange T)); [|discriminate].
  destruct (tadd _ _); [|discriminate].
  destruct (foldM _ _ _ g) as [[u g2]|]; [|discriminate].
  destruct (LayerNorm_forward _ u); [|discriminate].
  destruct (Linear_forward _ _); [|discriminate].
  intros H; inversion H; subst. reflexivity.
Qed.
End ForwardFacts.

(** ** Views and the loss *)

Lemma numel_pos_of_lt (s : list nat) (k : nat) : (k < numel s)%nat -> (0 < numel s)%nat.
Proof. lia. Qed.

Lemma unravel_valid (s : list nat) (k : nat) :
  (k < numel s)%nat -> valid_ix s (unravel s k).
Proof.
  revert k; induction s as [|d s IH]; intros k Hk; simpl; [constructor|].
  simpl in Hk.
  assert (Hpos : (0 < numel s)%nat) by (destruct (numel s); lia).
  constructor.
  - apply Nat.Div0.div_lt_upper_bound. lia.
  - apply IH, Nat.mod_upper_bound; lia.
Qed.

Lemma view_flat {A} (t : Tensor A) (st : list nat) (N : nat) :
  numel (shape t) = N -> viewable (shape t) st [N] = true ->
  exists y, view t st [N] = Ok y /\ shape y = [N] /\
    forall n, y.[[n]] = t.[unravel (shape t) n].
Proof.
  intros H Hv. unfold view. rewrite Hv. simpl.
  rewrite H, Nat.mul_1_r, Nat.eqb_refl.
  eexists; split; [reflexivity|]; split; [reflexivity|].
  intros n; simpl. now rewrite Nat.mul_1_r, Nat.add_0_r.
Qed.

Lemma view_flat_err {A} (t : Tensor A) (st : list nat) (N : nat) :
  numel (shape t) <> N -> view t st [N] = Err RuntimeError.
Proof.
  intros H. unfold view. simpl. rewrite Nat.mul_1_r.
  destruct (Nat.eqb_spec (numel (shape t)) N); [contradiction | reflexivity].
Qed.

(** Strides that do not allow the shape make [view] fail. *)
Lemma view_layout_err {A} (t : Tensor A) (st s : list nat) :
  viewable (shape t) st s = false -> view t st s = Err RuntimeError.
Proof.
  intros H. unfold view. rewrite H. now destruct (_ =? _)%nat.
Qed.

(** The walk of [computeStride], one step at a time. *)
Lemma chunks_last (d st tn cb : nat) (new_rev : list nat) :
  chunks [(d, st)] tn cb new_rev =
  (let (vn, left) := fill_chunk new_rev 1 (tn * d) in
   (vn =? tn * d)%nat && match left with [] => true | _ => false end).
Proof. reflexivity. Qed.

Lemma chunks_same (d st d1 st1 tn cb : nat) (rest : list (nat * nat))
  (new_rev : list nat) :
  st1 = (tn * d * cb)%nat ->
  chunks ((d, st) :: (d1, st1) :: rest) tn cb new_rev =
  chunks ((d1, st1) :: rest) (tn * d) cb new_rev.
Proof.
  intros ->. cbn [chunks]. now rewrite Nat.eqb_refl, andb_false_r.
Qed.

Lemma chunks_one (d st st1 tn cb : nat) (rest : list (nat * nat))
  (new_rev : list nat) :
  chunks ((d, st) :: (1%nat, st1) :: rest) tn cb new_rev =
  chunks ((1%nat, st1) :: rest) (tn * d) cb new_rev.
Proof. reflexivity. Qed.

Lemma fill_chunk_take (d vn tn : nat) (r : list nat) :
  ((vn <? tn) || (d =? 1))%nat = true ->
  fill_chunk (d :: r) vn tn = fill_chunk r (vn * d) tn.
Proof. intros H. cbn [fill_chunk]. now rewrite H. Qed.

(** A freshly allocated tensor of three axes can be viewed with its first
    two axes merged. *)
Lemma viewable_logits (B T C : nat) :
  viewable [B; T; C] (contiguous_strides [B; T; C]) [(B * T)%nat; C] = true.
Proof.
  unfold viewable.
  destruct (Nat.eqb_spec (numel [B; T; C]) 0) as [|Hn]; [reflexivity|].
  simpl in Hn.
  assert (HB : (1 <= B)%nat) by (destruct B; [simpl in Hn; lia | lia]).
  assert (HT : (1 <= T)%nat) by (destruct T; [rewrite Nat.mul_0_r in Hn; lia | lia]).
  assert (HC : (1 <= C)%nat)
    by (destruct C; [rewrite !Nat.mul_0_r in Hn; lia | lia]).
  assert (Hst : contiguous_strides [B; T; C] = [(1 * C * T * 1)%nat; (1 * C * 1)%nat; 1%nat]).
  { cbn [contiguous_strides numel1 fold_right]. rewrite !Nat.max_l by lia.
    f_equal; [nia | f_equal; nia]. }
  rewrite Hst. cbn [combine rev app].
  rewrite chunks_same by reflexivity.
  rewrite chunks_same by reflexivity.
  rewrite chunks_last. cbn [rev app].
  rewrite fill_chunk_take.
  2: { destruct (Nat.ltb_spec 1 (1 * C * T * B)); [reflexivity|].
       simpl. apply Nat.eqb_eq. nia. }
  rewrite fill_chunk_take.
  2: { destruct (Nat.ltb_spec (1 * C) (1 * C * T * B)); [reflexivity|].
       simpl. apply Nat.eqb_eq. nia. }
  cbn [fill_chunk]. rewrite andb_true_r. apply Nat.eqb_eq. nia.
Qed.

(** A contiguous matrix can be flattened. *)
Lemma flattenable_contiguous {A} (t : Tensor A) (B T : nat) :
  shape t = [B; T] -> flattenable (contiguous t) = true.
Proof.
  intros Hs. unfold flattenable, contiguous; cbn [values strides]. rewrite Hs.
  unfold viewable.
  destruct (Nat.eqb_spec (numel [B; T]) 0) as [|Hn]; [reflexivity|].
  simpl in Hn.
  assert (HB : (1 <= B)%nat) by (destruct B; [simpl in Hn; lia | lia]).
  assert (HT : (1 <= T)%nat) by (destruct T; [rewrite Nat.mul_0_r in Hn; lia | lia]).
  assert (Hst : contiguous_strides [B; T] = [(1 * T * 1)%nat; 1%nat]).
  { cbn [contiguous_strides numel1 fold_right]. rewrite !Nat.max_l by lia.
    f_equal; nia. }
  rewrite Hst. cbn [combine rev app].
  rewrite chunks_same by reflexivity.
  rewrite chunks_last.
  rewrite fill_chunk_take.
  2: { destruct (Nat.ltb_spec 1 (1 * T * B)); [reflexivity|].
       simpl. apply Nat.eqb_eq. simpl. nia. }
  cbn [fill_chunk]. rewrite andb_true_r. apply Nat.eqb_eq. simpl. nia.
Qed.

Lemma view_logits (L : Tensor R) (B T C : nat) :
  shape L = [B; T; C] ->
  exists y, view L (contiguous_strides [B; T; C]) [(B * T)%nat; C] = Ok y /\
    shape y = [(B * T)%nat; C].
Proof.
  intros H. unfold view. rewrite H, viewable_logits.
  replace (numel [B; T; C] =? numel [(B * T)%nat; C])%nat with true.
  - eexists; split; reflexivity.
  - symmetry; apply Nat.eqb_eq; simpl; lia.
Qed.

Lemma nll_nonneg (logits : Tensor R) (targets : Tensor Z) (C n : nat) :
  (0 <= targets.[[n]] < Z.of_nat C)%Z -> 0 <= nll logits targets C n.
Proof.
  intros Ht. unfold nll.
  set (t := Z.to_nat targets.[[n]]).
  assert (Htc : (t < C)%nat) by (unfold t; lia).
  assert (Hle : exp logits.[[n; t]] <= Rsum C (fun j => exp logits.[[n; j]])).
  { apply (Rsum_term_le C (fun j => exp logits.[[n; j]]) t); [|exact Htc].
    intros; apply Rlt_le, exp_pos. }
  assert (Hln : ln (exp logits.[[n; t]]) <= ln (Rsum C (fun j => exp logits.[[n; j]]))).
  { destruct Hle as [Hlt|Heq].
    - apply Rlt_le, ln_increasing; [apply exp_pos | exact Hlt].
    - rewrite Heq; apply Rle_refl. }
  rewrite ln_exp in Hln. lra.
Qed.

Lemma sum_nll_nonneg (logits : Tensor R) (targets : Tensor Z) (C : nat) (l : list nat) :
  (forall n, In n l -> (0 <= targets.[[n]] < Z.of_nat C)%Z) ->
  0 <= fold_right (fun n acc => nll logits targets C n + acc) 0 l.
Proof.
  induction l as [|n l IH]; intros H; simpl; [lra|].
  assert (0 <= nll logits targets C n) by (apply nll_nonneg, H; now left).
  assert (0 <= fold_right (fun n acc => nll logits targets C n + acc) 0 l)
    by (apply IH; intros; apply H; now right).
  lra.
Qed.

Lemma F_cross_entropy_valid (logits : Tensor R) (targets : Tensor Z) (N C : nat) :
  shape logits = [N; C] -> shape targets = [N] ->
  (forall n, (n < N)%nat -> (0 <= targets.[[n]] < Z.of_nat C)%Z) ->
  exists loss, F_cross_entropy logits targets = Ok loss /\
    ((1 <= N)%nat -> exists r, loss = Real r /\ 0 <= r) /\
    (N = 0%nat -> loss = NaN).
Proof.
  intros Hl Ht Hv. unfold F_cross_entropy. rewrite Hl, Ht, Nat.eqb_refl.
  assert (Hok : forallb (fun n => target_ok C targets.[[n]]) (seq 0 N) = true).
  { apply forallb_forall. intros n Hn. apply in_seq in Hn.
    unfold target_ok. apply orb_true_iff; right.
    specialize (Hv n ltac:(lia)).
    apply andb_true_iff; split; [apply Z.leb_le | apply Z.ltb_lt]; lia. }
  rewrite Hok.
  set (kept := filter (fun n => negb (targets.[[n]] =? ignore_index)%Z) (seq 0 N)).
  assert (Hkept : forall n, In n kept -> (0 <= targets.[[n]] < Z.of_nat C)%Z).
  { intros n Hn. apply filter_In in Hn as [Hn _]. apply in_seq in Hn.
    apply Hv; lia. }
  destruct kept as [|k0 kept'] eqn:Ek.
  - eexists; split; [reflexivity|]; split; [|reflexivity].
    intros HN. exfalso.
    assert (Hin : In 0%nat kept).
    { apply filter_In; split; [apply in_seq; lia|].
      specialize (Hv 0%nat ltac:(lia)). unfold ignore_index.
      destruct (Z.eqb_spec targets.[[0%nat]] (-100)); [lia | reflexivity]. }
    rewrite Ek in Hin. destruct Hin.
  - eexists; split; [reflexivity|]; split.
    + intros _. eexists; split; [reflexivity|].
      apply Rmult_le_pos.
      * apply sum_nll_nonneg. exact Hkept.
      * apply Rlt_le, Rinv_0_lt_compat, lt_0_INR. simpl; lia.
    + intros ->. discriminate.
Qed.

Section LossFacts.
Context {TR : TorchRandom}.
Variable hp : HP.t.

(** With targets that hold [B * T] valid classes, whatever their shape,
    the pass returns the flattened logits and a loss. *)
Lemma forward_loss (m : GPTLanguageModel.t) (idx : Tensor Z) (tg : Strided Z)
  (V B T : nat) g :
  wf_GPT hp V m -> (1 <= head_size hp)%nat ->
  shape idx = [B; T] -> (T <= HP.block_size hp)%nat -> valid_tokens V idx ->
  numel (shape tg) = (B * T)%nat -> flattenable tg = true ->
  (forall ix, valid_ix (shape tg) ix -> (0 <= tg.[ix] < Z.of_nat V)%Z) ->
  exists L loss g1,
    GPTLanguageModel.forward m idx (Some tg) g = Ok ((L, Some loss), g1) /\
    shape L = [(B * T)%nat; V] /\
    ((1 <= B * T)%nat -> exists r, loss = Real r /\ 0 <= r) /\
    ((B * T)%nat = 0%nat -> loss = NaN).
Proof.
  intros Hwf Hhs Hs HT Hv Hn Hf Htg.
  destruct (forward_2 hp m idx idx V B T g g Hwf Hhs Hs Hs HT Hv Hv)
    as (L & _ & g1 & _ & E & _ & SL & _).
  rewrite (forward_targets m idx tg g L g1 E).
  destruct (view_logits L B T V SL) as (L2 & E2 & S2).
  unfold flattenable in Hf. rewrite Hn in Hf.
  destruct (view_flat tg (strides tg) _ Hn Hf) as (t2 & Et & St & Vt).
  assert (Hv2 : forall n, (n < B * T)%nat -> (0 <= t2.[[n]] < Z.of_nat V)%Z).
  { intros n Hlt. rewrite Vt. apply Htg, unravel_valid. now rewrite Hn. }
  destruct (F_cross_entropy_valid L2 t2 _ _ S2 St Hv2) as (loss & El & Hpos & Hnan).
  exists L2, loss, g1.
  unfold bind, lift, ret. rewrite SL; cbn [unpack3]. rewrite E2, Et, El.
  auto.
Qed.

(** Targets with another number of elements make [view] fail. *)
Lemma forward_targets_numel (m : GPTLanguageModel.t) (idx : Tensor Z)
  (tg : Strided Z) (V B T : nat) g :
  wf_GPT hp V m -> (1 <= head_size hp)%nat ->
  shape idx = [B; T] -> (T <= HP.block_size hp)%nat -> valid_tokens V idx ->
  numel (shape tg) <> (B * T)%nat ->
  GPTLanguageModel.forward m idx (Some tg) g = Err RuntimeError.
Proof.
  intros Hwf Hhs Hs HT Hv Hn.
  destruct (forward_2 hp m idx idx V B T g g Hwf Hhs Hs Hs HT Hv Hv)
    as (L & _ & g1 & _ & E & _ & SL & _).
  rewrite (forward_targets m idx tg g L g1 E).
  destruct (view_logits L B T V SL) as (L2 & E2 & S2).
  unfold bind, lift, ret. rewrite SL; cbn [unpack3].
  now rewrite E2, (view_flat_err tg (strides tg) _ Hn).
Qed.

(** Targets whose strides cannot be flattened make [view] fail. *)
Lemma forward_targets_layout (m : GPTLanguageModel.t) (idx : Tensor Z)
  (tg : Strided Z) (V B T : nat) g :
  wf_GPT hp V m -> (1 <= head_size hp)%nat ->
  shape idx = [B; T] -> (T <= HP.block_size hp)%nat -> valid_tokens V idx ->
  numel (shape tg) = (B * T)%nat -> flattenable tg = false ->
  GPTLanguageModel.forward m idx (Some tg) g = Err RuntimeError.
Proof.
  intros Hwf Hhs Hs HT Hv Hn Hf.
  destruct (forward_2 hp m idx idx V B T g g Hwf Hhs Hs Hs HT Hv Hv)
    as (L & _ & g1 & _ & E & _ & SL & _).
  rewrite (forward_targets m idx tg g L g1 E).
  destruct (view_logits L B T V SL) as (L2 & E2 & S2).
  unfold flattenable in Hf. rewrite Hn in Hf.
  unfold bind, lift, ret. rewrite SL; cbn [unpack3].
  now rewrite E2, (view_layout_err tg _ _ Hf).
Qed.

(** A sequence longer than the position table fails in the lookup. *)
Lemma forward_too_long (m : GPTLanguageModel.t) (idx : Tensor Z)
  (targets : option (Strided Z)) (V B T : nat) g :
  wf_GPT hp V m -> shape idx = [B; T] -> (HP.block_size hp < T)%nat ->
  GPTLanguageModel.forward m idx targets g = Err IndexError.
Proof.
  intros (Htok & Hpos & _) Hs HT.
  unfold GPTLanguageModel.forward, bind, lift.
  rewrite Hs; cbn [unpack2].
  rewrite (Embedding_forward_arange_err _ _ _ T Hpos HT).
  unfold Embedding_forward. rewrite Htok.
  destruct (forallb _ _); reflexivity.
Qed.
End LossFacts.

(** ** Sampling and the generation loop *)

Lemma slice_last_cols_2 (t : Tensor Z) (n B T : nat) :
  shape t = [B; T] ->
  let start := if (n =? 0)%nat then 0%nat else (T - n)%nat in
  exists y, slice_last_cols t n = Ok y /\ shape y = [B; (T - start)%nat] /\
    forall b i, y.[[b; i]] = t.[[b; (i + start)%nat]].
Proof.
  intros H start. unfold slice_last_cols. rewrite H. fold start.
  eexists; split; [reflexivity|]; split; [reflexivity|]. intros; reflexivity.
Qed.

Lemma select_last_step_3 (t : Tensor R) (B T C : nat) :
  shape t = [B; T; C] -> (1 <= T)%nat ->
  exists y, select_last_step t = Ok y /\ shape y = [B; C] /\
    forall b c, y.[[b; c]] = t.[[b; (T - 1)%nat; c]].
Proof.
  intros H HT. unfold select_last_step. rewrite H.
  destruct (Nat.eqb_spec T 0); [lia|].
  eexists; split; [reflexivity|]; split; [reflexivity|]. intros; reflexivity.
Qed.

Lemma select_last_step_inv (t y : Tensor R) :
  select_last_step t = Ok y ->
  exists B T C, shape t = [B; T; C] /\ (1 <= T)%nat /\ shape y = [B; C].
Proof.
  unfold select_last_step.
  destruct (shape t) as [|B [|T [|C [|? ?]]]]; try discriminate.
  destruct (Nat.eqb_spec T 0); [discriminate|].
  intros H; inversion H; subst. exists B, T, C; repeat split; simpl; lia.
Qed.

Lemma torch_cat_dim1_2 (a b : Tensor Z) (B T : nat) :
  shape a = [B; T] -> shape b = [B; 1%nat] ->
  exists y, torch_cat_dim1 a b = Ok y /\ shape y = [B; (T + 1)%nat] /\
    (forall i t, (t < T)%nat -> y.[[i; t]] = a.[[i; t]]) /\
    (forall i, y.[[i; T]] = b.[[i; 0%nat]]).
Proof.
  intros Ha Hb. unfold torch_cat_dim1. rewrite Ha, Hb, Nat.eqb_refl.
  eexists; split; [reflexivity|]; split; [reflexivity|]; split.
  - intros i t Ht; simpl. destruct (Nat.ltb_spec t T); [reflexivity | lia].
  - intros i; simpl. destruct (Nat.ltb_spec T T); [lia|]. now rewrite Nat.sub_diag.
Qed.

Lemma torch_cat_dim1_inv (a b y : Tensor Z) (B T B' : nat) :
  shape a = [B; T] -> shape b = [B'; 1%nat] -> torch_cat_dim1 a b = Ok y ->
  B' = B.
Proof.
  intros Ha Hb. unfold torch_cat_dim1. rewrite Ha, Hb.
  destruct (Nat.eqb_spec B B'); [auto | discriminate].
Qed.

Lemma Linear_forward_last (l : Linear) (x y : Tensor R) (i o : nat) (wb : bool) :
  wf_Linear i o wb l -> Linear_forward l x = Ok y -> last (shape y) 0%nat = o.
Proof.
  intros [HW _]. unfold Linear_forward. rewrite HW.
  destruct (rev (shape x)) as [|d pre]; [discriminate|].
  destruct (d =? i)%nat; [|discriminate].
  destruct (bias l) as [b|].
  - destruct (shape_eqb (shape b) [o]); [|discriminate].
    intros H; inversion H; subst; simpl. apply last_last.
  - intros H; inversion H; subst; simpl. apply last_last.
Qed.

Section GenerateFacts.
Context {TR : TorchRandom}.
Variable hp : HP.t.

Lemma forward_None_inv (m : GPTLanguageModel.t) (idx : Tensor Z) (V : nat)
  g L o g1 :
  wf_GPT hp V m ->
  GPTLanguageModel.forward m idx None g = Ok ((L, o), g1) ->
  last (shape L) 0%nat = V.
Proof.
  intros (_ & _ & _ & _ & _ & Hhead).
  unfold GPTLanguageModel.forward, bind, lift, ret.
  destruct (unpack2 (shape idx)) as [[B T]|]; [|discriminate].
  destruct (Embedding_forward _ idx); [|discriminate].
  destruct (Embedding_forward _ (torch_arange T)); [|discriminate].
  destruct (tadd _ _); [|discriminate].
  destruct (foldM _ _ _ g) as [[u g2]|]; [|discriminate].
  destruct (LayerNorm_forward _ u); [|discriminate].
  destruct (Linear_forward _ _) eqn:E; [|discriminate].
  intros H; inversion H; subst.
  exact (Linear_forward_last _ _ _ _ _ _ Hhead E).
Qed.

Lemma mapM_draw_row (probs : Tensor R) (n : nat) (l : list nat) g :
  (0 < n)%nat ->
  exists ks g', mapM (draw_row probs n) l g = Ok (ks, g') /\
    length ks = length l /\ Forall (fun k => (k < n)%nat) ks.
Proof.
  intros Hn; revert g; induction l as [|b l IH]; intros g.
  - exists [], g; repeat split; constructor.
  - cbn [mapM]. unfold bind at 1. unfold draw_row at 1.
    destruct (multinomial1 g (fun c => probs.[[b; c]]) n) as [k g1] eqn:E.
    destruct (IH g1) as (ks & g2 & F & Lk & Hk).
    exists (k :: ks), g2. unfold bind, ret. rewrite F.
    repeat split; simpl; [congruence|].
    constructor; [|exact Hk].
    pose proof (@multinomial1_lt _ g (fun c => probs.[[b; c]]) n Hn) as Hlt.
    now rewrite E in Hlt.
Qed.

Lemma nth_lt_default (ks : list nat) (n b : nat) :
  (0 < n)%nat -> Forall (fun k => (k < n)%nat) ks -> (nth b ks 0 < n)%nat.
Proof.
  intros Hn Hk; revert b; induction Hk as [|k ks H _ IH]; intros [|b]; simpl; auto.
Qed.

(** Every index a multinomial draw returns is a column of the weights. *)
Lemma torch_multinomial_inv (probs : Tensor R) (B n : nat) g nx g' :
  shape probs = [B; n] -> torch_multinomial probs g = Ok (nx, g') ->
  (1 <= n)%nat /\ shape nx = [B; 1%nat] /\
  forall b, (b < B)%nat -> (0 <= nx.[[b; 0%nat]] < Z.of_nat n)%Z.
Proof.
  intros Hs. unfold torch_multinomial. rewrite Hs.
  destruct (Nat.eqb_spec n 0) as [|Hn]; [discriminate|].
  destruct (Nat.eqb_spec B 0) as [->|HB].
  - unfold ret; intros H; inversion H; subst; simpl.
    repeat split; try lia.
  - destruct (valid_dist probs B n); [|discriminate].
    destruct (mapM_draw_row probs n (seq 0 B) g ltac:(lia)) as (ks & g2 & F & _ & Hk).
    unfold bind, ret. rewrite F. intros H; inversion H; subst; simpl.
    repeat split; try lia.
    pose proof (nth_lt_default ks n b ltac:(lia) Hk). lia.
Qed.

Lemma valid_dist_true (probs : Tensor R) (B n : nat) :
  (forall b c, (b < B)%nat -> (c < n)%nat -> 0 <= probs.[[b; c]]) ->
  (forall b, (b < B)%nat -> 0 < Rsum n (fun c => probs.[[b; c]])) ->
  valid_dist probs B n = true.
Proof.
  intros H1 H2. unfold valid_dist. apply forallb_forall; intros b Hb.
  apply in_seq in Hb. apply andb_true_iff; split.
  - apply forallb_forall; intros c Hc. apply in_seq in Hc.
    unfold Rle_bool. destruct (Rle_dec 0 probs.[[b; c]]) as [|Hn]; [reflexivity|].
    exfalso; apply Hn, H1; lia.
  - unfold Rlt_bool. destruct (Rlt_dec 0 _) as [|Hn]; [reflexivity|].
    exfalso; apply Hn, H2; lia.
Qed.

Lemma torch_multinomial_softmax (l : Tensor R) (B n : nat) g :
  shape l = [B; n] -> (1 <= n)%nat ->
  exists nx g', torch_multinomial (F_softmax (tmap Fin l)) g = Ok (nx, g').
Proof.
  intros Hs Hn. unfold torch_multinomial.
  change (shape (F_softmax (tmap Fin l))) with (shape l). rewrite Hs.
  destruct (Nat.eqb_spec n 0); [lia|].
  destruct (Nat.eqb_spec B 0); [unfold ret; eauto|].
  assert (Hval : forall b c,
    (F_softmax (tmap Fin l)).[[b; c]] = exp l.[[b; c]] * / Rsum n (fun j => exp l.[[b; j]])).
  { intros b c. unfold F_softmax; simpl. rewrite Hs; reflexivity. }
  assert (Hden : forall b, 0 < Rsum n (fun j => exp l.[[b; j]])).
  { intros b. apply Rsum_pos; [lia|]. intros; apply exp_pos. }
  rewrite valid_dist_true.
  - destruct (mapM_draw_row (F_softmax (tmap Fin l)) n (seq 0 B) g ltac:(lia))
      as (ks & g2 & F & _).
    unfold bind, ret. rewrite F. eauto.
  - intros b c _ _. rewrite Hval. apply Rmult_le_pos.
    + apply Rlt_le, exp_pos.
    + apply Rlt_le, Rinv_0_lt_compat, Hden.
  - intros b _.
    rewrite (Rsum_ext n _ (fun c => exp l.[[b; c]] * / Rsum n (fun j => exp l.[[b; j]])))
      by (intros; apply Hval).
    rewrite Rsum_scal_r. apply Rmult_lt_0_compat; [apply Hden|].
    apply Rinv_0_lt_compat, Hden.
Qed.
End GenerateFacts.

Section GenerateLoop.
Context {TR : TorchRandom}.
Variable hp : HP.t.

(** What one step of the loop did, whenever it returns. *)
Lemma generate_step_inv (m : GPTLanguageModel.t) (index : Tensor Z)
  (V B T : nat) g out g' :
  wf_GPT hp V m -> shape index = [B; T] ->
  GPTLanguageModel.generate_step hp m index g = Ok (out, g') ->
  shape out = [B; (T + 1)%nat] /\
  (forall b t, (t < T)%nat -> out.[[b; t]] = index.[[b; t]]) /\
  (forall b, (b < B)%nat -> (0 <= out.[[b; T]] < Z.of_nat V)%Z).
Proof.
  intros Hwf Hs. unfold GPTLanguageModel.generate_step, bind, lift.
  destruct (slice_last_cols_2 index (HP.block_size hp) B T Hs) as (cond & Ec & _).
  rewrite Ec.
  destruct (GPTLanguageModel.forward m cond None g) as [[[L o] g1]|] eqn:EF;
    [|discriminate].
  pose proof (forward_None_inv hp m cond V g L o g1 Hwf EF) as Hlast.
  destruct (select_last_step L) as [l|] eqn:El; [|discriminate].
  destruct (select_last_step_inv _ _ El) as (B' & T' & C' & SL & HT' & Sl).
  rewrite SL in Hlast; simpl in Hlast; subst C'.
  destruct (torch_multinomial (F_softmax (tmap Fin l)) g1) as [[nx g2]|] eqn:Em;
    [|discriminate].
  destruct (torch_multinomial_inv (F_softmax (tmap Fin l)) B' V g1 nx g2 Sl Em)
    as (HV & Snx & Hnx).
  destruct (torch_cat_dim1 index nx) as [y|] eqn:Ecat; [|discriminate].
  pose proof (torch_cat_dim1_inv index nx y B T B' Hs Snx Ecat) as ->.
  destruct (torch_cat_dim1_2 index nx B T Hs Snx) as (y' & Ey & Sy & Vpre & Vlast).
  intros H; inversion H; subst.
  assert (y' = out) by congruence; subst y'.
  repeat split; auto.
  - rewrite Vlast. apply Hnx; assumption.
  - rewrite Vlast. apply Hnx; assumption.
Qed.

Lemma valid_tokens_2 (V : nat) (idx : Tensor Z) (B T : nat) :
  shape idx = [B; T] ->
  (valid_tokens V idx <->
   forall b t, (b < B)%nat -> (t < T)%nat ->
     (0 <= idx.[[b; t]] < Z.of_nat V)%Z).
Proof.
  intros Hs; unfold valid_tokens; rewrite Hs; split.
  - intros H b t Hb Ht. apply H, valid_ix2; auto.
  - intros H b t Hv. apply valid_ix2 in Hv as [? ?]. now apply H.
Qed.

(** One step returns on a non-empty sequence of valid tokens. *)
Lemma generate_step_ok (m : GPTLanguageModel.t) (index : Tensor Z)
  (V B T : nat) g :
  wf_GPT hp V m -> (1 <= head_size hp)%nat -> (1 <= HP.block_size hp)%nat ->
  (1 <= V)%nat -> shape index = [B; T] -> (1 <= T)%nat ->
  valid_tokens V index ->
  exists out g', GPTLanguageModel.generate_step hp m index g = Ok (out, g').
Proof.
  intros Hwf Hhs Hbs HV Hs HT Hv.
  destruct (slice_last_cols_2 index (HP.block_size hp) B T Hs)
    as (cond & Ec & Scond & Vcond).
  destruct (Nat.eqb_spec (HP.block_size hp) 0) as [|_]; [lia|].
  set (T' := (T - (T - HP.block_size hp))%nat) in *.
  assert (HT' : (1 <= T' <= HP.block_size hp)%nat) by (unfold T'; lia).
  assert (Hvc : valid_tokens V cond).
  { apply (valid_tokens_2 V cond B T' Scond). intros b t Hb Ht.
    rewrite Vcond.
    apply (proj1 (valid_tokens_2 V index B T Hs) Hv); [assumption|].
    unfold T' in Ht; lia. }
  destruct (forward_2 hp m cond cond V B T' g g Hwf Hhs Scond Scond
              ltac:(lia) Hvc Hvc) as (L & _ & g1 & _ & EF & _ & SL & _).
  destruct (select_last_step_3 L B T' V SL ltac:(lia)) as (l & El & Sl & _).
  destruct (torch_multinomial_softmax l B V g1 Sl HV) as (nx & g2 & Em).
  destruct (torch_multinomial_inv (F_softmax (tmap Fin l)) B V g1 nx g2 Sl Em)
    as (_ & Snx & _).
  destruct (torch_cat_dim1_2 index nx B T Hs Snx) as (y & Ey & _).
  exists y, g2.
  unfold GPTLanguageModel.generate_step, bind, lift.
  now rewrite Ec, EF, El, Em, Ey.
Qed.

(** The loop, whenever it returns: one column per step, the prompt kept,
    every new token a class of the vocabulary. *)
Lemma generate_inv (m : GPTLanguageModel.t) (V B : nat) (k : nat) :
  wf_GPT hp V m ->
  forall (prompt : Tensor Z) (T0 : nat) g out g',
  shape prompt = [B; T0] ->
  GPTLanguageModel.generate hp m prompt k g = Ok (out, g') ->
  shape out = [B; (T0 + k)%nat] /\
  (forall b t, (t < T0)%nat -> out.[[b; t]] = prompt.[[b; t]]) /\
  (forall b t, (b < B)%nat -> (T0 <= t < T0 + k)%nat ->
     (0 <= out.[[b; t]] < Z.of_nat V)%Z).
Proof.
  intros Hwf. unfold GPTLanguageModel.generate.
  induction k as [|k IH]; intros prompt T0 g out g' Hs.
  - simpl; unfold ret. intros H; inversion H; subst.
    rewrite Nat.add_0_r. repeat split; auto; intros; lia.
  - cbn [iterM]. unfold bind.
    destruct (GPTLanguageModel.generate_step hp m prompt g) as [[mid g1]|] eqn:E;
      [|discriminate].
    destruct (generate_step_inv m prompt V B T0 g mid g1 Hwf Hs E)
      as (Smid & Hpre & Hnew).
    intros H. destruct (IH mid (T0 + 1)%nat g1 out g' Smid H) as (So & Hpre' & Hnew').
    split; [rewrite So; f_equal; f_equal; lia|]. split.
    + intros b t Ht. rewrite Hpre' by lia. now apply Hpre.
    + intros b t Hb Ht.
      destruct (Nat.eq_dec t T0) as [->|Hne].
      * rewrite Hpre' by lia. now apply Hnew.
      * apply Hnew'; [assumption | lia].
Qed.

(** The loop returns on a non-empty prompt of valid tokens. *)
Lemma generate_ok (m : GPTLanguageModel.t) (V B : nat) (k : nat) :
  wf_GPT hp V m -> (1 <= head_size hp)%nat -> (1 <= HP.block_size hp)%nat ->
  (1 <= V)%nat ->
  forall (prompt : Tensor Z) (T0 : nat) g,
  shape prompt = [B; T0] -> (1 <= T0)%nat -> valid_tokens V prompt ->
  exists out g', GPTLanguageModel.generate hp m prompt k g = Ok (out, g').
Proof.
  intros Hwf Hhs Hbs HV. unfold GPTLanguageModel.generate.
  induction k as [|k IH]; intros prompt T0 g Hs HT Hv.
  - exists prompt, g; reflexivity.
  - destruct (generate_step_ok m prompt V B T0 g Hwf Hhs Hbs HV Hs HT Hv)
      as (mid & g1 & E).
    destruct (generate_step_inv m prompt V B T0 g mid g1 Hwf Hs E)
      as (Smid & Hpre & Hnew).
    assert (Hvm : valid_tokens V mid).
    { apply (valid_tokens_2 V mid B (T0 + 1) Smid). intros b t Hb Ht.
      destruct (Nat.eq_dec t T0) as [->|Hne]; [now apply Hnew|].
      rewrite Hpre by lia.
      apply (proj1 (valid_tokens_2 V prompt B T0 Hs) Hv); [assumption | lia]. }
    destruct (IH mid (T0 + 1)%nat g1 Smid ltac:(lia) Hvm) as (out & g' & F).
    exists out, g'. cbn [iterM]. unfold bind. now rewrite E.
Qed.
End GenerateLoop.

(** ** Construction *)

Section InitFacts.
Context {TR : TorchRandom}.
Variable hp : HP.t.

Lemma draw_ok (d : Dist) (s : list nat) g :
  exists t g', draw d s g = Ok (t, g') /\ shape t = s.
Proof.
  unfold draw. destruct (sample g d s) as [f g']. eauto.
Qed.

Lemma Linear_init_ok (i o : nat) (wb : bool) g :
  exists l g', Linear_init i o wb g = Ok (l, g') /\ wf_Linear i o wb l.
Proof.
  unfold Linear_init, bind, ret.
  destruct (draw_ok (KaimingUniform (sqrt 5)) [o; i] g) as (w & g1 & -> & Sw).
  destruct wb.
  - match goal with |- context [draw ?d [o] g1] =>
      destruct (draw_ok d [o] g1) as (b & g2 & -> & Sb) end.
    eexists; eexists; split; [reflexivity|]. split; simpl; auto.
  - eexists; eexists; split; [reflexivity|]. split; simpl; auto.
Qed.

Lemma Embedding_init_ok (n d : nat) g :
  exists e g', Embedding_init n d g = Ok (e, g') /\ wf_Embedding n d e.
Proof.
  unfold Embedding_init, bind, ret.
  destruct (draw_ok (Normal 0 1) [n; d] g) as (w & g1 & -> & Sw).
  eexists; eexists; split; [reflexivity | exact Sw].
Qed.

Lemma Dropout_init_ok (p : R) :
  0 <= p <= 1 -> Dropout_init p = Ok (mkDropout p true).
Proof.
  intros [H0 H1]. unfold Dropout_init.
  destruct (Rle_dec 0 p); [|contradiction].
  destruct (Rle_dec p 1); [reflexivity | contradiction].
Qed.

Lemma is_tril_ones (n : nat) : is_tril n (tril_ones n).
Proof. split; [reflexivity | intros; reflexivity]. Qed.

Lemma init_weights_Linear_ok (l : Linear) (i o : nat) (wb : bool) g :
  wf_Linear i o wb l ->
  exists l' g', init_weights_Linear l g = Ok (l', g') /\ wf_Linear i o wb l'.
Proof.
  intros [HW Hb]. unfold init_weights_Linear, bind, ret. rewrite HW.
  destruct (draw_ok (Normal 0 (2 / 100)) [o; i] g) as (w & g1 & -> & Sw).
  eexists; eexists; split; [reflexivity|]. split; simpl; [exact Sw|].
  destruct (bias l); simpl; auto.
Qed.

Lemma init_weights_Embedding_ok (e : Embedding) (n d : nat) g :
  wf_Embedding n d e ->
  exists e' g', init_weights_Embedding e g = Ok (e', g') /\ wf_Embedding n d e'.
Proof.
  intros He. unfold init_weights_Embedding, bind, ret. rewrite He.
  destruct (draw_ok (Normal 0 (2 / 100)) [n; d] g) as (w & g1 & -> & Sw).
  eexists; eexists; split; [reflexivity | exact Sw].
Qed.

(** A constructor run once per element of a list. *)
Lemma mapM_ok {A B} (f : A -> M B) (P : B -> Prop) (l : list A) :
  (forall a g, exists b g', f a g = Ok (b, g') /\ P b) ->
  forall g, exists bs g', mapM f l g = Ok (bs, g') /\
    length bs = length l /\ Forall P bs.
Proof.
  intros Hf; induction l as [|a l IH]; intros g.
  - exists [], g; repeat split; constructor.
  - destruct (Hf a g) as (b & g1 & E & Pb).
    destruct (IH g1) as (bs & g2 & F & Lb & Pbs).
    exists (b :: bs), g2. cbn [mapM]; unfold bind, ret. rewrite E, F.
    repeat split; simpl; auto.
Qed.

(** The same for a pass over existing modules. *)
Lemma mapM_preserve {A} (f : A -> M A) (P : A -> Prop) (l : list A) :
  (forall a g, P a -> exists b g', f a g = Ok (b, g') /\ P b) ->
  Forall P l ->
  forall g, exists bs g', mapM f l g = Ok (bs, g') /\
    length bs = length l /\ Forall P bs.
Proof.
  intros Hf Hl; induction Hl as [|a l Pa _ IH]; intros g.
  - exists [], g; repeat split; constructor.
  - destruct (Hf a g Pa) as (b & g1 & E & Pb).
    destruct (IH g1) as (bs & g2 & F & Lb & Pbs).
    exists (b :: bs), g2. cbn [mapM]; unfold bind, ret. rewrite E, F.
    repeat split; simpl; auto.
Qed.

Hypothesis dropout_range : 0 <= HP.dropout hp <= 1.

Lemma Head_init_ok (hs : nat) g :
  exists h g', Head.init hp hs g = Ok (h, g') /\ wf_Head hp hs h.
Proof.
  unfold Head.init, bind, lift, ret.
  destruct (Linear_init_ok (HP.n_embed hp) hs false g) as (k & g1 & -> & Hk).
  destruct (Linear_init_ok (HP.n_embed hp) hs false g1) as (q & g2 & -> & Hq).
  destruct (Linear_init_ok (HP.n_embed hp) hs false g2) as (v & g3 & -> & Hv).
  rewrite (Dropout_init_ok _ dropout_range).
  eexists; eexists; split; [reflexivity|].
  repeat split; auto; try apply Hk; try apply Hq; try apply Hv.
Qed.

Lemma MultiHeadAttention_init_ok (nh hs : nat) g :
  exists m g', MultiHeadAttention.init hp nh hs g = Ok (m, g') /\
    wf_MultiHeadAttention hp nh hs m.
Proof.
  unfold MultiHeadAttention.init, bind, lift, ret.
  destruct (mapM_ok (fun _ : nat => Head.init hp hs) (wf_Head hp hs) (seq 0 nh)
              (fun _ g => Head_init_ok hs g) g) as (hs_ & g1 & -> & L & Hh).
  destruct (Linear_init_ok (hs * nh) (HP.n_embed hp) true g1) as (p & g2 & -> & Hp).
  rewrite (Dropout_init_ok _ dropout_range).
  eexists; eexists; split; [reflexivity|].
  split; [simpl; now rewrite L, length_seq|]. split; assumption.
Qed.

Lemma FeedForward_init_ok (n : nat) g :
  exists f g', FeedForward.init hp n g = Ok (f, g') /\ wf_FeedForward n f.
Proof.
  unfold FeedForward.init, bind, lift, ret.
  destruct (Linear_init_ok n (4 * n) true g) as (l0 & g1 & -> & H0).
  destruct (Linear_init_ok (4 * n) n true g1) as (l2 & g2 & -> & H2).
  rewrite (Dropout_init_ok _ dropout_range).
  eexists; eexists; split; [reflexivity|]. split; assumption.
Qed.

Lemma wf_LayerNorm_init (d : nat) : wf_LayerNorm d (LayerNorm_init d).
Proof. repeat split. Qed.

(** [Block(n_embed, n_head)] returns for every [n_head >= 1]; the head
    size is the floor of the quotient. *)
Lemma Block_init_ok (ne nh : nat) g :
  (1 <= nh)%nat ->
  exists b g', Block.init hp ne nh g = Ok (b, g') /\
    wf_MultiHeadAttention hp nh (ne / nh) (Block.sa b) /\
    wf_FeedForward ne (Block.ffwd b) /\
    wf_LayerNorm ne (Block.ln1 b) /\ wf_LayerNorm ne (Block.ln2 b).
Proof.
  intros Hnh. unfold Block.init, bind, ret.
  destruct (Nat.eqb_spec nh 0); [lia|].
  destruct (MultiHeadAttention_init_ok nh (ne / nh) g) as (a & g1 & -> & Ha).
  destruct (FeedForward_init_ok ne g1) as (f & g2 & -> & Hf).
  eexists; eexists; split; [reflexivity|].
  repeat split; auto; try apply Ha; try apply Hf.
Qed.

Lemma Block_init_no_head (ne : nat) g :
  Block.init hp ne 0 g = Err ZeroDivisionError.
Proof. reflexivity. Qed.

Lemma Head_apply_init_ok (hs : nat) (h : Head.t) g :
  wf_Head hp hs h ->
  exists h' g', Head.apply_init_weights h g = Ok (h', g') /\ wf_Head hp hs h'.
Proof.
  intros (Hk & Hq & Hv & Ht). unfold Head.apply_init_weights, bind, ret.
  destruct (init_weights_Linear_ok _ _ _ _ g Hk) as (k & g1 & -> & Hk').
  destruct (init_weights_Linear_ok _ _ _ _ g1 Hq) as (q & g2 & -> & Hq').
  destruct (init_weights_Linear_ok _ _ _ _ g2 Hv) as (v & g3 & -> & Hv').
  eexists; eexists; split; [reflexivity|]. repeat split; auto;
    try apply Hk'; try apply Hq'; try apply Hv'; apply Ht.
Qed.

Lemma Block_apply_init_ok (b : Block.t) g :
  wf_Block hp b ->
  exists b' g', Block.apply_init_weights b g = Ok (b', g') /\ wf_Block hp b'.
Proof.
  intros ((Hlen & Hheads & Hproj) & (H0 & H2) & Hl1 & Hl2).
  unfold Block.apply_init_weights, MultiHeadAttention.apply_init_weights,
    FeedForward.apply_init_weights, bind, ret.
  destruct (mapM_preserve Head.apply_init_weights (wf_Head hp (head_size hp)) _
              (fun h g => Head_apply_init_ok _ h g) Hheads g)
    as (hs_ & g1 & -> & L & Hh).
  destruct (init_weights_Linear_ok _ _ _ _ g1 Hproj) as (p & g2 & -> & Hp).
  destruct (init_weights_Linear_ok _ _ _ _ g2 H0) as (l0 & g3 & -> & H0').
  destruct (init_weights_Linear_ok _ _ _ _ g3 H2) as (l2 & g4 & -> & H2').
  eexists; eexists; split; [reflexivity|].
  repeat split; simpl; auto; try apply Hp; try apply H0'; try apply H2';
    try apply Hl1; try apply Hl2; congruence.
Qed.

Lemma GPT_init_ok (V : nat) g :
  (1 <= HP.n_head hp)%nat ->
  exists m g', GPTLanguageModel.init hp V g = Ok (m, g') /\ wf_GPT hp V m.
Proof.
  intros Hnh. unfold GPTLanguageModel.init, GPTLanguageModel.apply_init_weights,
    bind, ret; simpl.
  destruct (Embedding_init_ok V (HP.n_embed hp) g) as (tok & g1 & -> & Htok).
  destruct (Embedding_init_ok (HP.block_size hp) (HP.n_embed hp) g1)
    as (pos & g2 & -> & Hpos).
  destruct (mapM_ok (fun _ : nat => Block.init hp (HP.n_embed hp) (HP.n_head hp))
              (wf_Block hp) (seq 0 (HP.n_layer hp))
              (fun _ g => Block_init_ok _ _ g Hnh) g2) as (bs & g3 & -> & L & Hbs).
  destruct (Linear_init_ok (HP.n_embed hp) V true g3) as (h & g4 & -> & Hh).
  destruct (init_weights_Embedding_ok _ _ _ g4 Htok) as (tok' & g5 & -> & Htok').
  destruct (init_weights_Embedding_ok _ _ _ g5 Hpos) as (pos' & g6 & -> & Hpos').
  destruct (mapM_preserve Block.apply_init_weights (wf_Block hp) bs
              Block_apply_init_ok Hbs g6) as (bs' & g7 & -> & L' & Hbs').
  destruct (init_weights_Linear_ok _ _ _ _ g7 Hh) as (h' & g8 & -> & Hh').
  eexists; eexists; split; [reflexivity|].
  repeat split; simpl; auto; try apply Hh'; try apply wf_LayerNorm_init.
  now rewrite L', L, length_seq.
Qed.

Lemma GPT_init_no_head (V : nat) g :
  HP.n_head hp = 0%nat -> (1 <= HP.n_layer hp)%nat ->
  GPTLanguageModel.init hp V g = Err ZeroDivisionError.
Proof.
  intros Hnh Hnl. unfold GPTLanguageModel.init, bind.
  destruct (Embedding_init_ok V (HP.n_embed hp) g) as (tok & g1 & -> & _).
  destruct (Embedding_init_ok (HP.block_size hp) (HP.n_embed hp) g1)
    as (pos & g2 & -> & _).
  destruct (HP.n_layer hp) as [|n]; [lia|].
  rewrite Hnh. reflexivity.
Qed.
End InitFacts.

(** ** With dropout disabled the forward pass does not touch the generator *)

Section GeneratorFree.
Context {TR : TorchRandom}.

Lemma gf_lift {A} (r : result A) : generator_free (lift r).
Proof. exists r; reflexivity. Qed.

Lemma gf_ret {A} (a : A) : generator_free (ret a).
Proof. exists (Ok a); reflexivity. Qed.

Lemma gf_bind {A B} (m : M A) (f : A -> M B) :
  generator_free m -> (forall a, generator_free (f a)) ->
  generator_free (bind m f).
Proof.
  intros [r Hr] Hf. destruct r as [a|e].
  - destruct (Hf a) as [r' Hr']. exists r'. intros g.
    unfold bind. rewrite Hr; simpl. apply Hr'.
  - exists (Err e). intros g. unfold bind. now rewrite Hr.
Qed.

Lemma gf_mapM {A B} (f : A -> M B) (P : A -> Prop) (l : list A) :
  (forall a, P a -> generator_free (f a)) -> Forall P l ->
  generator_free (mapM f l).
Proof.
  intros Hf Hl. induction Hl as [|a l Pa _ IH]; simpl.
  - apply gf_ret.
  - apply gf_bind; [now apply Hf|]. intros b.
    apply gf_bind; [exact IH|]. intros bs. apply gf_ret.
Qed.

Lemma gf_foldM {A B} (f : B -> A -> M A) (P : B -> Prop) (l : list B) :
  (forall b a, P b -> generator_free (f b a)) -> Forall P l ->
  forall a, generator_free (foldM f l a).
Proof.
  intros Hf Hl. induction Hl as [|b l Pb _ IH]; intros a; simpl.
  - apply gf_ret.
  - apply gf_bind; [now apply Hf | exact IH].
Qed.

Lemma gf_Dropout (d : Dropout) (x : Tensor R) :
  training d = false -> generator_free (Dropout_forward d x).
Proof. intros H. rewrite (Dropout_forward_eval d x H). apply gf_ret. Qed.

Ltac gf_step :=
  first [ apply gf_lift | apply gf_ret
        | apply gf_bind; [| intros ?] ].

Lemma gf_Head (h : Head.t) (x : Tensor R) :
  eval_Head h -> generator_free (Head.forward h x).
Proof.
  intros Hev. unfold Head.forward.
  apply gf_bind; [apply gf_lift|]. intros [[B T] C].
  do 7 (apply gf_bind; [apply gf_lift | intros ?]).
  apply gf_bind; [now apply gf_Dropout | intros ?].
  repeat gf_step.
Qed.

Lemma gf_MultiHeadAttention (m : MultiHeadAttention.t) (x : Tensor R) :
  eval_MultiHeadAttention m -> generator_free (MultiHeadAttention.forward m x).
Proof.
  intros [Hh Hd]. unfold MultiHeadAttention.forward.
  apply gf_bind; [|intros ?].
  - apply (gf_mapM _ eval_Head); [|exact Hh]. intros h Hev. now apply gf_Head.
  - do 2 (apply gf_bind; [apply gf_lift | intros ?]). now apply gf_Dropout.
Qed.

Lemma gf_Block (b : Block.t) (x : Tensor R) :
  eval_Block b -> generator_free (Block.forward b x).
Proof.
  intros [Hsa Hff]. unfold Block.forward.
  apply gf_bind; [now apply gf_MultiHeadAttention | intros ?].
  do 2 (apply gf_bind; [apply gf_lift | intros ?]).
  apply gf_bind; [|intros ?].
  - unfold FeedForward.forward.
    do 2 (apply gf_bind; [apply gf_lift | intros ?]). now apply gf_Dropout.
  - repeat gf_step.
Qed.

Lemma gf_forward (m : GPTLanguageModel.t) (idx : Tensor Z)
  (targets : option (Strided Z)) :
  eval_GPT m -> generator_free (GPTLanguageModel.forward m idx targets).
Proof.
  intros Hev. unfold GPTLanguageModel.forward.
  apply gf_bind; [apply gf_lift|]. intros [B T].
  do 3 (apply gf_bind; [apply gf_lift | intros ?]).
  apply gf_bind; [|intros ?].
  - apply (gf_foldM _ eval_Block); [|exact Hev]. intros b x Hb. now apply gf_Block.
  - do 2 (apply gf_bind; [apply gf_lift | intros ?]).
    destruct targets as [tg|]; [|apply gf_ret].
    apply gf_bind; [apply gf_lift|]. intros [[B' T'] C'].
    repeat gf_step.
Qed.
End GeneratorFree.

(** ** The zero model is well formed *)

Lemma wf_zero_Linear (i o : nat) (wb : bool) : wf_Linear i o wb (zero_Linear i o wb).
Proof. split; [reflexivity|]. destruct wb; simpl; auto. Qed.

Lemma wf_zero_Head (hp : HP.t) : wf_Head hp (head_size hp) (zero_Head hp).
Proof.
  repeat split.
Qed.

Lemma wf_zero_Block (hp : HP.t) : wf_Block hp (zero_Block hp).
Proof.
  split; [|split; [|split]].
  - split; [apply repeat_length|]. split; [|apply wf_zero_Linear].
    apply Forall_forall. intros h Hin. apply repeat_spec in Hin; subst.
    apply wf_zero_Head.
  - split; apply wf_zero_Linear.
  - repeat split.
  - repeat split.
Qed.

Lemma wf_zero_GPT (hp : HP.t) (V : nat) : wf_GPT hp V (zero_GPT hp V).
Proof.
  repeat split; try apply wf_zero_Linear.
  - apply repeat_length.
  - apply Forall_forall. intros b Hin. apply repeat_spec in Hin; subst.
    apply wf_zero_Block.
Qed.

Lemma eval_zero_GPT (hp : HP.t) (V : nat) : eval_GPT (zero_GPT hp V).
Proof.
  apply Forall_forall. intros b Hin. apply repeat_spec in Hin; subst.
  split; [split|]; try reflexivity.
  apply Forall_forall. intros h Hin. apply repeat_spec in Hin; subst. reflexivity.
Qed.

Lemma valid_zero_tokens (V B T : nat) : (1 <= V)%nat -> valid_tokens V (zero_tokens B T).
Proof. intros HV b t _; simpl; lia. Qed.

(** * The claims *)

Lemma head_size_source : head_size source_hparams = 48%nat.
Proof. reflexivity. Qed.

Lemma valid_set_token (V B T : nat) (idx : Tensor Z) (b j : nat) (v : Z) :
  shape idx = [B; T] -> valid_tokens V idx -> (0 <= v < Z.of_nat V)%Z ->
  valid_tokens V (set_token idx b j v).
Proof.
  intros Hs Hv Hr b' t Hix. simpl in Hix |- *.
  destruct ((b' =? b) && (t =? j))%nat; [exact Hr | now apply Hv].
Qed.

Lemma agree_set_token (idx : Tensor Z) (b j : nat) (v : Z) (i : nat) :
  (i < j)%nat -> agree_tokens i idx (set_token idx b j v).
Proof.
  intros Hij b' t _ Ht; simpl.
  destruct (Nat.eqb_spec t j); [lia|]. now rewrite andb_false_r.
Qed.

(** C1 (causality of the forward pass).  For a well-formed model with
    dropout disabled, an index matrix of shape [(B, T)] with
    [T <= block_size] and valid tokens, and positions [i < j]: writing
    another valid token at position [j] of any row leaves the logits at
    position [i] of every row unchanged.  Both calls return, and neither
    advances the generator. *)
Theorem forward_causal {TR : TorchRandom} (hp : HP.t) (m : GPTLanguageModel.t)
  (V B T : nat) (idx : Tensor Z) (b j : nat) (v : Z) (i : nat) (g g' : Generator) :
  wf_GPT hp V m -> (1 <= head_size hp)%nat -> eval_GPT m ->
  shape idx = [B; T] -> (T <= HP.block_size hp)%nat -> valid_tokens V idx ->
  (0 <= v < Z.of_nat V)%Z -> (i < j)%nat ->
  exists L L',
    GPTLanguageModel.forward m idx None g = Ok ((L, None), g) /\
    GPTLanguageModel.forward m (set_token idx b j v) None g' = Ok ((L', None), g') /\
    forall b' c, (b' < B)%nat -> (i < T)%nat -> (c < V)%nat ->
      L.[[b'; i; c]] = L'.[[b'; i; c]].
Proof.
  intros Hwf Hhs Hev Hs HT Hv Hr Hij.
  pose proof (valid_set_token V B T idx b j v Hs Hv Hr) as Hv'.
  destruct (forward_2 hp m idx (set_token idx b j v) V B T g g'
              Hwf Hhs Hs Hs HT Hv Hv')
    as (L & L' & g1 & g1' & E & E' & SL & _ & Heval).
  destruct (Heval Hev) as (-> & -> & Hag).
  exists L, L'; split; [exact E|]; split; [exact E'|].
  intros b' c Hb Hi Hc.
  apply (Hag i (agree_set_token idx b j v i Hij)); [|lia].
  rewrite SL. now apply valid_ix3.
Qed.

Lemma forward_causal_witness :
  exists L L',
    @GPTLanguageModel.forward counting_random (zero_GPT source_hparams 65)
      (zero_tokens 2 8) None 0%nat = Ok ((L, None), 0%nat) /\
    @GPTLanguageModel.forward counting_random (zero_GPT source_hparams 65)
      (set_token (zero_tokens 2 8) 1 5 7%Z) None 3%nat = Ok ((L', None), 3%nat) /\
    forall b' c, (b' < 2)%nat -> (2 < 8)%nat -> (c < 65)%nat ->
      L.[[b'; 2%nat; c]] = L'.[[b'; 2%nat; c]].
Proof.
  apply (@forward_causal counting_random source_hparams (zero_GPT source_hparams 65)
           65 2 8 (zero_tokens 2 8) 1 5 7%Z 2 0%nat 3%nat).
  - apply wf_zero_GPT.
  - rewrite head_size_source; lia.
  - apply eval_zero_GPT.
  - reflexivity.
  - simpl; lia.
  - apply valid_zero_tokens; lia.
  - lia.
  - lia.
Defined.

(** C2, as the code has it.  Without targets the pass returns
    [(logits, None)] with logits of shape [(B, T, vocab_size)].  With
    targets of shape [(B, T)] over the vocabulary, in a layout that
    [view(B * T)] accepts (contiguous targets, for one), it returns
    [(logits, loss)] where the logits are the view of shape
    [(B * T, vocab_size)] the loss was computed on; the loss is not
    negative when it is a number, and it is [nan] when there is no
    position ([B * T = 0]). *)
Theorem forward_returns {TR : TorchRandom} (hp : HP.t) (m : GPTLanguageModel.t)
  (V B T : nat) (idx : Tensor Z) (g : Generator) :
  wf_GPT hp V m -> (1 <= head_size hp)%nat ->
  shape idx = [B; T] -> (T <= HP.block_size hp)%nat -> valid_tokens V idx ->
  (exists L g1,
     GPTLanguageModel.forward m idx None g = Ok ((L, None), g1) /\
     shape L = [B; T; V]) /\
  (forall tg : Strided Z,
     shape tg = [B; T] -> flattenable tg = true -> valid_tokens V tg ->
     exists L loss g1,
       GPTLanguageModel.forward m idx (Some tg) g = Ok ((L, Some loss), g1) /\
       shape L = [(B * T)%nat; V] /\
       (forall r, loss = Real r -> 0 <= r) /\
       ((B * T)%nat = 0%nat -> loss = NaN)).
Proof.
  intros Hwf Hhs Hs HT Hv; split.
  - destruct (forward_2 hp m idx idx V B T g g Hwf Hhs Hs Hs HT Hv Hv)
      as (L & _ & g1 & _ & E & _ & SL & _).
    exists L, g1; auto.
  - intros tg Htg Hf Hvt.
    assert (Hn : numel (shape tg) = (B * T)%nat) by (rewrite Htg; simpl; lia).
    assert (Hr : forall ix, valid_ix (shape tg) ix -> (0 <= tg.[ix] < Z.of_nat V)%Z).
    { intros ix Hix. rewrite Htg in Hix.
      inversion Hix as [|b ? ix1 ? Hb H1]; subst.
      inversion H1 as [|t ? ix2 ? Ht H2]; subst. inversion H2; subst.
      apply Hvt. rewrite Htg. now apply valid_ix2. }
    destruct (forward_loss hp m idx tg V B T g Hwf Hhs Hs HT Hv Hn Hf Hr)
      as (L & loss & g1 & E & SL & Hpos & Hnan).
    exists L, loss, g1. split; [exact E|]. split; [exact SL|].
    split; [|exact Hnan].
    intros r Hloss. destruct (Nat.eq_dec (B * T) 0) as [Hz|Hz].
    + rewrite (Hnan Hz) in Hloss. discriminate.
    + destruct (Hpos ltac:(lia)) as (r0 & Hr0 & Hle).
      rewrite Hr0 in Hloss. inversion Hloss; subst. exact Hle.
Qed.

Lemma forward_returns_witness :
  (exists L g1,
     @GPTLanguageModel.forward counting_random (zero_GPT source_hparams 65)
       (zero_tokens 2 8) None 0%nat = Ok ((L, None), g1) /\
     shape L = [2; 8; 65]%nat) /\
  (forall tg : Strided Z,
     shape tg = [2; 8]%nat -> flattenable tg = true -> valid_tokens 65 tg ->
     exists L loss g1,
       @GPTLanguageModel.forward counting_random (zero_GPT source_hparams 65)
         (zero_tokens 2 8) (Some tg) 0%nat = Ok ((L, Some loss), g1) /\
       shape L = [(2 * 8)%nat; 65%nat] /\
       (forall r, loss = Real r -> 0 <= r) /\
       ((2 * 8)%nat = 0%nat -> loss = NaN)).
Proof.
  apply (@forward_returns counting_random source_hparams).
  - apply wf_zero_GPT.
  - rewrite head_size_source; lia.
  - reflexivity.
  - simpl; lia.
  - apply valid_zero_tokens; lia.
Defined.

(** C2 fails as stated: with targets the logits come back flattened to
    [(B * T, vocab_size)]; for a sequence of length zero the loss is
    [nan]; and targets of the shape [(B, T)] that are the transpose of a
    [(T, B)] matrix (strides [(1, B)]) make [view] raise. *)
Lemma forward_returns_counterexample :
  (exists L loss g1,
     @GPTLanguageModel.forward counting_random (zero_GPT source_hparams 65)
       (zero_tokens 1 2) (Some (contiguous (zero_tokens 1 2))) 0%nat
     = Ok ((L, Some loss), g1) /\
     shape L = [2; 65]%nat /\ shape L <> [1; 2; 65]%nat) /\
  (exists L g1,
     @GPTLanguageModel.forward counting_random (zero_GPT source_hparams 65)
       (zero_tokens 1 0) (Some (contiguous (zero_tokens 1 0))) 0%nat
     = Ok ((L, Some NaN), g1)) /\
  @GPTLanguageModel.forward counting_random (zero_GPT source_hparams 65)
    (zero_tokens 2 3) (Some (mkStrided (zero_tokens 2 3) [1; 2]%nat)) 0%nat
  = Err RuntimeError.
Proof.
  split; [|split].
  - destruct (@forward_loss counting_random source_hparams (zero_GPT source_hparams 65)
                (zero_tokens 1 2) (contiguous (zero_tokens 1 2)) 65 1 2 0%nat)
      as (L & loss & g1 & E & SL & _).
    + apply wf_zero_GPT.
    + rewrite head_size_source; lia.
    + reflexivity.
    + simpl; lia.
    + apply valid_zero_tokens; lia.
    + reflexivity.
    + reflexivity.
    + intros ix _; simpl; lia.
    + exists L, loss, g1. split; [exact E|]. split; [exact SL|].
      rewrite SL; discriminate.
  - destruct (@forward_loss counting_random source_hparams (zero_GPT source_hparams 65)
                (zero_tokens 1 0) (contiguous (zero_tokens 1 0)) 65 1 0 0%nat)
      as (L & loss & g1 & E & _ & _ & Hnan).
    + apply wf_zero_GPT.
    + rewrite head_size_source; lia.
    + reflexivity.
    + simpl; lia.
    + apply valid_zero_tokens; lia.
    + reflexivity.
    + reflexivity.
    + intros ix _; simpl; lia.
    + rewrite (Hnan eq_refl) in E. exists L, g1; exact E.
  - apply (@forward_targets_layout counting_random source_hparams
             (zero_GPT source_hparams 65) (zero_tokens 2 3)
             (mkStrided (zero_tokens 2 3) [1; 2]%nat) 65 2 3 0%nat).
    + apply wf_zero_GPT.
    + rewrite head_size_source; lia.
    + reflexivity.
    + simpl; lia.
    + apply valid_zero_tokens; lia.
    + reflexivity.
    + reflexivity.
Qed.

(** On an empty prompt the first step reads the last time step of logits
    that have none. *)
Lemma generate_empty_prompt {TR : TorchRandom} (hp : HP.t)
  (m : GPTLanguageModel.t) (V B k : nat) (prompt : Tensor Z) (g : Generator) :
  wf_GPT hp V m -> (1 <= head_size hp)%nat -> shape prompt = [B; 0%nat] ->
  GPTLanguageModel.generate hp m prompt (S k) g = Err IndexError.
Proof.
  intros Hwf Hhs Hs.
  destruct (slice_last_cols_2 prompt (HP.block_size hp) B 0 Hs)
    as (cond & Ec & Scond & _).
  assert (Sc : shape cond = [B; 0%nat])
    by (rewrite Scond; destruct (HP.block_size hp =? 0)%nat; reflexivity).
  assert (Hvc : valid_tokens V cond).
  { intros b t Hix. rewrite Sc in Hix. apply valid_ix2 in Hix. lia. }
  destruct (forward_2 hp m cond cond V B 0 g g Hwf Hhs Sc Sc ltac:(lia) Hvc Hvc)
    as (L & _ & g1 & _ & EF & _ & SL & _).
  unfold GPTLanguageModel.generate. cbn [iterM].
  unfold bind at 1. unfold GPTLanguageModel.generate_step, bind, lift.
  rewrite Ec, EF. unfold select_last_step. now rewrite SL.
Qed.

(** C3, as the code has it.  For a non-empty prompt ([T0 >= 1]) of valid
    tokens over a non-empty vocabulary and every [k], [generate] returns a
    matrix of shape [(B, T0 + k)] whose first [T0] columns are the prompt:
    every step appends one column. *)
Theorem generate_shape_prefix {TR : TorchRandom} (hp : HP.t)
  (m : GPTLanguageModel.t) (V B T0 k : nat) (prompt : Tensor Z) (g : Generator) :
  wf_GPT hp V m -> (1 <= head_size hp)%nat -> (1 <= HP.block_size hp)%nat ->
  (1 <= V)%nat -> shape prompt = [B; T0] -> (1 <= T0)%nat ->
  valid_tokens V prompt ->
  exists out g',
    GPTLanguageModel.generate hp m prompt k g = Ok (out, g') /\
    shape out = [B; (T0 + k)%nat] /\
    forall b t, (t < T0)%nat -> out.[[b; t]] = prompt.[[b; t]].
Proof.
  intros Hwf Hhs Hbs HV Hs HT Hv.
  destruct (generate_ok hp m V B k Hwf Hhs Hbs HV prompt T0 g Hs HT Hv)
    as (out & g' & E).
  destruct (generate_inv hp m V B k Hwf prompt T0 g out g' Hs E) as (So & Hpre & _).
  exists out, g'; auto.
Qed.

Lemma generate_shape_prefix_witness :
  exists out g',
    @GPTLanguageModel.generate counting_random source_hparams
      (zero_GPT source_hparams 65) (zero_tokens 2 3) 5 0%nat = Ok (out, g') /\
    shape out = [2; (3 + 5)]%nat /\
    forall b t, (t < 3)%nat -> out.[[b; t]] = (zero_tokens 2 3).[[b; t]].
Proof.
  apply (@generate_shape_prefix counting_random source_hparams
           (zero_GPT source_hparams 65) 65 2 3 5 (zero_tokens 2 3) 0%nat).
  - apply wf_zero_GPT.
  - rewrite head_size_source; lia.
  - simpl; lia.
  - lia.
  - reflexivity.
  - lia.
  - apply valid_zero_tokens; lia.
Defined.

(** C3 fails as stated on an empty prompt: the call raises [IndexError]
    instead of returning a matrix of shape [(B, 0 + k)]. *)
Lemma generate_shape_prefix_counterexample :
  @GPTLanguageModel.generate counting_random source_hparams
    (zero_GPT source_hparams 65) (zero_tokens 1 0) 1 0%nat = Err IndexError.
Proof.
  apply (@generate_empty_prompt counting_random source_hparams
           (zero_GPT source_hparams 65) 65 1 0 (zero_tokens 1 0) 0%nat).
  - apply wf_zero_GPT.
  - rewrite head_size_source; lia.
  - reflexivity.
Qed.

(** C4.  A direct call of [forward] on a sequence longer than
    [block_size] fails: the lookup of the positions [0 .. T-1] in the
    position table of [block_size] rows raises [IndexError]; no logits are
    returned, with or without targets. *)
Theorem forward_rejects_long_sequence {TR : TorchRandom} (hp : HP.t)
  (m : GPTLanguageModel.t) (V B T : nat) (idx : Tensor Z)
  (targets : option (Strided Z)) (g : Generator) :
  wf_GPT hp V m -> shape idx = [B; T] -> (HP.block_size hp < T)%nat ->
  GPTLanguageModel.forward m idx targets g = Err IndexError.
Proof.
  intros Hwf Hs HT. exact (forward_too_long hp m idx targets V B T g Hwf Hs HT).
Qed.

Lemma forward_rejects_long_sequence_witness :
  @GPTLanguageModel.forward counting_random (zero_GPT source_hparams 65)
    (zero_tokens 2 65) None 0%nat = Err IndexError.
Proof.
  apply (@forward_rejects_long_sequence counting_random source_hparams
           (zero_GPT source_hparams 65) 65 2 65 (zero_tokens 2 65) None 0%nat).
  - apply wf_zero_GPT.
  - reflexivity.
  - simpl; lia.
Defined.

(** C5, as the code has it.  Construction makes no divisibility check:
    for every head count [n_head >= 1] (and a dropout probability in
    [[0, 1]]) it returns a model whose heads have
    [head_size = n_embed // n_head] channels, the floor of the quotient,
    and whose projection takes [head_size * n_head] inputs back to
    [n_embed]. *)
Theorem init_floor_head_size {TR : TorchRandom} (hp : HP.t) (V : nat)
  (g : Generator) :
  0 <= HP.dropout hp <= 1 -> (1 <= HP.n_head hp)%nat ->
  exists m g',
    GPTLanguageModel.init hp V g = Ok (m, g') /\ wf_GPT hp V m.
Proof.
  intros Hd Hnh. exact (GPT_init_ok hp Hd V g Hnh).
Qed.

Lemma init_floor_head_size_witness :
  exists m g',
    @GPTLanguageModel.init counting_random source_hparams 65 0%nat = Ok (m, g') /\
    wf_GPT source_hparams 65 m.
Proof.
  apply (@init_floor_head_size counting_random source_hparams 65 0%nat).
  - simpl; lra.
  - simpl; lia.
Defined.

(** C5 fails as stated: with [n_embed = 10] and [n_head = 3] the
    constructor returns a model (of head size 3) and raises nothing. *)
Lemma init_floor_head_size_counterexample :
  (HP.n_embed uneven_hparams mod HP.n_head uneven_hparams <> 0)%nat /\
  exists m g',
    @GPTLanguageModel.init counting_random uneven_hparams 65 0%nat = Ok (m, g') /\
    wf_GPT uneven_hparams 65 m /\ head_size uneven_hparams = 3%nat.
Proof.
  split; [simpl; lia|].
  destruct (@GPT_init_ok counting_random uneven_hparams) with (V := 65%nat) (g := 0%nat)
    as (m & g' & E & Hwf).
  - simpl; lra.
  - simpl; lia.
  - exists m, g'; split; [exact E|]. split; [exact Hwf | reflexivity].
Qed.

(** C6.  A block is the post-normalisation composition of the
    specification: it returns [LayerNorm2(x' + FeedForward(x'))] for
    [x' = LayerNorm1(x + MultiHeadAttention(x))], each normalisation applied
    to the sum of the input and the output of its sub-layer, in that order;
    results, exceptions and generator states coincide. *)
Theorem Block_forward_post_norm {TR : TorchRandom} (b : Block.t) (x : Tensor R)
  (g : Generator) :
  Block.forward b x g = spec_block b x g.
Proof.
  unfold Block.forward, spec_block, spec_add_norm, bind, lift, ret, rbind.
  destruct (MultiHeadAttention.forward (Block.sa b) x g) as [[a g1]|e];
    [|reflexivity].
  destruct (tadd x a) as [s|e]; [|reflexivity].
  destruct (LayerNorm_forward (Block.ln1 b) s) as [x'|e]; [|reflexivity].
  destruct (FeedForward.forward (Block.ffwd b) x' g1) as [[f g2]|e]; [|reflexivity].
  destruct (tadd x' f) as [s'|e]; [|reflexivity].
  destruct (LayerNorm_forward (Block.ln2 b) s') as [x''|e]; reflexivity.
Qed.

(** C7.  With dropout disabled, a head on an input of shape
    [(B, T, n_embed)], [T <= block_size], returns a tensor of shape
    [(B, T, head_size)] whose entries are the attention of the
    specification: three unbiased linear maps, scores
    [(q_i . k_j) / sqrt(head_size)], minus infinity for [j > i], softmax
    over each row, [out_i = sum_j probs[i,j] * v_j]. *)
Theorem Head_forward_attention {TR : TorchRandom} (hp : HP.t) (h : Head.t)
  (x : Tensor R) (hs B T : nat) (g : Generator) :
  wf_Head hp hs h -> (1 <= hs)%nat -> eval_Head h ->
  shape x = [B; T; HP.n_embed hp] -> (T <= HP.block_size hp)%nat ->
  exists y,
    Head.forward h x g = Ok (y, g) /\ shape y = [B; T; hs] /\
    forall b i c, (b < B)%nat -> (i < T)%nat -> (c < hs)%nat ->
      y.[[b; i; c]] = spec_out h x (HP.n_embed hp) hs T b i c.
Proof.
  intros Hh Hhs Hev Hx HT.
  destruct (Head_forward_eval hp h x hs B T g Hh Hhs Hev Hx HT) as (y & E & S & V).
  exists y; repeat split; auto.
Qed.

Lemma Head_forward_attention_witness :
  exists y,
    @Head.forward counting_random (zero_Head source_hparams)
      (zeros [2; 8; 384]%nat) 0%nat = Ok (y, 0%nat) /\
    shape y = [2; 8; 48]%nat /\
    forall b i c, (b < 2)%nat -> (i < 8)%nat -> (c < 48)%nat ->
      y.[[b; i; c]] =
      spec_out (zero_Head source_hparams) (zeros [2; 8; 384]%nat) 384 48 8 b i c.
Proof.
  apply (@Head_forward_attention counting_random source_hparams
           (zero_Head source_hparams) (zeros [2; 8; 384]%nat) 48 2 8 0%nat).
  - exact (wf_zero_Head source_hparams).
  - lia.
  - reflexivity.
  - reflexivity.
  - simpl; lia.
Defined.

(** The loop of [generate] run with two bodies that agree. *)
Lemma iterM_ext {TR : TorchRandom} {A} (f f' : A -> M A) (k : nat) :
  (forall a g, f a g = f' a g) ->
  forall a g, iterM k f a g = iterM k f' a g.
Proof.
  intros Hf. induction k as [|k IH]; intros a g; [reflexivity|].
  cbn [iterM]. unfold bind. rewrite Hf.
  destruct (f' a g) as [[a1 g1]|e]; [apply IH | reflexivity].
Qed.

(** With dropout disabled one step of [generate] draws from a distribution
    that no generator state enters: the one computed at the state [g0]
    serves at every state. *)
Lemma generate_step_sample {TR : TorchRandom} (hp : HP.t)
  (m : GPTLanguageModel.t) (g0 : Generator) :
  eval_GPT m ->
  exists P : Tensor Z -> result (Tensor R), forall index g,
    GPTLanguageModel.generate_step hp m index g
    = spec_sample_step (P index) index g.
Proof.
  intros Hev.
  exists (fun index =>
    match slice_last_cols index (HP.block_size hp) with
    | Ok index_cond =>
        match GPTLanguageModel.forward m index_cond None g0 with
        | Ok ((logits, _), _) =>
            match select_last_step logits with
            | Ok l => Ok (F_softmax (tmap Fin l))
            | Err e => Err e
            end
        | Err e => Err e
        end
    | Err e => Err e
    end).
  intros index g.
  unfold GPTLanguageModel.generate_step, spec_sample_step, bind, lift.
  destruct (slice_last_cols index (HP.block_size hp)) as [ic|e]; [|reflexivity].
  destruct (gf_forward m ic None Hev) as [r Hr]. rewrite !Hr. unfold lift.
  destruct r as [[L o]|e]; [|reflexivity].
  destruct (select_last_step L); reflexivity.
Qed.

(** C8.  With dropout disabled [forward] neither reads nor advances the
    generator: on one input every call returns the same logits (and loss,
    or the same exception), whatever the state of the generator.  So
    [generate] is the sampling loop of the specification for a
    distribution [P] of the next token that no generator state enters
    (it can be computed at any state [g0]): the generator is read by the
    draws of [torch.multinomial] alone, and two calls from the same state
    with the same prompt and number of tokens return the same sequence
    and final state. *)
Theorem forward_generate_deterministic {TR : TorchRandom} (hp : HP.t)
  (m : GPTLanguageModel.t) (idx : Tensor Z) (targets : option (Strided Z))
  (g0 : Generator) :
  eval_GPT m ->
  generator_free (GPTLanguageModel.forward m idx targets) /\
  (forall g g' r r',
     GPTLanguageModel.forward m idx targets g = Ok r ->
     GPTLanguageModel.forward m idx targets g' = Ok r' ->
     fst r = fst r' /\ snd r = g /\ snd r' = g') /\
  (exists P : Tensor Z -> result (Tensor R),
     forall prompt k g,
       GPTLanguageModel.generate hp m prompt k g = spec_generate P prompt k g) /\
  (forall prompt k g r r',
     GPTLanguageModel.generate hp m prompt k g = Ok r ->
     GPTLanguageModel.generate hp m prompt k g = Ok r' -> r = r').
Proof.
  intros Hev. pose proof (gf_forward m idx targets Hev) as Hgf.
  split; [exact Hgf|]. split; [|split].
  - destruct Hgf as [res Hres]. intros g g' r r'.
    rewrite !Hres. destruct res as [a|e]; simpl; [|discriminate].
    intros H H'; inversion H; inversion H'; subst; simpl; auto.
  - destruct (generate_step_sample hp m g0 Hev) as [P HP].
    exists P. intros prompt k g.
    unfold GPTLanguageModel.generate, spec_generate.
    now apply iterM_ext.
  - intros prompt k g r r' E E'. congruence.
Qed.

Lemma forward_generate_deterministic_witness :
  generator_free
    (@GPTLanguageModel.forward counting_random (zero_GPT source_hparams 65)
       (zero_tokens 2 8) None) /\
  (forall g g' r r',
     @GPTLanguageModel.forward counting_random (zero_GPT source_hparams 65)
       (zero_tokens 2 8) None g = Ok r ->
     @GPTLanguageModel.forward counting_random (zero_GPT source_hparams 65)
       (zero_tokens 2 8) None g' = Ok r' ->
     fst r = fst r' /\ snd r = g /\ snd r' = g') /\
  (exists P : Tensor Z -> result (Tensor R),
     forall prompt k g,
       @GPTLanguageModel.generate counting_random source_hparams
         (zero_GPT source_hparams 65) prompt k g
       = @spec_generate counting_random P prompt k g) /\
  (forall prompt k g r r',
     @GPTLanguageModel.generate counting_random source_hparams
       (zero_GPT source_hparams 65) prompt k g = Ok r ->
     @GPTLanguageModel.generate counting_random source_hparams
       (zero_GPT source_hparams 65) prompt k g = Ok r' -> r = r').
Proof.
  apply (@forward_generate_deterministic counting_random source_hparams
           (zero_GPT source_hparams 65) (zero_tokens 2 8) None 0%nat).
  apply eval_zero_GPT.
Defined.

(** C9, as the code has it.  The targets are only flattened with
    [view(B * T)], and their shape is never compared with [(B, T)].
    Targets whose number of elements is not [B * T] make the call fail
    ([RuntimeError]), and so do targets whose strides do not let [view]
    flatten them.  Targets with [B * T] elements, in a layout that [view]
    can flatten (contiguous, for one) and with every class in the
    vocabulary, are accepted whatever their shape, and a loss is
    returned. *)
Theorem forward_targets_flattened {TR : TorchRandom} (hp : HP.t)
  (m : GPTLanguageModel.t) (V B T : nat) (idx : Tensor Z) (g : Generator) :
  wf_GPT hp V m -> (1 <= head_size hp)%nat ->
  shape idx = [B; T] -> (T <= HP.block_size hp)%nat -> valid_tokens V idx ->
  (forall tg : Strided Z, numel (shape tg) <> (B * T)%nat ->
     GPTLanguageModel.forward m idx (Some tg) g = Err RuntimeError) /\
  (forall tg : Strided Z, numel (shape tg) = (B * T)%nat ->
     flattenable tg = false ->
     GPTLanguageModel.forward m idx (Some tg) g = Err RuntimeError) /\
  (forall tg : Strided Z, numel (shape tg) = (B * T)%nat ->
     flattenable tg = true ->
     (forall ix, valid_ix (shape tg) ix -> (0 <= tg.[ix] < Z.of_nat V)%Z) ->
     exists L loss g1,
       GPTLanguageModel.forward m idx (Some tg) g = Ok ((L, Some loss), g1)).
Proof.
  intros Hwf Hhs Hs HT Hv; split; [|split].
  - intros tg Hn.
    exact (forward_targets_numel hp m idx tg V B T g Hwf Hhs Hs HT Hv Hn).
  - intros tg Hn Hf.
    exact (forward_targets_layout hp m idx tg V B T g Hwf Hhs Hs HT Hv Hn Hf).
  - intros tg Hn Hf Hr.
    destruct (forward_loss hp m idx tg V B T g Hwf Hhs Hs HT Hv Hn Hf Hr)
      as (L & loss & g1 & E & _).
    exists L, loss, g1; exact E.
Qed.

Lemma forward_targets_flattened_witness :
  (forall tg : Strided Z, numel (shape tg) <> (2 * 8)%nat ->
     @GPTLanguageModel.forward counting_random (zero_GPT source_hparams 65)
       (zero_tokens 2 8) (Some tg) 0%nat = Err RuntimeError) /\
  (forall tg : Strided Z, numel (shape tg) = (2 * 8)%nat ->
     flattenable tg = false ->
     @GPTLanguageModel.forward counting_random (zero_GPT source_hparams 65)
       (zero_tokens 2 8) (Some tg) 0%nat = Err RuntimeError) /\
  (forall tg : Strided Z, numel (shape tg) = (2 * 8)%nat ->
     flattenable tg = true ->
     (forall ix, valid_ix (shape tg) ix -> (0 <= tg.[ix] < Z.of_nat 65)%Z) ->
     exists L loss g1,
       @GPTLanguageModel.forward counting_random (zero_GPT source_hparams 65)
         (zero_tokens 2 8) (Some tg) 0%nat = Ok ((L, Some loss), g1)).
Proof.
  apply (@forward_targets_flattened counting_random source_hparams
           (zero_GPT source_hparams 65) 65 2 8 (zero_tokens 2 8) 0%nat).
  - apply wf_zero_GPT.
  - rewrite head_size_source; lia.
  - reflexivity.
  - simpl; lia.
  - apply valid_zero_tokens; lia.
Defined.

(** C9 fails as stated: for an index matrix of shape [(1, 2)], contiguous
    targets of shape [(2, 1)] are flattened without complaint and a loss
    is returned. *)
Lemma forward_targets_flattened_counterexample :
  shape (zero_tokens 2 1) <> shape (zero_tokens 1 2) /\
  exists L loss g1,
    @GPTLanguageModel.forward counting_random (zero_GPT source_hparams 65)
      (zero_tokens 1 2) (Some (contiguous (zero_tokens 2 1))) 0%nat
    = Ok ((L, Some loss), g1).
Proof.
  split; [discriminate|].
  destruct (@forward_loss counting_random source_hparams (zero_GPT source_hparams 65)
              (zero_tokens 1 2) (contiguous (zero_tokens 2 1)) 65 1 2 0%nat)
    as (L & loss & g1 & E & _).
  - apply wf_zero_GPT.
  - rewrite head_size_source; lia.
  - reflexivity.
  - simpl; lia.
  - apply valid_zero_tokens; lia.
  - reflexivity.
  - reflexivity.
  - intros ix _; simpl; lia.
  - exists L, loss, g1; exact E.
Qed.

(** C10.  [generate] with no new token returns the prompt as it is.
    Whenever [generate] returns, every token it appended (the columns
    [T0 .. T0 + k - 1]) is a class of the vocabulary, so a prompt within
    the vocabulary gives a sequence within the vocabulary. *)
Theorem generate_tokens_in_vocabulary {TR : TorchRandom} (hp : HP.t)
  (m : GPTLanguageModel.t) (V B T0 k : nat) (prompt out : Tensor Z)
  (g g' : Generator) :
  wf_GPT hp V m -> shape prompt = [B; T0] ->
  GPTLanguageModel.generate hp m prompt k g = Ok (out, g') ->
  GPTLanguageModel.generate hp m prompt 0 g = Ok (prompt, g) /\
  (forall b t, (b < B)%nat -> (T0 <= t < T0 + k)%nat ->
     (0 <= out.[[b; t]] < Z.of_nat V)%Z) /\
  (valid_tokens V prompt -> valid_tokens V out).
Proof.
  intros Hwf Hs E.
  destruct (generate_inv hp m V B k Hwf prompt T0 g out g' Hs E)
    as (So & Hpre & Hnew).
  split; [reflexivity|]. split; [exact Hnew|].
  intros Hv. apply (valid_tokens_2 V out B (T0 + k) So). intros b t Hb Ht.
  destruct (Nat.lt_ge_cases t T0) as [Hlt|Hge].
  - rewrite Hpre by assumption.
    now apply (proj1 (valid_tokens_2 V prompt B T0 Hs) Hv).
  - apply Hnew; [assumption | lia].
Qed.

Lemma generate_tokens_in_vocabulary_witness :
  exists out g',
    @GPTLanguageModel.generate counting_random source_hparams
      (zero_GPT source_hparams 65) (zero_tokens 2 3) 4 0%nat = Ok (out, g') /\
    (forall b t, (b < 2)%nat -> (3 <= t < 3 + 4)%nat ->
       (0 <= out.[[b; t]] < Z.of_nat 65)%Z) /\
    valid_tokens 65 out.
Proof.
  destruct (@generate_ok counting_random source_hparams (zero_GPT source_hparams 65)
              65 2 4 (wf_zero_GPT source_hparams 65)
              ltac:(rewrite head_size_source; lia) ltac:(simpl; lia) ltac:(lia)
              (zero_tokens 2 3) 3%nat 0%nat eq_refl ltac:(lia)
              (valid_zero_tokens 65 2 3 ltac:(lia)))
    as (out & g' & E).
  exists out, g'. split; [exact E|].
  destruct (@generate_tokens_in_vocabulary counting_random source_hparams
              (zero_GPT source_hparams 65) 65 2 3 4 (zero_tokens 2 3) out 0%nat g'
              (wf_zero_GPT source_hparams 65) eq_refl E) as (_ & Hnew & Hval).
  split; [exact Hnew|]. apply Hval. apply valid_zero_tokens; lia.
Defined.

(** * Further properties of the code *)

(** ** Errors of the forward pass *)

Lemma Embedding_forward_bad_index (e : Embedding) (idx : Tensor Z) (n d : nat)
  (ix : list nat) :
  wf_Embedding n d e -> valid_ix (shape idx) ix ->
  ~ (0 <= idx.[ix] < Z.of_nat n)%Z ->
  Embedding_forward e idx = Err IndexError.
Proof.
  intros He Hix Hbad. unfold Embedding_forward. rewrite He.
  destruct (forallb _ _) eqn:E; [|reflexivity].
  rewrite forallb_forall in E.
  apply in_all_indices in Hix. apply E, in_table_spec in Hix. contradiction.
Qed.

(** X1.  For a model whose token table holds at least one row and one
    column ([vocab_size >= 1], [n_embed >= 1]), a token outside
    [[0, vocab_size)] anywhere in the index matrix makes [forward] fail
    with [IndexError], whatever the sequence length and the targets. *)
Theorem forward_rejects_bad_token {TR : TorchRandom} (hp : HP.t)
  (m : GPTLanguageModel.t) (V B T : nat) (idx : Tensor Z)
  (targets : option (Strided Z)) (b t : nat) (g : Generator) :
  wf_GPT hp V m -> (1 <= V)%nat -> (1 <= HP.n_embed hp)%nat ->
  shape idx = [B; T] -> (b < B)%nat -> (t < T)%nat ->
  ~ (0 <= idx.[[b; t]] < Z.of_nat V)%Z ->
  GPTLanguageModel.forward m idx targets g = Err IndexError.
Proof.
  intros (Htok & _) _ _ Hs Hb Ht Hbad.
  unfold GPTLanguageModel.forward, bind, lift.
  rewrite Hs; cbn [unpack2].
  rewrite (Embedding_forward_bad_index _ idx V _ [b; t] Htok); auto.
  rewrite Hs. now apply valid_ix2.
Qed.

Lemma forward_rejects_bad_token_witness :
  @GPTLanguageModel.forward counting_random (zero_GPT source_hparams 5)
    (iota_tokens 2 3) None 0%nat = Err IndexError.
Proof.
  apply (@forward_rejects_bad_token counting_random source_hparams
           (zero_GPT source_hparams 5) 5 2 3 (iota_tokens 2 3) None 1 2 0%nat).
  - apply wf_zero_GPT.
  - lia.
  - simpl; lia.
  - reflexivity.
  - lia.
  - lia.
  - simpl; lia.
Defined.

Lemma F_cross_entropy_bad_target (logits : Tensor R) (targets : Tensor Z)
  (N C n : nat) :
  shape logits = [N; C] -> shape targets = [N] -> (n < N)%nat ->
  targets.[[n]] <> ignore_index ->
  ~ (0 <= targets.[[n]] < Z.of_nat C)%Z ->
  F_cross_entropy logits targets = Err IndexError.
Proof.
  intros Hl Ht Hn Hig Hbad. unfold F_cross_entropy.
  rewrite Hl, Ht, Nat.eqb_refl.
  destruct (forallb _ _) eqn:E; [|reflexivity].
  rewrite forallb_forall in E.
  specialize (E n ltac:(apply in_seq; lia)). unfold target_ok in E.
  apply orb_true_iff in E as [E|E].
  - apply Z.eqb_eq in E. contradiction.
  - apply andb_true_iff in E as [E1 E2].
    apply Z.leb_le in E1. apply Z.ltb_lt in E2. lia.
Qed.

Lemma unravel_2 (B T k : nat) : unravel [B; T] k = [(k / T)%nat; (k mod T)%nat].
Proof.
  cbn [unravel numel fold_right].
  now rewrite !Nat.mul_1_r, Nat.div_1_r.
Qed.

Section TargetFacts.
Context {TR : TorchRandom}.
Variable hp : HP.t.

Lemma forward_bad_target (m : GPTLanguageModel.t) (idx : Tensor Z)
  (tg : Strided Z) (V B T n : nat) g :
  wf_GPT hp V m -> (1 <= head_size hp)%nat ->
  shape idx = [B; T] -> (T <= HP.block_size hp)%nat -> valid_tokens V idx ->
  numel (shape tg) = (B * T)%nat -> flattenable tg = true -> (n < B * T)%nat ->
  tg.[unravel (shape tg) n] <> ignore_index ->
  ~ (0 <= tg.[unravel (shape tg) n] < Z.of_nat V)%Z ->
  GPTLanguageModel.forward m idx (Some tg) g = Err IndexError.
Proof.
  intros Hwf Hhs Hs HT Hv Hn Hf Hlt Hig Hbad.
  destruct (forward_2 hp m idx idx V B T g g Hwf Hhs Hs Hs HT Hv Hv)
    as (L & _ & g1 & _ & E & _ & SL & _).
  rewrite (forward_targets m idx tg g L g1 E).
  destruct (view_logits L B T V SL) as (L2 & E2 & S2).
  unfold flattenable in Hf. rewrite Hn in Hf.
  destruct (view_flat tg (strides tg) _ Hn Hf) as (t2 & Et & St & Vt).
  unfold bind, lift, ret. rewrite SL; cbn [unpack3]. rewrite E2, Et.
  rewrite (F_cross_entropy_bad_target L2 t2 _ _ n S2 St Hlt); auto;
    now rewrite Vt.
Qed.

(** The flattened logits hold the entries of the 3-D logits in row-major
    order. *)
Lemma view_logits_values (L L2 : Tensor R) (st : list nat) (B T C n c : nat) :
  shape L = [B; T; C] -> view L st [(B * T)%nat; C] = Ok L2 ->
  (n < B * T)%nat -> (c < C)%nat ->
  L2.[[n; c]] = L.[[(n / T)%nat; (n mod T)%nat; c]].
Proof.
  intros HL. unfold view. rewrite HL.
  destruct (_ =? _)%nat; [|discriminate].
  destruct (viewable _ _ _); [|discriminate].
  intros H Hn Hc; inversion H; subst.
  cbn [at_ ravel unravel numel fold_right].
  match goal with |- context [fst (Nat.divmod ?x 0 0 0)] =>
    change (fst (Nat.divmod x 0 0 0)) with (x / 1)%nat end.
  rewrite !Nat.mul_1_r, Nat.add_0_r, Nat.div_1_r.
  assert (HT : (0 < T)%nat) by (destruct T; lia).
  assert (E1 : ((n * C + c) / C = n)%nat).
  { rewrite Nat.div_add_l by lia. rewrite Nat.div_small by lia. lia. }
  assert (E2 : ((n * C + c) mod C = c)%nat).
  { rewrite Nat.add_comm, Nat.Div0.mod_add. now apply Nat.mod_small. }
  assert (E3 : ((n * C + c) / (T * C) = n / T)%nat).
  { rewrite (Nat.mul_comm T C), <- Nat.Div0.div_div, E1. reflexivity. }
  assert (E4 : ((n * C + c) mod (T * C) = (n mod T) * C + c)%nat).
  { rewrite (Nat.mul_comm T C), Nat.Div0.mod_mul_r, E1, E2. lia. }
  rewrite E3, E4.
  replace (((n mod T) * C + c) / C)%nat with (n mod T)%nat.
  - replace (((n mod T) * C + c) mod C)%nat with c; [reflexivity|].
    rewrite Nat.add_comm, Nat.Div0.mod_add. symmetry; now apply Nat.mod_small.
  - rewrite Nat.div_add_l by lia. rewrite Nat.div_small by lia. lia.
Qed.
End TargetFacts.

(** X2.  For targets of shape [(B, T)] in a layout that [view(B * T)]
    accepts (contiguous, for one), a target class outside
    [[0, vocab_size)] (other than the ignored class -100) makes [forward]
    fail with [IndexError] in the loss. *)
Theorem forward_rejects_bad_target {TR : TorchRandom} (hp : HP.t)
  (m : GPTLanguageModel.t) (V B T : nat) (idx : Tensor Z) (tg : Strided Z)
  (b t : nat) (g : Generator) :
  wf_GPT hp V m -> (1 <= head_size hp)%nat ->
  shape idx = [B; T] -> (T <= HP.block_size hp)%nat -> valid_tokens V idx ->
  shape tg = [B; T] -> flattenable tg = true -> (b < B)%nat -> (t < T)%nat ->
  tg.[[b; t]] <> ignore_index -> ~ (0 <= tg.[[b; t]] < Z.of_nat V)%Z ->
  GPTLanguageModel.forward m idx (Some tg) g = Err IndexError.
Proof.
  intros Hwf Hhs Hs HT Hv Htg Hf Hb Ht Hig Hbad.
  assert (Hn : numel (shape tg) = (B * T)%nat) by (rewrite Htg; simpl; lia).
  assert (Hu : unravel (shape tg) (b * T + t) = [b; t]).
  { rewrite Htg, unravel_2.
    assert (E1 : ((b * T + t) / T = b)%nat).
    { rewrite Nat.div_add_l by lia. rewrite (Nat.div_small t T) by lia. lia. }
    assert (E2 : ((b * T + t) mod T = t)%nat).
    { rewrite (Nat.add_comm (b * T) t), Nat.Div0.mod_add. now apply Nat.mod_small. }
    now rewrite E1, E2. }
  apply (forward_bad_target hp m idx tg V B T (b * T + t) g); auto.
  - nia.
  - now rewrite Hu.
  - now rewrite Hu.
Qed.

Lemma forward_rejects_bad_target_witness :
  @GPTLanguageModel.forward counting_random (zero_GPT source_hparams 5)
    (zero_tokens 2 3) (Some (contiguous (iota_tokens 2 3))) 0%nat = Err IndexError.
Proof.
  apply (@forward_rejects_bad_target counting_random source_hparams
           (zero_GPT source_hparams 5) 5 2 3 (zero_tokens 2 3)
           (contiguous (iota_tokens 2 3)) 1 2 0%nat).
  - apply wf_zero_GPT.
  - rewrite head_size_source; lia.
  - reflexivity.
  - simpl; lia.
  - apply valid_zero_tokens; lia.
  - reflexivity.
  - reflexivity.
  - lia.
  - lia.
  - simpl; unfold ignore_index; lia.
  - simpl; lia.
Defined.

(** X3.  With targets, the logits [forward] returns are the logits of
    the call without targets read in row-major order: entry [(n, c)] of the
    flattened tensor is entry [(n // T, n % T, c)] of the 3-D one, and the
    generator is left in the same state. *)
Theorem forward_flattened_logits {TR : TorchRandom}
  (m : GPTLanguageModel.t) (V B T : nat) (idx : Tensor Z) (tg : Strided Z)
  (L L2 : Tensor R) (loss : option scalar) (g g1 g2 : Generator) :
  shape L = [B; T; V] ->
  GPTLanguageModel.forward m idx None g = Ok ((L, None), g1) ->
  GPTLanguageModel.forward m idx (Some tg) g = Ok ((L2, loss), g2) ->
  g2 = g1 /\ shape L2 = [(B * T)%nat; V] /\
  forall n c, (n < B * T)%nat -> (c < V)%nat ->
    L2.[[n; c]] = L.[[(n / T)%nat; (n mod T)%nat; c]].
Proof.
  intros SL E. rewrite (forward_targets m idx tg g L g1 E).
  unfold bind, lift, ret. rewrite SL; cbn [unpack3].
  destruct (view_logits L B T V SL) as (L2' & E2 & S2). rewrite E2.
  destruct (view tg (strides tg) [(B * T)%nat]) as [t2|]; [|discriminate].
  destruct (F_cross_entropy L2' t2) as [l|]; [|discriminate].
  intros H; inversion H; subst. repeat split; auto.
  intros n c Hn Hc. now apply (view_logits_values L L2 _ B T V n c SL E2).
Qed.

Lemma forward_flattened_logits_witness :
  exists L L2 loss g1 g2,
    @GPTLanguageModel.forward counting_random (zero_GPT source_hparams 65)
      (zero_tokens 2 3) None 0%nat = Ok ((L, None), g1) /\
    @GPTLanguageModel.forward counting_random (zero_GPT source_hparams 65)
      (zero_tokens 2 3) (Some (contiguous (zero_tokens 2 3))) 0%nat
    = Ok ((L2, loss), g2) /\
    g2 = g1 /\ shape L2 = [(2 * 3)%nat; 65%nat] /\
    forall n c, (n < 2 * 3)%nat -> (c < 65)%nat ->
      L2.[[n; c]] = L.[[(n / 3)%nat; (n mod 3)%nat; c]].
Proof.
  destruct (@forward_2 counting_random source_hparams (zero_GPT source_hparams 65)
              (zero_tokens 2 3) (zero_tokens 2 3) 65 2 3 0%nat 0%nat
              (wf_zero_GPT source_hparams 65)
              ltac:(rewrite head_size_source; lia) eq_refl eq_refl
              ltac:(simpl; lia) (valid_zero_tokens 65 2 3 ltac:(lia))
              (valid_zero_tokens 65 2 3 ltac:(lia)))
    as (L & _ & g1 & _ & E & _ & SL & _).
  destruct (@forward_loss counting_random source_hparams (zero_GPT source_hparams 65)
              (zero_tokens 2 3) (contiguous (zero_tokens 2 3)) 65 2 3 0%nat
              (wf_zero_GPT source_hparams 65)
              ltac:(rewrite head_size_source; lia) eq_refl
              ltac:(simpl; lia) (valid_zero_tokens 65 2 3 ltac:(lia)) eq_refl
              eq_refl ltac:(intros ix _; simpl; lia))
    as (L2 & loss & g2 & E2 & _).
  exists L, L2, (Some loss), g1, g2.
  split; [exact E|]. split; [exact E2|].
  exact (@forward_flattened_logits counting_random (zero_GPT source_hparams 65)
           65 2 3 (zero_tokens 2 3) (contiguous (zero_tokens 2 3)) L L2
           (Some loss) 0%nat g1 g2 SL E E2).
Defined.

(** ** The loop of [generate] *)

(** X4.  Generation composes: asking for [k1 + k2] tokens is asking for
    [k1] tokens and then for [k2] more from the sequence and the generator
    state the first call left, errors included. *)
Theorem generate_add {TR : TorchRandom} (hp : HP.t) (m : GPTLanguageModel.t)
  (k1 k2 : nat) (index : Tensor Z) (g : Generator) :
  GPTLanguageModel.generate hp m index (k1 + k2) g =
  bind (GPTLanguageModel.generate hp m index k1)
       (fun mid => GPTLanguageModel.generate hp m mid k2) g.
Proof.
  unfold GPTLanguageModel.generate. revert index g.
  induction k1 as [|k1 IH]; intros index g.
  - reflexivity.
  - cbn [Nat.add iterM]. unfold bind.
    destruct (GPTLanguageModel.generate_step hp m index g) as [[mid g1]|e];
      [|reflexivity].
    rewrite IH. reflexivity.
Qed.

(** ** Errors of one head *)

Lemma masked_fill_too_long (w : Tensor R) (mask : Tensor bool) (v : xreal)
  (B T n : nat) :
  shape w = [B; T; T] -> shape mask = [n; n] -> (n < T)%nat -> n <> 1%nat ->
  masked_fill w mask v = Err RuntimeError.
Proof.
  intros Hw Hm Hlt Hn1. unfold masked_fill, broadcast_shapes.
  rewrite Hw, Hm; simpl.
  destruct (Nat.eqb_spec T n); [lia|].
  destruct (Nat.eqb_spec T 1) as [->|HT1]; simpl.
  - assert (n = 0%nat) by lia; subst n. simpl.
    now rewrite andb_false_r.
  - destruct (Nat.eqb_spec n 1); [contradiction | reflexivity].
Qed.

Section HeadErrors.
Context {TR : TorchRandom}.
Variable hp : HP.t.

Lemma Head_forward_too_long (h : Head.t) (x : Tensor R) (hs B T : nat) g :
  wf_Head hp hs h -> (1 <= hs)%nat ->
  shape x = [B; T; HP.n_embed hp] ->
  (HP.block_size hp < T)%nat -> HP.block_size hp <> 1%nat ->
  Head.forward h x g = Err RuntimeError.
Proof.
  intros (Hk & Hq & Hv & Ht) Hhs Hx HT Hb1.
  destruct (Linear_forward_3 _ _ _ _ _ B T Hk Hx) as (k & Ek & Sk & _).
  destruct (Linear_forward_3 _ _ _ _ _ B T Hq Hx) as (q & Eq & Sq & _).
  destruct (transpose_last2_3 _ _ _ _ Sk) as (kT & EkT & SkT & _).
  destruct (matmul_3 _ _ _ _ _ _ Sq SkT) as (qk & Eqk & Sqk & _).
  unfold Head.forward, bind, lift.
  rewrite Hx; cbn [unpack3].
  rewrite Ek, Eq, EkT, Eqk, Sk; cbn [last].
  rewrite (pow_neg_half_pos _ Hhs).
  destruct Ht as [St _]. unfold slice2. rewrite St.
  rewrite (masked_fill_too_long _ _ NegInf B T (HP.block_size hp)); auto.
  simpl. now rewrite !Nat.min_r by lia.
Qed.
End HeadErrors.

(** X5.  Called on a sequence longer than [block_size] (for a
    [block_size] of at least 2), a head fails with [RuntimeError]: the
    [block_size x block_size] mask cannot be broadcast to the [T x T]
    scores. *)
Theorem Head_rejects_long_sequence {TR : TorchRandom} (hp : HP.t) (h : Head.t)
  (x : Tensor R) (hs B T : nat) (g : Generator) :
  wf_Head hp hs h -> (1 <= hs)%nat ->
  shape x = [B; T; HP.n_embed hp] ->
  (2 <= HP.block_size hp)%nat -> (HP.block_size hp < T)%nat ->
  Head.forward h x g = Err RuntimeError.
Proof.
  intros Hh Hhs Hx Hb HT.
  apply (Head_forward_too_long hp h x hs B T g Hh Hhs Hx HT). lia.
Qed.

Lemma Head_rejects_long_sequence_witness :
  @Head.forward counting_random (zero_Head source_hparams)
    (zeros [2; 65; 384]%nat) 0%nat = Err RuntimeError.
Proof.
  apply (@Head_rejects_long_sequence counting_random source_hparams
           (zero_Head source_hparams) (zeros [2; 65; 384]%nat) 48 2 65 0%nat).
  - exact (wf_zero_Head source_hparams).
  - lia.
  - reflexivity.
  - simpl; lia.
  - simpl; lia.
Defined.

(** ** Heads without channels *)

Section NoChannel.
Context {TR : TorchRandom}.
Variable hp : HP.t.

Lemma forward_no_channel (m : GPTLanguageModel.t) (idx : Tensor Z)
  (targets : option (Strided Z)) (V B T : nat) g :
  wf_GPT hp V m -> head_size hp = 0%nat ->
  (1 <= HP.n_head hp)%nat -> (1 <= HP.n_layer hp)%nat ->
  shape idx = [B; T] -> (T <= HP.block_size hp)%nat -> valid_tokens V idx ->
  GPTLanguageModel.forward m idx targets g = Err ZeroDivisionError.
Proof.
  intros (Htok & Hpos & Hlen & Hbs & _) Hhs Hnh Hnl Hs HT Hv.
  destruct (Embedding_forward_tokens _ idx _ _ B T Htok Hs Hv) as (te & Ete & Ste & _).
  destruct (Embedding_forward_arange _ _ _ T Hpos HT) as (pe & Epe & Spe & _).
  destruct (tadd_3_2 te pe B T _ Ste Spe) as (x & Ex & Sx & _).
  unfold GPTLanguageModel.forward, bind, lift.
  rewrite Hs; cbn [unpack2]. rewrite Ete, Epe, Ex.
  destruct (GPTLanguageModel.blocks m) as [|b bs]; [simpl in Hlen; lia|].
  inversion Hbs as [|? ? Hb _]; subst.
  destruct Hb as ((Hhl & Hheads & _) & _).
  cbn [foldM]. unfold bind.
  unfold Block.forward, bind. unfold MultiHeadAttention.forward, bind.
  destruct (MultiHeadAttention.heads (Block.sa b)) as [|h hs_]; [simpl in Hhl; lia|].
  inversion Hheads as [|? ? Hh _]; subst.
  cbn [mapM]. unfold bind.
  fold (head_size hp) in Hh. rewrite Hhs in Hh.
  now rewrite (Head_forward_no_channel hp h x B T g Hh Sx).
Qed.
End NoChannel.

(** X6.  With more heads than embedding channels ([n_embed < n_head],
    so [n_embed // n_head = 0]) and at least one layer, the constructor
    still returns a model, and every call of [forward] on a valid input
    fails with [ZeroDivisionError] (from [0 ** -0.5] in the first head). *)
Theorem init_then_forward_no_channel {TR : TorchRandom} (hp : HP.t) (V : nat)
  (g : Generator) :
  0 <= HP.dropout hp <= 1 -> (1 <= HP.n_head hp)%nat ->
  (HP.n_embed hp < HP.n_head hp)%nat -> (1 <= HP.n_layer hp)%nat ->
  exists m g',
    GPTLanguageModel.init hp V g = Ok (m, g') /\
    forall idx targets B T g2,
      shape idx = [B; T] -> (T <= HP.block_size hp)%nat -> valid_tokens V idx ->
      GPTLanguageModel.forward m idx targets g2 = Err ZeroDivisionError.
Proof.
  intros Hd Hnh Hlt Hnl.
  destruct (GPT_init_ok hp Hd V g Hnh) as (m & g' & E & Hwf).
  exists m, g'; split; [exact E|].
  intros idx targets B T g2 Hs HT Hv.
  apply (forward_no_channel hp m idx targets V B T g2 Hwf); auto.
  unfold head_size. now apply Nat.div_small.
Qed.

Lemma init_then_forward_no_channel_witness :
  exists m g',
    @GPTLanguageModel.init counting_random crowded_hparams 65 0%nat = Ok (m, g') /\
    forall idx targets B T g2,
      shape idx = [B; T] -> (T <= HP.block_size crowded_hparams)%nat ->
      valid_tokens 65 idx ->
      @GPTLanguageModel.forward counting_random m idx targets g2
      = Err ZeroDivisionError.
Proof.
  apply (@init_then_forward_no_channel counting_random crowded_hparams 65 0%nat).
  - simpl; lra.
  - simpl; lia.
  - simpl; lia.
  - simpl; lia.
Defined.

(** ** Attention weights *)

Lemma Rsum_head (n : nat) (f : nat -> R) :
  (forall k, (1 <= k < S n)%nat -> f k = 0) -> Rsum (S n) f = f 0%nat.
Proof.
  induction n as [|n IH]; intros H; simpl; [lra|].
  change (Rsum n f + f n) with (Rsum (S n) f).
  rewrite IH by (intros; apply H; lia). rewrite (H (S n)) by lia. lra.
Qed.

Lemma xexp_nonneg (x : xreal) : 0 <= xexp x.
Proof. destruct x; simpl; [apply Rlt_le, exp_pos | lra]. Qed.

Lemma spec_probs_nonneg (h : Head.t) (x : Tensor R) (n hs T b i j : nat) :
  0 <= spec_probs h x n hs T b i j.
Proof.
  unfold spec_probs, Rdiv.
  assert (Hd : 0 <= Rsum T (fun j' => xexp (spec_scores h x n hs b i j')))
    by (apply Rsum_nonneg; intros; apply xexp_nonneg).
  destruct Hd as [Hpos|Hz].
  - apply Rmult_le_pos; [apply xexp_nonneg|]. apply Rlt_le, Rinv_0_lt_compat, Hpos.
  - rewrite <- Hz, Rinv_0, Rmult_0_r. lra.
Qed.

Lemma spec_scores_denominator (h : Head.t) (x : Tensor R) (n hs T b i : nat) :
  (i < T)%nat -> 0 < Rsum T (fun j => xexp (spec_scores h x n hs b i j)).
Proof.
  intros Hi.
  apply Rlt_le_trans with (xexp (spec_scores h x n hs b i i)).
  - unfold spec_scores. rewrite Nat.ltb_irrefl. simpl. apply exp_pos.
  - apply (Rsum_term_le T (fun j => xexp (spec_scores h x n hs b i j)) i);
      [intros; apply xexp_nonneg | exact Hi].
Qed.

Lemma spec_probs_sum (h : Head.t) (x : Tensor R) (n hs T b i : nat) :
  (i < T)%nat -> Rsum T (fun j => spec_probs h x n hs T b i j) = 1.
Proof.
  intros Hi. unfold spec_probs, Rdiv. rewrite Rsum_scal_r.
  apply Rinv_r. apply Rgt_not_eq, Rlt_gt. now apply spec_scores_denominator.
Qed.

(** X7.  With dropout disabled, every output row of a head is a convex
    combination of the value rows of its own and earlier positions: there
    are weights, not negative, zero for every later position and of sum 1
    on each row, with [out[b,i,:] = sum_j p[b,i,j] * v[b,j,:]] where
    [v = value(x)].  In particular the first position returns its own value
    row. *)
Theorem Head_forward_convex {TR : TorchRandom} (hp : HP.t) (h : Head.t)
  (x : Tensor R) (hs B T : nat) (g : Generator) :
  wf_Head hp hs h -> (1 <= hs)%nat -> eval_Head h ->
  shape x = [B; T; HP.n_embed hp] -> (T <= HP.block_size hp)%nat ->
  exists y v (p : nat -> nat -> nat -> R),
    Head.forward h x g = Ok (y, g) /\
    Linear_forward (Head.value h) x = Ok v /\
    (forall b i j, 0 <= p b i j) /\
    (forall b i j, (i < j)%nat -> p b i j = 0) /\
    (forall b i, (i < T)%nat -> Rsum T (fun j => p b i j) = 1) /\
    (forall b i c, (i < T)%nat ->
       y.[[b; i; c]] = Rsum T (fun j => p b i j * v.[[b; j; c]])) /\
    (forall b c, (1 <= T)%nat -> y.[[b; 0%nat; c]] = v.[[b; 0%nat; c]]).
Proof.
  intros Hh Hhs Hev Hx HT.
  destruct (Head_forward_eval hp h x hs B T g Hh Hhs Hev Hx HT) as (y & E & _ & Vy).
  destruct Hh as (_ & _ & Hv & _).
  destruct (Linear_forward_3 _ _ _ _ _ B T Hv Hx) as (v & Ev & _ & Vv).
  assert (Hbias : bias (Head.value h) = None).
  { destruct Hv as [_ Hb]. destruct (bias (Head.value h));
      [destruct Hb; discriminate | reflexivity]. }
  assert (Hval : forall b j c, v.[[b; j; c]] = spec_v h x (HP.n_embed hp) b j c).
  { intros. rewrite Vv, Hbias. unfold spec_v, spec_linear. lra. }
  assert (Hout : forall b i c, (i < T)%nat ->
            y.[[b; i; c]] =
            Rsum T (fun j => spec_probs h x (HP.n_embed hp) hs T b i j * v.[[b; j; c]])).
  { intros b i c Hi. rewrite (Vy b i c Hi). unfold spec_out.
    apply Rsum_ext; intros j _. now rewrite Hval. }
  exists y, v, (spec_probs h x (HP.n_embed hp) hs T).
  split; [exact E|]. split; [exact Ev|].
  split; [intros; apply spec_probs_nonneg|].
  split; [intros; now apply spec_probs_future|].
  split; [intros; now apply spec_probs_sum|].
  split; [exact Hout|].
  intros b c H1. destruct T as [|T]; [lia|].
  rewrite (Hout b 0%nat c) by lia.
  rewrite Rsum_head.
  - pose proof (spec_probs_sum h x (HP.n_embed hp) hs (S T) b 0 ltac:(lia)) as Hs.
    rewrite Rsum_head in Hs by (intros; apply spec_probs_future; lia).
    rewrite Hs. lra.
  - intros k Hk. rewrite spec_probs_future by lia. lra.
Qed.

Lemma Head_forward_convex_witness :
  exists y v (p : nat -> nat -> nat -> R),
    @Head.forward counting_random (zero_Head source_hparams)
      (zeros [2; 8; 384]%nat) 0%nat = Ok (y, 0%nat) /\
    Linear_forward (Head.value (zero_Head source_hparams)) (zeros [2; 8; 384]%nat)
      = Ok v /\
    (forall b i j, 0 <= p b i j) /\
    (forall b i j, (i < j)%nat -> p b i j = 0) /\
    (forall b i, (i < 8)%nat -> Rsum 8 (fun j => p b i j) = 1) /\
    (forall b i c, (i < 8)%nat ->
       y.[[b; i; c]] = Rsum 8 (fun j => p b i j * v.[[b; j; c]])) /\
    (forall b c, (1 <= 8)%nat -> y.[[b; 0%nat; c]] = v.[[b; 0%nat; c]]).
Proof.
  apply (@Head_forward_convex counting_random source_hparams
           (zero_Head source_hparams) (zeros [2; 8; 384]%nat) 48 2 8 0%nat).
  - exact (wf_zero_Head source_hparams).
  - lia.
  - reflexivity.
  - reflexivity.
  - simpl; lia.
Defined.

(** ** The feed-forward layer *)

Lemma Linear_forward_bias_at (l : Linear) (x : Tensor R) (i o : nat) (wb : bool)
  (B T : nat) :
  wf_Linear i o wb l -> shape x = [B; T; i] ->
  exists y, Linear_forward l x = Ok y /\ shape y = [B; T; o] /\
    forall b t c,
      y.[[b; t; c]] =
      Rsum i (fun k => x.[[b; t; k]] * (weight l).[[c; k]]) + bias_at l c.
Proof. exact (Linear_forward_3 l x i o wb B T). Qed.

(** X8.  With dropout disabled the feed-forward layer is the two-layer
    perceptron [W2 relu(W0 x + b0) + b2] with hidden width [4 * n_embed],
    applied to every position on its own: the output has the shape of the
    input, and two positions with the same input row (in any batch rows)
    get the same output row. *)
Theorem FeedForward_forward_positionwise {TR : TorchRandom} (f : FeedForward.t)
  (x : Tensor R) (n B T : nat) (g : Generator) :
  wf_FeedForward n f -> training (FeedForward.net_3 f) = false ->
  shape x = [B; T; n] ->
  exists y,
    FeedForward.forward f x g = Ok (y, g) /\ shape y = [B; T; n] /\
    (forall b t c,
       y.[[b; t; c]] =
       Rsum (4 * n) (fun k =>
         Rmax 0 (Rsum n (fun e => x.[[b; t; e]] * (weight (FeedForward.net_0 f)).[[k; e]])
                 + bias_at (FeedForward.net_0 f) k)
         * (weight (FeedForward.net_2 f)).[[c; k]])
       + bias_at (FeedForward.net_2 f) c) /\
    (forall b t b' t',
       (forall e, (e < n)%nat -> x.[[b; t; e]] = x.[[b'; t'; e]]) ->
       forall c, y.[[b; t; c]] = y.[[b'; t'; c]]).
Proof.
  intros (H0 & H2) Hev Hx.
  destruct (Linear_forward_bias_at _ x _ _ _ B T H0 Hx) as (a & Ea & Sa & Va).
  assert (Sr : shape (F_relu a) = [B; T; (4 * n)%nat]) by exact Sa.
  destruct (Linear_forward_bias_at _ (F_relu a) _ _ _ B T H2 Sr) as (y & Ey & Sy & Vy).
  assert (Hform : forall b t c,
       y.[[b; t; c]] =
       Rsum (4 * n) (fun k =>
         Rmax 0 (Rsum n (fun e => x.[[b; t; e]] * (weight (FeedForward.net_0 f)).[[k; e]])
                 + bias_at (FeedForward.net_0 f) k)
         * (weight (FeedForward.net_2 f)).[[c; k]])
       + bias_at (FeedForward.net_2 f) c).
  { intros b t c. rewrite Vy. f_equal. apply Rsum_ext; intros k _.
    unfold F_relu, tmap; simpl. now rewrite Va. }
  exists y. split; [|split; [exact Sy | split; [exact Hform|]]].
  - unfold FeedForward.forward, bind, lift. rewrite Ea, Ey.
    now rewrite (Dropout_forward_eval _ _ Hev).
  - intros b t b' t' Hrow c. rewrite !Hform. f_equal.
    apply Rsum_ext; intros k _. do 3 f_equal.
    apply Rsum_ext; intros e He. now rewrite Hrow.
Qed.

Lemma FeedForward_forward_positionwise_witness :
  exists y,
    @FeedForward.forward counting_random (Block.ffwd (zero_Block source_hparams))
      (zeros [2; 8; 384]%nat) 0%nat = Ok (y, 0%nat) /\
    shape y = [2; 8; 384]%nat /\
    (forall b t c,
       y.[[b; t; c]] =
       Rsum (4 * 384) (fun k =>
         Rmax 0 (Rsum 384 (fun e => (zeros [2; 8; 384]%nat).[[b; t; e]] *
                   (weight (FeedForward.net_0 (Block.ffwd (zero_Block source_hparams)))).[[k; e]])
                 + bias_at (FeedForward.net_0 (Block.ffwd (zero_Block source_hparams))) k)
         * (weight (FeedForward.net_2 (Block.ffwd (zero_Block source_hparams)))).[[c; k]])
       + bias_at (FeedForward.net_2 (Block.ffwd (zero_Block source_hparams))) c) /\
    (forall b t b' t',
       (forall e, (e < 384)%nat ->
          (zeros [2; 8; 384]%nat).[[b; t; e]] = (zeros [2; 8; 384]%nat).[[b'; t'; e]]) ->
       forall c, y.[[b; t; c]] = y.[[b'; t'; c]]).
Proof.
  apply (@FeedForward_forward_positionwise counting_random
           (Block.ffwd (zero_Block source_hparams)) (zeros [2; 8; 384]%nat) 384 2 8 0%nat).
  - split; apply wf_zero_Linear.
  - reflexivity.
  - reflexivity.
Defined.

(** ** Blocks keep the shape *)

(** X9.  In either dropout mode a block returns a tensor of the shape of
    its input [(B, T, n_embed)], [T <= block_size], and so does any stack
    of blocks applied in turn ([nn.Sequential]). *)
Theorem Block_forward_keeps_shape {TR : TorchRandom} (hp : HP.t)
  (bs : list Block.t) (x : Tensor R) (B T : nat) (g : Generator) :
  Forall (wf_Block hp) bs -> (1 <= head_size hp)%nat ->
  shape x = [B; T; HP.n_embed hp] -> (T <= HP.block_size hp)%nat ->
  (forall b, In b bs ->
     exists y g', Block.forward b x g = Ok (y, g') /\ shape y = shape x) /\
  (exists y g', foldM Block.forward bs x g = Ok (y, g') /\ shape y = shape x).
Proof.
  intros Hwf Hhs Hx HT; split.
  - intros b Hin. rewrite Forall_forall in Hwf.
    destruct (Block_forward_2 hp b x x B T g g (Hwf b Hin) Hhs Hx Hx HT)
      as (y & _ & g1 & _ & E & _ & S & _).
    exists y, g1; split; [exact E | congruence].
  - destruct (blocks_forward_2 hp bs x x B T g g Hwf Hhs Hx Hx HT)
      as (y & _ & g1 & _ & E & _ & S & _).
    exists y, g1; split; [exact E | congruence].
Qed.

Lemma Block_forward_keeps_shape_witness :
  (forall b, In b (repeat (zero_Block source_hparams) 8) ->
     exists y g',
       @Block.forward counting_random b (zeros [2; 8; 384]%nat) 0%nat = Ok (y, g') /\
       shape y = shape (zeros [2; 8; 384]%nat)) /\
  (exists y g',
     @foldM counting_random _ _ Block.forward (repeat (zero_Block source_hparams) 8)
       (zeros [2; 8; 384]%nat) 0%nat = Ok (y, g') /\
     shape y = shape (zeros [2; 8; 384]%nat)).
Proof.
  apply (@Block_forward_keeps_shape counting_random source_hparams
           (repeat (zero_Block source_hparams) 8) (zeros [2; 8; 384]%nat) 2 8 0%nat).
  - apply Forall_forall. intros b Hin. apply repeat_spec in Hin; subst.
    apply wf_zero_Block.
  - rewrite head_size_source; lia.
  - reflexivity.
  - simpl; lia.
Defined.

(** ** Multi-head attention *)

Lemma Rsum_app (a b : nat) (f : nat -> R) :
  Rsum (a + b) f = Rsum a f + Rsum b (fun e => f (a + e)%nat).
Proof.
  induction b as [|b IH]; simpl.
  - rewrite Nat.add_0_r. lra.
  - rewrite Nat.add_succ_r; simpl. rewrite IH. lra.
Qed.

Lemma Rsum_blocks (hs nh : nat) (f : nat -> R) :
  Rsum (hs * nh) f = Rsum nh (fun k => Rsum hs (fun e => f (k * hs + e)%nat)).
Proof.
  induction nh as [|nh IH]; simpl.
  - now rewrite Nat.mul_0_r.
  - rewrite Nat.mul_succ_r, Rsum_app, IH. f_equal.
    apply Rsum_ext; intros e _. f_equal. lia.
Qed.

Lemma cat_last_at_block (ts : list (Tensor R)) (d : Tensor R) (B T hs : nat) :
  Forall (has_shape [B; T; hs]) ts ->
  forall k e b t, (k < length ts)%nat -> (e < hs)%nat ->
    cat_last_at ts [b; t] (k * hs + e) = (nth k ts d).[[b; t; e]].
Proof.
  induction 1 as [|x ts Sx _ IH]; intros k e b t Hk He; [simpl in Hk; lia|].
  red in Sx. cbn [cat_last_at]. rewrite Sx. cbn [last].
  destruct k as [|k].
  - simpl. destruct (Nat.ltb_spec e hs); [reflexivity | lia].
  - destruct (Nat.ltb_spec (S k * hs + e) hs) as [Hlt|_]; [simpl in Hlt; lia|].
    replace (S k * hs + e - hs)%nat with (k * hs + e)%nat by (simpl; lia).
    simpl in Hk. cbn [nth]. apply IH; lia.
Qed.

Lemma torch_cat_last_values (ts : list (Tensor R)) (B T hs : nat) :
  ts <> [] -> Forall (has_shape [B; T; hs]) ts ->
  exists y, torch_cat_last ts = Ok y /\ shape y = [B; T; (hs * length ts)%nat] /\
    forall b t j, y.[[b; t; j]] = cat_last_at ts [b; t] j.
Proof.
  intros Hne Hs. destruct (cat_cols _ _ _ _ Hs) as [F1 C1].
  destruct ts as [|t0 ts]; [congruence|].
  assert (S0 : shape t0 = [B; T; hs]) by (inversion Hs; assumption).
  unfold torch_cat_last. rewrite S0.
  change (removelast [B; T; hs]) with [B; T]. rewrite F1, C1.
  eexists; split; [reflexivity|]; split; [reflexivity|]. intros; reflexivity.
Qed.

Section MultiHeadFacts.
Context {TR : TorchRandom}.
Variable hp : HP.t.

Lemma mapM_heads_eval (l : list Head.t) (x : Tensor R) (hs B T : nat) g :
  Forall (wf_Head hp hs) l -> Forall eval_Head l -> (1 <= hs)%nat ->
  shape x = [B; T; HP.n_embed hp] -> (T <= HP.block_size hp)%nat ->
  exists ys,
    mapM (fun h => Head.forward h x) l g = Ok (ys, g) /\
    length ys = length l /\ Forall (has_shape [B; T; hs]) ys /\
    forall k dh dy b i c, (k < length l)%nat -> (i < T)%nat ->
      (nth k ys dy).[[b; i; c]]
      = spec_out (nth k l dh) x (HP.n_embed hp) hs T b i c.
Proof.
  intros Hwf Hev Hhs Hx HT.
  induction Hwf as [|h l Hh _ IH].
  - exists []; repeat split; auto. intros; simpl in *; lia.
  - inversion Hev as [|? ? Eh El]; subst.
    destruct (Head_forward_eval hp h x hs B T g Hh Hhs Eh Hx HT) as (y & E & S & V).
    destruct (IH El) as (ys & F & L & Ss & Vs).
    exists (y :: ys). cbn [mapM]; unfold bind, ret. rewrite E, F.
    repeat split; simpl; auto.
    intros k dh dy b i c Hk Hi. destruct k as [|k]; [now apply V|].
    apply Vs; lia.
Qed.

Lemma MultiHeadAttention_forward_eval (m : MultiHeadAttention.t) (x : Tensor R)
  (nh hs B T : nat) (dh : Head.t) g :
  wf_MultiHeadAttention hp nh hs m -> eval_MultiHeadAttention m ->
  (1 <= hs)%nat -> (1 <= nh)%nat ->
  shape x = [B; T; HP.n_embed hp] -> (T <= HP.block_size hp)%nat ->
  exists y,
    MultiHeadAttention.forward m x g = Ok (y, g) /\
    shape y = [B; T; HP.n_embed hp] /\
    forall b t c, (t < T)%nat ->
      y.[[b; t; c]] =
      Rsum nh (fun k => Rsum hs (fun e =>
        spec_out (nth k (MultiHeadAttention.heads m) dh) x (HP.n_embed hp) hs T b t e
        * (weight (MultiHeadAttention.proj m)).[[c; (k * hs + e)%nat]]))
      + bias_at (MultiHeadAttention.proj m) c.
Proof.
  intros (Hlen & Hheads & Hproj) (Hevh & Hevd) Hhs Hnh Hx HT.
  destruct (mapM_heads_eval _ x hs B T g Hheads Hevh Hhs Hx HT)
    as (ys & E & L & Ss & Vs).
  assert (Hne : ys <> []) by (destruct ys; [simpl in L; lia | discriminate]).
  destruct (torch_cat_last_values ys B T hs Hne Ss) as (c0 & Ec & Sc & Vc).
  rewrite L, Hlen in Sc.
  destruct (Linear_forward_bias_at _ c0 _ _ _ B T Hproj Sc) as (y & Ey & Sy & Vy).
  exists y. split; [|split; [exact Sy|]].
  - unfold MultiHeadAttention.forward, bind, lift. rewrite E, Ec, Ey.
    now rewrite (Dropout_forward_eval _ _ Hevd).
  - intros b t c Ht. rewrite Vy. f_equal. rewrite Rsum_blocks.
    apply Rsum_ext; intros k Hk. apply Rsum_ext; intros e He. f_equal.
    rewrite Vc.
    rewrite (cat_last_at_block ys c0 B T hs Ss k e b t) by (try lia; assumption).
    apply Vs; [lia | assumption].
Qed.
End MultiHeadFacts.

(** X10.  With dropout disabled, multi-head attention is the projection
    of the concatenated heads: head [k] fills the channels
    [k * head_size .. (k + 1) * head_size - 1] of the concatenation, so
    [out[b,t,c] = sum_k sum_e head_k(x)[b,t,e] * W[c, k*head_size + e] + bias[c]],
    each head being the attention of the specification; the output has
    shape [(B, T, n_embed)]. *)
Theorem MultiHeadAttention_forward_heads {TR : TorchRandom} (hp : HP.t)
  (m : MultiHeadAttention.t) (x : Tensor R) (nh hs B T : nat) (dh : Head.t)
  (g : Generator) :
  wf_MultiHeadAttention hp nh hs m -> eval_MultiHeadAttention m ->
  (1 <= hs)%nat -> (1 <= nh)%nat ->
  shape x = [B; T; HP.n_embed hp] -> (T <= HP.block_size hp)%nat ->
  exists y,
    MultiHeadAttention.forward m x g = Ok (y, g) /\
    shape y = [B; T; HP.n_embed hp] /\
    forall b t c, (t < T)%nat ->
      y.[[b; t; c]] =
      Rsum nh (fun k => Rsum hs (fun e =>
        spec_out (nth k (MultiHeadAttention.heads m) dh) x (HP.n_embed hp) hs T b t e
        * (weight (MultiHeadAttention.proj m)).[[c; (k * hs + e)%nat]]))
      + bias_at (MultiHeadAttention.proj m) c.
Proof.
  intros Hwf Hev Hhs Hnh Hx HT.
  exact (MultiHeadAttention_forward_eval hp m x nh hs B T dh g Hwf Hev Hhs Hnh Hx HT).
Qed.

Lemma MultiHeadAttention_forward_heads_witness :
  exists y,
    @MultiHeadAttention.forward counting_random (Block.sa (zero_Block source_hparams))
      (zeros [2; 8; 384]%nat) 0%nat = Ok (y, 0%nat) /\
    shape y = [2; 8; 384]%nat /\
    forall b t c, (t < 8)%nat ->
      y.[[b; t; c]] =
      Rsum 8 (fun k => Rsum 48 (fun e =>
        spec_out (nth k (MultiHeadAttention.heads (Block.sa (zero_Block source_hparams)))
                    (zero_Head source_hparams))
          (zeros [2; 8; 384]%nat) 384 48 8 b t e
        * (weight (MultiHeadAttention.proj (Block.sa (zero_Block source_hparams)))).[[c; (k * 48 + e)%nat]]))
      + bias_at (MultiHeadAttention.proj (Block.sa (zero_Block source_hparams))) c.
Proof.
  apply (@MultiHeadAttention_forward_heads counting_random source_hparams
           (Block.sa (zero_Block source_hparams)) (zeros [2; 8; 384]%nat)
           8 48 2 8 (zero_Head source_hparams) 0%nat).
  - exact (proj1 (wf_zero_Block source_hparams)).
  - exact (proj1 (Forall_inv (eval_zero_GPT source_hparams 0))).
  - lia.
  - lia.
  - reflexivity.
  - simpl; lia.
Defined.

(** ** The state after construction *)

Section FreshFacts.
Context {TR : TorchRandom}.
Variable hp : HP.t.

Lemma Linear_init_no_bias (i o : nat) g :
  exists l g', Linear_init i o false g = Ok (l, g') /\ bias l = None.
Proof.
  unfold Linear_init, bind, ret.
  destruct (draw_ok (KaimingUniform (sqrt 5)) [o; i] g) as (w & g1 & -> & _).
  eexists; eexists; split; reflexivity.
Qed.

Lemma init_weights_Linear_zero (l : Linear) g :
  exists l' g', init_weights_Linear l g = Ok (l', g') /\
    zero_bias l' /\ (bias l = None -> bias l' = None).
Proof.
  unfold init_weights_Linear, bind, ret.
  destruct (draw_ok (Normal 0 (2 / 100)) (shape (weight l)) g) as (w & g1 & -> & _).
  eexists; eexists; split; [reflexivity|]. unfold zero_bias; simpl.
  destruct (bias l); simpl; split; auto. discriminate.
Qed.

Hypothesis dropout_range : 0 <= HP.dropout hp <= 1.

Lemma Head_init_fresh (hs : nat) g :
  exists h g', Head.init hp hs g = Ok (h, g') /\ fresh_Head hp h.
Proof.
  unfold Head.init, bind, lift, ret.
  destruct (Linear_init_no_bias (HP.n_embed hp) hs g) as (k & g1 & -> & Hk).
  destruct (Linear_init_no_bias (HP.n_embed hp) hs g1) as (q & g2 & -> & Hq).
  destruct (Linear_init_no_bias (HP.n_embed hp) hs g2) as (v & g3 & -> & Hv).
  rewrite (Dropout_init_ok _ dropout_range).
  eexists; eexists; split; [reflexivity|]. repeat split; auto.
Qed.

Lemma Head_apply_init_fresh (h : Head.t) g :
  fresh_Head hp h ->
  exists h' g', Head.apply_init_weights h g = Ok (h', g') /\ fresh_Head hp h'.
Proof.
  intros (Hk & Hq & Hv & Ht & Hd). unfold Head.apply_init_weights, bind, ret.
  destruct (init_weights_Linear_zero (Head.key h) g) as (k & g1 & -> & _ & Hk').
  destruct (init_weights_Linear_zero (Head.query h) g1) as (q & g2 & -> & _ & Hq').
  destruct (init_weights_Linear_zero (Head.value h) g2) as (v & g3 & -> & _ & Hv').
  eexists; eexists; split; [reflexivity|]. repeat split; simpl; auto; apply Hd.
Qed.

Lemma Block_init_fresh g :
  (1 <= HP.n_head hp)%nat ->
  exists b g', Block.init hp (HP.n_embed hp) (HP.n_head hp) g = Ok (b, g') /\
    fresh_Block hp b.
Proof.
  intros Hnh. unfold Block.init, bind, ret.
  destruct (Nat.eqb_spec (HP.n_head hp) 0); [lia|].
  unfold MultiHeadAttention.init, FeedForward.init, bind, lift, ret.
  destruct (mapM_ok (fun _ : nat => Head.init hp (HP.n_embed hp / HP.n_head hp))
              (fresh_Head hp) (seq 0 (HP.n_head hp))
              (fun _ g => Head_init_fresh _ g) g) as (hs_ & g1 & -> & _ & Hh).
  match goal with |- context [Linear_init ?i ?o true g1] =>
    destruct (Linear_init_ok i o true g1) as (p & g2 & -> & _) end.
  rewrite (Dropout_init_ok _ dropout_range).
  match goal with |- context [Linear_init ?i ?o true g2] =>
    destruct (Linear_init_ok i o true g2) as (l0 & g3 & -> & _) end.
  match goal with |- context [Linear_init ?i ?o true g3] =>
    destruct (Linear_init_ok i o true g3) as (l2 & g4 & -> & _) end.
  eexists; eexists; split; [reflexivity|]. repeat split; simpl; auto.
Qed.

Lemma Block_apply_init_fresh (b : Block.t) g :
  fresh_Block hp b ->
  exists b' g', Block.apply_init_weights b g = Ok (b', g') /\
    fresh_Block hp b' /\ zero_biases_Block b'.
Proof.
  intros (Hh & Hd1 & Hd2 & Hl1 & Hl2).
  unfold Block.apply_init_weights, MultiHeadAttention.apply_init_weights,
    FeedForward.apply_init_weights, bind, ret.
  destruct (mapM_preserve Head.apply_init_weights (fresh_Head hp) _
              Head_apply_init_fresh Hh g) as (hs_ & g1 & -> & _ & Hh').
  destruct (init_weights_Linear_zero (MultiHeadAttention.proj (Block.sa b)) g1)
    as (p & g2 & -> & Hp & _).
  destruct (init_weights_Linear_zero (FeedForward.net_0 (Block.ffwd b)) g2)
    as (l0 & g3 & -> & H0 & _).
  destruct (init_weights_Linear_zero (FeedForward.net_2 (Block.ffwd b)) g3)
    as (l2 & g4 & -> & H2 & _).
  eexists; eexists; split; [reflexivity|]. repeat split; simpl; auto;
    try apply Hd1; try apply Hd2.
Qed.

Lemma GPT_init_fresh (V : nat) g m g' :
  (1 <= HP.n_head hp)%nat ->
  GPTLanguageModel.init hp V g = Ok (m, g') -> fresh_GPT hp m.
Proof.
  intros Hnh. unfold GPTLanguageModel.init, GPTLanguageModel.apply_init_weights,
    bind, ret; simpl.
  destruct (Embedding_init_ok V (HP.n_embed hp) g) as (tok & g1 & -> & Htok).
  destruct (Embedding_init_ok (HP.block_size hp) (HP.n_embed hp) g1)
    as (pos & g2 & -> & Hpos).
  destruct (mapM_ok (fun _ : nat => Block.init hp (HP.n_embed hp) (HP.n_head hp))
              (fresh_Block hp) (seq 0 (HP.n_layer hp))
              (fun _ g => Block_init_fresh g Hnh) g2) as (bs & g3 & -> & _ & Hbs).
  destruct (Linear_init_ok (HP.n_embed hp) V true g3) as (h & g4 & -> & _).
  destruct (init_weights_Embedding_ok _ _ _ g4 Htok) as (tok' & g5 & -> & _).
  destruct (init_weights_Embedding_ok _ _ _ g5 Hpos) as (pos' & g6 & -> & _).
  assert (Hpass : exists bs' g7,
            mapM Block.apply_init_weights bs g6 = Ok (bs', g7) /\
            Forall (fun b => fresh_Block hp b /\ zero_biases_Block b) bs').
  { clear - Hbs dropout_range. revert g6.
    induction Hbs as [|b l Hb _ IH]; intros g6.
    - exists [], g6; split; [reflexivity | constructor].
    - destruct (Block_apply_init_fresh b g6 Hb) as (b' & g7 & E & Hf & Hz).
      destruct (IH g7) as (bs' & g8 & F & Hall).
      exists (b' :: bs'), g8. cbn [mapM]; unfold bind, ret. rewrite E, F.
      split; [reflexivity | constructor; auto]. }
  destruct Hpass as (bs' & g7 & -> & Hall).
  destruct (init_weights_Linear_zero h g7) as (h' & g8 & -> & Hz & _).
  intros H; inversion H; subst. repeat split; simpl; auto.
Qed.
End FreshFacts.

(** X11.  Right after construction every bias of a linear layer is zero
    ([lm_head], the projection and the two feed-forward layers of every
    block), the key, query and value maps of every head have no bias, every
    mask buffer is the lower triangle of ones of size [block_size], and the
    layer normalisations have weight one and bias zero. *)
Theorem init_zero_biases {TR : TorchRandom} (hp : HP.t) (V : nat)
  (g g' : Generator) (m : GPTLanguageModel.t) :
  0 <= HP.dropout hp <= 1 -> (1 <= HP.n_head hp)%nat ->
  GPTLanguageModel.init hp V g = Ok (m, g') ->
  zero_bias (GPTLanguageModel.lm_head m) /\
  GPTLanguageModel.ln_f m = LayerNorm_init (HP.n_embed hp) /\
  forall b, In b (GPTLanguageModel.blocks m) ->
    zero_biases_Block b /\
    Block.ln1 b = LayerNorm_init (HP.n_embed hp) /\
    Block.ln2 b = LayerNorm_init (HP.n_embed hp) /\
    forall h, In h (MultiHeadAttention.heads (Block.sa b)) ->
      bias (Head.key h) = None /\ bias (Head.query h) = None /\
      bias (Head.value h) = None /\
      Head.tril h = tril_ones (HP.block_size hp).
Proof.
  intros Hd Hnh E.
  destruct (GPT_init_fresh hp Hd V g m g' Hnh E) as (Hbs & Hln & Hz).
  split; [exact Hz|]. split; [exact Hln|].
  intros b Hin. rewrite Forall_forall in Hbs.
  destruct (Hbs b Hin) as ((Hh & _ & _ & Hl1 & Hl2) & Hzb).
  split; [exact Hzb|]. split; [exact Hl1|]. split; [exact Hl2|].
  intros h Hh'. rewrite Forall_forall in Hh.
  destruct (Hh h Hh') as (Hk & Hq & Hv & Ht & _); auto.
Qed.

(** X12.  Right after construction the model is in training mode: every
    dropout layer (of every head, of every attention projection and of
    every feed-forward layer) is active with the probability [dropout], so
    with at least one layer the model is not in evaluation mode. *)
Theorem init_training_mode {TR : TorchRandom} (hp : HP.t) (V : nat)
  (g g' : Generator) (m : GPTLanguageModel.t) :
  0 <= HP.dropout hp <= 1 -> (1 <= HP.n_head hp)%nat ->
  GPTLanguageModel.init hp V g = Ok (m, g') ->
  (forall b, In b (GPTLanguageModel.blocks m) ->
     fresh_Dropout (HP.dropout hp) (MultiHeadAttention.dropout (Block.sa b)) /\
     fresh_Dropout (HP.dropout hp) (FeedForward.net_3 (Block.ffwd b)) /\
     forall h, In h (MultiHeadAttention.heads (Block.sa b)) ->
       fresh_Dropout (HP.dropout hp) (Head.dropout h)) /\
  ((1 <= HP.n_layer hp)%nat -> ~ eval_GPT m).
Proof.
  intros Hd Hnh E.
  destruct (GPT_init_fresh hp Hd V g m g' Hnh E) as (Hbs & _).
  rewrite Forall_forall in Hbs.
  assert (Hall : forall b, In b (GPTLanguageModel.blocks m) ->
     fresh_Dropout (HP.dropout hp) (MultiHeadAttention.dropout (Block.sa b)) /\
     fresh_Dropout (HP.dropout hp) (FeedForward.net_3 (Block.ffwd b)) /\
     forall h, In h (MultiHeadAttention.heads (Block.sa b)) ->
       fresh_Dropout (HP.dropout hp) (Head.dropout h)).
  { intros b Hin. destruct (Hbs b Hin) as ((Hh & Hd1 & Hd2 & _) & _).
    split; [exact Hd1|]. split; [exact Hd2|].
    intros h Hh'. rewrite Forall_forall in Hh.
    destruct (Hh h Hh') as (_ & _ & _ & _ & Hdh). exact Hdh. }
  split; [exact Hall|].
  intros Hnl Hev. red in Hev.
  destruct (GPT_init_ok hp Hd V g Hnh) as (m0 & g0 & E0 & Hwf).
  assert (m0 = m) by congruence; subst m0.
  destruct Hwf as (_ & _ & Hlen & _).
  destruct (GPTLanguageModel.blocks m) as [|b bs] eqn:Eb; [simpl in Hlen; lia|].
  destruct (Hall b (or_introl eq_refl)) as (_ & (_ & Htr) & _).
  destruct (Forall_inv Hev) as (_ & Hff). congruence.
Qed.

Lemma init_zero_biases_witness :
  exists m g',
    @GPTLanguageModel.init counting_random source_hparams 65 0%nat = Ok (m, g') /\
    zero_bias (GPTLanguageModel.lm_head m) /\
    forall b, In b (GPTLanguageModel.blocks m) -> zero_biases_Block b.
Proof.
  destruct (@GPT_init_ok counting_random source_hparams ltac:(simpl; lra) 65 0%nat
              ltac:(simpl; lia)) as (m & g' & E & _).
  exists m, g'. split; [exact E|].
  destruct (@init_zero_biases counting_random source_hparams 65 0%nat g' m
              ltac:(simpl; lra) ltac:(simpl; lia) E) as (Hz & _ & Hb).
  split; [exact Hz|]. intros b Hin. exact (proj1 (Hb b Hin)).
Defined.

Lemma init_training_mode_witness :
  exists m g',
    @GPTLanguageModel.init counting_random source_hparams 65 0%nat = Ok (m, g') /\
    ~ eval_GPT m.
Proof.
  destruct (@GPT_init_ok counting_random source_hparams ltac:(simpl; lra) 65 0%nat
              ltac:(simpl; lia)) as (m & g' & E & _).
  exists m, g'. split; [exact E|].
  exact (proj2 (@init_training_mode counting_random source_hparams 65 0%nat g' m
                  ltac:(simpl; lra) ltac:(simpl; lia) E) ltac:(simpl; lia)).
Defined.

(** ** What one position of the output depends on

    Two inputs of the operations, compared on row [b] of the first and row
    [b'] of the second, up to the time step [n]. *)

Lemma Rsum_trunc (k T : nat) (f : nat -> R) :
  (k <= T)%nat -> (forall j, (k <= j < T)%nat -> f j = 0) -> Rsum T f = Rsum k f.
Proof.
  intros Hk Hz. induction T as [|T IH].
  - now replace k with 0%nat by lia.
  - destruct (Nat.eq_dec k (S T)) as [->|Hne]; [reflexivity|].
    simpl. rewrite IH by (try lia; intros; apply Hz; lia).
    rewrite (Hz T) by lia. lra.
Qed.

Section RowPure.
Variables B T B' T' b b' n : nat.

Lemma Linear_forward_row (l : Linear) (x x' : Tensor R) (i o : nat) (wb : bool) :
  wf_Linear i o wb l -> shape x = [B; T; i] -> shape x' = [B'; T'; i] ->
  exists y y', Linear_forward l x = Ok y /\ Linear_forward l x' = Ok y' /\
    shape y = [B; T; o] /\ shape y' = [B'; T'; o] /\
    (agree_row b b' n i x x' -> agree_row b b' n o y y').
Proof.
  intros Hl Hx Hx'.
  destruct (Linear_forward_3 _ _ _ _ _ B T Hl Hx) as (y & Ey & Sy & Vy).
  destruct (Linear_forward_3 _ _ _ _ _ B' T' Hl Hx') as (y' & Ey' & Sy' & Vy').
  exists y, y'; repeat split; auto.
  intros Hag t c Ht Hc. rewrite Vy, Vy'. f_equal.
  apply Rsum_ext; intros k Hk. now rewrite Hag.
Qed.

Lemma tadd_row (x y x' y' : Tensor R) (C : nat) :
  (b < B)%nat -> (b' < B')%nat -> (n < T)%nat -> (n < T')%nat ->
  shape x = [B; T; C] -> shape y = [B; T; C] ->
  shape x' = [B'; T'; C] -> shape y' = [B'; T'; C] ->
  exists z z', tadd x y = Ok z /\ tadd x' y' = Ok z' /\
    shape z = [B; T; C] /\ shape z' = [B'; T'; C] /\
    (agree_row b b' n C x x' -> agree_row b b' n C y y' -> agree_row b b' n C z z').
Proof.
  intros Hb Hb' Hn Hn' Hx Hy Hx' Hy'.
  destruct (tadd_same3 _ _ _ _ _ Hx Hy) as (z & Ez & Sz & Vz).
  destruct (tadd_same3 _ _ _ _ _ Hx' Hy') as (z' & Ez' & Sz' & Vz').
  exists z, z'; repeat split; auto.
  intros Hax Hay t c Ht Hc. rewrite Vz, Vz' by (assumption || lia).
  now rewrite Hax, Hay.
Qed.

Lemma LayerNorm_forward_row (l : LayerNorm) (x x' : Tensor R) (d : nat) :
  wf_LayerNorm d l -> shape x = [B; T; d] -> shape x' = [B'; T'; d] ->
  exists y y', LayerNorm_forward l x = Ok y /\ LayerNorm_forward l x' = Ok y' /\
    shape y = [B; T; d] /\ shape y' = [B'; T'; d] /\
    (agree_row b b' n d x x' -> agree_row b b' n d y y').
Proof.
  intros Hl Hx Hx'.
  destruct (LayerNorm_forward_3 _ _ _ _ _ Hl Hx) as (y & Ey & Sy & Vy).
  destruct (LayerNorm_forward_3 _ _ _ _ _ Hl Hx') as (y' & Ey' & Sy' & Vy').
  exists y, y'; repeat split; auto.
  intros Hag t c Ht Hc. rewrite Vy, Vy'. unfold layer_norm_at.
  destruct Hl as (Hd & _). rewrite Hd.
  unfold ix_init, ix_last; simpl.
  assert (Hrow : forall j, (j < d)%nat -> x.[[b; t; j]] = x'.[[b'; t; j]])
    by (intros; now apply Hag).
  assert (Hmean : Rsum d (fun j => x.[[b; t; j]]) = Rsum d (fun j => x'.[[b'; t; j]]))
    by (apply Rsum_ext; exact Hrow).
  rewrite Hmean, (Hrow c Hc). do 3 f_equal. f_equal. f_equal. f_equal.
  apply Rsum_ext; intros j Hj. now rewrite (Hrow j Hj).
Qed.

Lemma F_relu_row (x x' : Tensor R) (C : nat) :
  agree_row b b' n C x x' -> agree_row b b' n C (F_relu x) (F_relu x').
Proof.
  intros H t c Ht Hc. unfold F_relu, tmap; simpl. f_equal. now apply H.
Qed.

Lemma spec_linear_row (W x x' : Tensor R) (ne t c : nat) :
  agree_row b b' n ne x x' -> (t <= n)%nat ->
  spec_linear x ne W b t c = spec_linear x' ne W b' t c.
Proof.
  intros Hag Ht. unfold spec_linear. apply Rsum_ext; intros e He.
  now rewrite Hag.
Qed.

Lemma spec_scores_row (h : Head.t) (x x' : Tensor R) (ne hs t j : nat) :
  agree_row b b' n ne x x' -> (t <= n)%nat ->
  spec_scores h x ne hs b t j = spec_scores h x' ne hs b' t j.
Proof.
  intros Hag Ht. unfold spec_scores.
  destruct (Nat.ltb_spec t j) as [Hlt|Hle]; [reflexivity|].
  do 2 f_equal. apply Rsum_ext; intros c _.
  unfold spec_q, spec_k.
  rewrite (spec_linear_row _ x x' ne t c Hag Ht).
  rewrite (spec_linear_row _ x x' ne j c Hag) by lia.
  reflexivity.
Qed.

Lemma spec_scores_denominator_trunc (h : Head.t) (x : Tensor R)
  (ne hs L r t : nat) :
  (t < L)%nat ->
  Rsum L (fun j => xexp (spec_scores h x ne hs r t j))
  = Rsum (S t) (fun j => xexp (spec_scores h x ne hs r t j)).
Proof.
  intros Ht. apply Rsum_trunc; [lia|].
  intros j Hj. unfold spec_scores.
  destruct (Nat.ltb_spec t j) as [_|Hle]; [reflexivity | lia].
Qed.

(** The attention weights of a position: the same in both runs, whatever
    the lengths of the two sequences. *)
Lemma spec_probs_row (h : Head.t) (x x' : Tensor R) (ne hs t j : nat) :
  agree_row b b' n ne x x' -> (t <= n)%nat -> (t < T)%nat -> (t < T')%nat ->
  spec_probs h x ne hs T b t j = spec_probs h x' ne hs T' b' t j.
Proof.
  intros Hag Ht HtT HtT'. unfold spec_probs.
  rewrite (spec_scores_denominator_trunc h x ne hs T b t HtT).
  rewrite (spec_scores_denominator_trunc h x' ne hs T' b' t HtT').
  rewrite (spec_scores_row h x x' ne hs t j Hag Ht). f_equal.
  apply Rsum_ext; intros j' _.
  now rewrite (spec_scores_row h x x' ne hs t j' Hag Ht).
Qed.

End RowPure.

(** ** The context window of [generate] *)

Lemma forallb_ext_in {A} (f f' : A -> bool) (l : list A) :
  (forall a, In a l -> f a = f' a) -> forallb f l = forallb f' l.
Proof.
  induction l as [|a l IH]; intros H; simpl; [reflexivity|].
  rewrite (H a (or_introl eq_refl)), IH; [reflexivity|].
  intros; apply H; now right.
Qed.

Section ContextWindow.
Context {TR : TorchRandom}.
Variable hp : HP.t.

(** A sampler that reads the [n] weights it is given and nothing else. *)
Hypothesis multinomial1_ext : forall g (p q : nat -> R) n,
  (forall c, (c < n)%nat -> p c = q c) -> multinomial1 g p n = multinomial1 g q n.

Lemma mapM_draw_row_ext (probs probs' : Tensor R) (B n : nat) (l : list nat) g :
  (forall b c, (b < B)%nat -> (c < n)%nat -> probs.[[b; c]] = probs'.[[b; c]]) ->
  (forall b, In b l -> (b < B)%nat) ->
  mapM (draw_row probs n) l g = mapM (draw_row probs' n) l g.
Proof.
  intros Hp; revert g; induction l as [|b l IH]; intros g Hl; [reflexivity|].
  cbn [mapM]. unfold bind. unfold draw_row at 1 3.
  rewrite (multinomial1_ext g (fun c => probs.[[b; c]]) (fun c => probs'.[[b; c]]) n)
    by (intros c Hc; apply Hp; [apply Hl; now left | exact Hc]).
  destruct (multinomial1 g (fun c => probs'.[[b; c]]) n) as [k g1].
  rewrite (IH g1) by (intros; apply Hl; now right). reflexivity.
Qed.

Lemma valid_dist_ext (probs probs' : Tensor R) (B n : nat) :
  (forall b c, (b < B)%nat -> (c < n)%nat -> probs.[[b; c]] = probs'.[[b; c]]) ->
  valid_dist probs B n = valid_dist probs' B n.
Proof.
  intros Hp. unfold valid_dist. apply forallb_ext_in. intros b Hb.
  apply in_seq in Hb. f_equal.
  - apply forallb_ext_in. intros c Hc. apply in_seq in Hc.
    rewrite (Hp b c) by lia. reflexivity.
  - rewrite (Rsum_ext n (fun c => probs.[[b; c]]) (fun c => probs'.[[b; c]]));
      [reflexivity|]. intros c Hc. apply Hp; lia.
Qed.

(** Two weight matrices with the same entries give the same draws and
    leave the generator in the same state. *)
Lemma torch_multinomial_ext (probs probs' : Tensor R) (B n : nat) g :
  shape probs = [B; n] -> shape probs' = [B; n] ->
  (forall b c, (b < B)%nat -> (c < n)%nat -> probs.[[b; c]] = probs'.[[b; c]]) ->
  torch_multinomial probs g = torch_multinomial probs' g.
Proof.
  intros Hs Hs' Hp. unfold torch_multinomial. rewrite Hs, Hs'.
  destruct (n =? 0)%nat; [reflexivity|].
  destruct (B =? 0)%nat; [reflexivity|].
  rewrite (valid_dist_ext probs probs' B n Hp).
  destruct (valid_dist probs' B n); [|reflexivity].
  unfold bind.
  rewrite (mapM_draw_row_ext probs probs' B n (seq 0 B) g Hp)
    by (intros b Hb; apply in_seq in Hb; lia).
  reflexivity.
Qed.

Variable m : GPTLanguageModel.t.
Variables V B : nat.
Hypothesis Hwf : wf_GPT hp V m.
Hypothesis Hhs : (1 <= head_size hp)%nat.
Hypothesis Hev : eval_GPT m.
Hypothesis Hbs : (1 <= HP.block_size hp)%nat.
Hypothesis HV : (1 <= V)%nat.

Lemma generate_step_window (T T' : nat) (index index' : Tensor Z) g :
  shape index = [B; T] -> shape index' = [B; T'] ->
  (HP.block_size hp <= T)%nat -> (HP.block_size hp <= T')%nat ->
  valid_tokens V index -> valid_tokens V index' ->
  same_window (HP.block_size hp) B T T' index index' ->
  exists out out' g1,
    GPTLanguageModel.generate_step hp m index g = Ok (out, g1) /\
    GPTLanguageModel.generate_step hp m index' g = Ok (out', g1) /\
    shape out = [B; (T + 1)%nat] /\ shape out' = [B; (T' + 1)%nat] /\
    valid_tokens V out /\ valid_tokens V out' /\
    (forall b t, (t < T)%nat -> out.[[b; t]] = index.[[b; t]]) /\
    (forall b t, (t < T')%nat -> out'.[[b; t]] = index'.[[b; t]]) /\
    (forall b, (b < B)%nat -> out.[[b; T]] = out'.[[b; T']]).
Proof.
  intros Hs Hs' HT HT' Hv Hv' Hag.
  destruct (slice_last_cols_2 index (HP.block_size hp) B T Hs) as (c & Ec & Sc & Vc).
  destruct (slice_last_cols_2 index' (HP.block_size hp) B T' Hs')
    as (c' & Ec' & Sc' & Vc').
  destruct (Nat.eqb_spec (HP.block_size hp) 0) as [?|_]; [lia|].
  replace (T - (T - HP.block_size hp))%nat with (HP.block_size hp) in Sc by lia.
  replace (T' - (T' - HP.block_size hp))%nat with (HP.block_size hp) in Sc' by lia.
  assert (Hvc : valid_tokens V c).
  { apply (valid_tokens_2 V c B _ Sc). intros b t Hb Ht. rewrite Vc.
    apply (proj1 (valid_tokens_2 V index B T Hs) Hv); lia. }
  assert (Hvc' : valid_tokens V c').
  { apply (valid_tokens_2 V c' B _ Sc'). intros b t Hb Ht. rewrite Vc'.
    apply (proj1 (valid_tokens_2 V index' B T' Hs') Hv'); lia. }
  destruct (forward_2 hp m c c' V B (HP.block_size hp) g g Hwf Hhs Sc Sc'
              (Nat.le_refl _) Hvc Hvc')
    as (L & L' & g1 & g1' & E & E' & SL & SL' & Heval).
  destruct (Heval Hev) as (-> & -> & HL).
  assert (HLL : forall b v, (b < B)%nat -> (v < V)%nat ->
            L.[[b; (HP.block_size hp - 1)%nat; v]]
            = L'.[[b; (HP.block_size hp - 1)%nat; v]]).
  { intros b v Hb Hv0.
    apply (HL (HP.block_size hp - 1)%nat); [|rewrite SL; apply valid_ix3; lia|lia].
    intros b0 t0 Hix _. rewrite Sc in Hix. apply valid_ix2 in Hix as (Hb0 & Ht0).
    rewrite Vc, Vc', (Nat.add_comm t0 (T - _)), (Nat.add_comm t0 (T' - _)).
    now apply Hag. }
  destruct (select_last_step_3 L B _ V SL Hbs) as (l & El & Sl & Vl).
  destruct (select_last_step_3 L' B _ V SL' Hbs) as (l' & El' & Sl' & Vl').
  assert (Hpp : forall b v, (b < B)%nat -> (v < V)%nat ->
            (F_softmax (tmap Fin l)).[[b; v]] = (F_softmax (tmap Fin l')).[[b; v]]).
  { intros b v Hb Hv0. unfold F_softmax; simpl. rewrite Sl, Sl'.
    cbn [ix_init ix_last removelast last app].
    rewrite Vl, Vl', (HLL b v Hb Hv0). f_equal.
    apply Rsum_ext; intros j Hj. now rewrite Vl, Vl', (HLL b j Hb Hj). }
  destruct (torch_multinomial_softmax l B V g Sl HV) as (nx & g2 & Em).
  assert (Em' : torch_multinomial (F_softmax (tmap Fin l')) g = Ok (nx, g2)).
  { rewrite <- Em. symmetry.
    apply (torch_multinomial_ext _ _ B V g); [exact Sl | exact Sl' | exact Hpp]. }
  destruct (torch_multinomial_inv (F_softmax (tmap Fin l)) B V g nx g2 Sl Em)
    as (_ & Snx & Hnx).
  destruct (torch_cat_dim1_2 index nx B T Hs Snx) as (y & Ey & Sy & Vpre & Vlast).
  destruct (torch_cat_dim1_2 index' nx B T' Hs' Snx)
    as (y' & Ey' & Sy' & Vpre' & Vlast').
  exists y, y', g2.
  unfold GPTLanguageModel.generate_step, bind, lift.
  rewrite Ec, Ec', E, E', El, El', Em, Em', Ey, Ey'.
  split; [reflexivity|]; split; [reflexivity|].
  split; [exact Sy|]; split; [exact Sy'|].
  split; [|split; [|split; [exact Vpre|split; [exact Vpre'|]]]].
  - apply (valid_tokens_2 V y B _ Sy). intros b t Hb Ht.
    destruct (Nat.eq_dec t T) as [->|Hne].
    + rewrite Vlast. now apply Hnx.
    + rewrite Vpre by lia. apply (proj1 (valid_tokens_2 V index B T Hs) Hv); lia.
  - apply (valid_tokens_2 V y' B _ Sy'). intros b t Hb Ht.
    destruct (Nat.eq_dec t T') as [->|Hne].
    + rewrite Vlast'. now apply Hnx.
    + rewrite Vpre' by lia. apply (proj1 (valid_tokens_2 V index' B T' Hs') Hv'); lia.
  - intros b Hb. now rewrite Vlast, Vlast'.
Qed.

Lemma generate_window (k : nat) :
  forall (T T' : nat) (index index' : Tensor Z) g,
  shape index = [B; T] -> shape index' = [B; T'] ->
  (HP.block_size hp <= T)%nat -> (HP.block_size hp <= T')%nat ->
  valid_tokens V index -> valid_tokens V index' ->
  same_window (HP.block_size hp) B T T' index index' ->
  exists out out' g1,
    GPTLanguageModel.generate hp m index k g = Ok (out, g1) /\
    GPTLanguageModel.generate hp m index' k g = Ok (out', g1) /\
    (forall b t, (t < T)%nat -> out.[[b; t]] = index.[[b; t]]) /\
    (forall b t, (t < T')%nat -> out'.[[b; t]] = index'.[[b; t]]) /\
    forall b j, (b < B)%nat -> (j < k)%nat ->
      out.[[b; (T + j)%nat]] = out'.[[b; (T' + j)%nat]].
Proof.
  induction k as [|k IH]; intros T T' index index' g Hs Hs' HT HT' Hv Hv' Hag.
  - exists index, index', g. repeat split; auto. intros; lia.
  - destruct (generate_step_window T T' index index' g Hs Hs' HT HT' Hv Hv' Hag)
      as (o & o' & g1 & E & E' & So & So' & Vo & Vo' & Po & Po' & Hnew).
    assert (Hag1 : same_window (HP.block_size hp) B (T + 1) (T' + 1) o o').
    { intros b t Hb Ht.
      destruct (Nat.eq_dec (t + 1) (HP.block_size hp)) as [Heq|Hne].
      - replace (T + 1 - HP.block_size hp + t)%nat with T by lia.
        replace (T' + 1 - HP.block_size hp + t)%nat with T' by lia.
        now apply Hnew.
      - rewrite Po, Po' by lia.
        replace (T + 1 - HP.block_size hp + t)%nat
          with (T - HP.block_size hp + (t + 1))%nat by lia.
        replace (T' + 1 - HP.block_size hp + t)%nat
          with (T' - HP.block_size hp + (t + 1))%nat by lia.
        apply Hag; lia. }
    destruct (IH (T + 1)%nat (T' + 1)%nat o o' g1 So So' ltac:(lia) ltac:(lia)
                Vo Vo' Hag1)
      as (out & out' & g2 & F & F' & Pre & Pre' & Hrest).
    exists out, out', g2.
    unfold GPTLanguageModel.generate in *. cbn [iterM]. unfold bind.
    rewrite E, E', F, F'.
    split; [reflexivity|]; split; [reflexivity|].
    split; [|split].
    + intros b t Ht. rewrite Pre by lia. now apply Po.
    + intros b t Ht. rewrite Pre' by lia. now apply Po'.
    + intros b j Hb Hj. destruct j as [|j].
      * rewrite !Nat.add_0_r, Pre, Pre' by lia. now apply Hnew.
      * replace (T + S j)%nat with (T + 1 + j)%nat by lia.
        replace (T' + S j)%nat with (T' + 1 + j)%nat by lia.
        apply Hrest; lia.
Qed.
End ContextWindow.

(** X14.  [generate] conditions every step on the last [block_size]
    tokens only.  In evaluation mode, for a sampler that reads only the
    weights it is given: two prompts of at least [block_size] columns (of
    any lengths) over the vocabulary, whose last [block_size] columns hold
    the same tokens, started from the same generator state, both return,
    end in the same generator state, and the [k] tokens appended to the
    one are the [k] tokens appended to the other.  Older tokens have no
    influence on what is generated. *)
Theorem generate_context_window {TR : TorchRandom} (hp : HP.t)
  (m : GPTLanguageModel.t) (V B T T' k : nat) (index index' : Tensor Z)
  (g : Generator) :
  (forall g0 (p q : nat -> R) n,
     (forall c, (c < n)%nat -> p c = q c) ->
     multinomial1 g0 p n = multinomial1 g0 q n) ->
  wf_GPT hp V m -> (1 <= head_size hp)%nat -> eval_GPT m ->
  (1 <= HP.block_size hp)%nat -> (1 <= V)%nat ->
  shape index = [B; T] -> shape index' = [B; T'] ->
  (HP.block_size hp <= T)%nat -> (HP.block_size hp <= T')%nat ->
  valid_tokens V index -> valid_tokens V index' ->
  same_window (HP.block_size hp) B T T' index index' ->
  exists out out' g1,
    GPTLanguageModel.generate hp m index k g = Ok (out, g1) /\
    GPTLanguageModel.generate hp m index' k g = Ok (out', g1) /\
    forall b j, (b < B)%nat -> (j < k)%nat ->
      out.[[b; (T + j)%nat]] = out'.[[b; (T' + j)%nat]].
Proof.
  intros Hext Hwf Hhs Hev Hbs HV Hs Hs' HT HT' Hv Hv' Hag.
  destruct (generate_window hp Hext m V B Hwf Hhs Hev Hbs HV k T T' index index' g
              Hs Hs' HT HT' Hv Hv' Hag)
    as (out & out' & g1 & E & E' & _ & _ & H).
  exists out, out', g1. auto.
Qed.

Lemma generate_context_window_witness :
  exists out out' g1,
    @GPTLanguageModel.generate counting_random source_hparams
      (zero_GPT source_hparams 65) (set_token (zero_tokens 2 70) 1 2 7%Z) 3 0%nat
    = Ok (out, g1) /\
    @GPTLanguageModel.generate counting_random source_hparams
      (zero_GPT source_hparams 65) (zero_tokens 2 66) 3 0%nat
    = Ok (out', g1) /\
    forall b j, (b < 2)%nat -> (j < 3)%nat ->
      out.[[b; (70 + j)%nat]] = out'.[[b; (66 + j)%nat]].
Proof.
  apply (@generate_context_window counting_random source_hparams
           (zero_GPT source_hparams 65) 65 2 70 66 3
           (set_token (zero_tokens 2 70) 1 2 7%Z) (zero_tokens 2 66) 0%nat).
  - intros; reflexivity.
  - apply wf_zero_GPT.
  - rewrite head_size_source; lia.
  - apply eval_zero_GPT.
  - simpl; lia.
  - lia.
  - reflexivity.
  - reflexivity.
  - simpl; lia.
  - simpl; lia.
  - apply (valid_set_token 65 2 70); [reflexivity | apply valid_zero_tokens; lia | lia].
  - apply valid_zero_tokens; lia.
  - intros b t Hb Ht. change (HP.block_size source_hparams) with 64%nat.
    unfold set_token, zero_tokens. cbn [at_].
    destruct (Nat.eqb_spec (70 - 64 + t) 2) as [E|_]; [lia|].
    now rewrite andb_false_r.
Defined.

(** ** Either mode: two runs from the same generator state

    With dropout active the two runs draw the same masks, since a mask is
    drawn for the shape of the input and not for its values. *)

Lemma cat_last_at_row (b n B T hs : nat) (ts ts' : list (Tensor R)) :
  Forall (has_shape [B; T; hs]) ts -> Forall (has_shape [B; T; hs]) ts' ->
  Forall2 (agree_row b b n hs) ts ts' ->
  forall t c, (t <= n)%nat ->
    cat_last_at ts [b; t] c = cat_last_at ts' [b; t] c.
Proof.
  intros Hs Hs' Hag; revert Hs Hs'.
  induction Hag as [|x x' ts ts' Hx _ IH]; intros Hs Hs' t c Ht; [reflexivity|].
  inversion Hs as [|? ? Sx Sr]; inversion Hs' as [|? ? Sx' Sr']; subst.
  red in Sx, Sx'. simpl. rewrite !Sx, !Sx'; simpl.
  destruct (Nat.ltb_spec c hs) as [Hc|Hc].
  - now apply Hx.
  - now apply IH.
Qed.

Section TrainFacts.
Context {TR : TorchRandom}.
Variable hp : HP.t.

(** Dropout multiplies elementwise by a factor that depends on the layer,
    the generator and the shape of the input only. *)
Lemma Dropout_forward_pair (d : Dropout) (x x' : Tensor R) g :
  shape x' = shape x ->
  exists f y y' g1,
    Dropout_forward d x g = Ok (y, g1) /\ Dropout_forward d x' g = Ok (y', g1) /\
    shape y = shape x /\ shape y' = shape x /\
    forall ix, y.[ix] = x.[ix] * f ix /\ y'.[ix] = x'.[ix] * f ix.
Proof.
  intros Hs. unfold Dropout_forward. rewrite Hs.
  destruct (training d).
  2: { exists (fun _ => 1), x, x', g. unfold ret.
       repeat split; auto; lra. }
  destruct (Req_dec_T (drop_p d) 0).
  { exists (fun _ => 1), x, x', g. unfold ret. repeat split; auto; lra. }
  destruct (numel (shape x) =? 0)%nat.
  { exists (fun _ => 1), x, x', g. unfold ret. repeat split; auto; lra. }
  destruct (Req_dec_T (drop_p d) 1).
  { exists (fun _ => 0), (tmap (fun _ => 0) x), (tmap (fun _ => 0) x'), g.
    unfold ret. repeat split; simpl; auto; lra. }
  unfold bind, draw, ret. destruct (sample g _ _) as [mk g1].
  exists (fun ix => mk ix / (1 - drop_p d)). eexists; eexists; exists g1.
  split; [reflexivity|]; split; [reflexivity|].
  split; [reflexivity|]; split; [reflexivity|].
  intros ix; simpl; split; unfold Rdiv; ring.
Qed.

(** A head up to its dropout: the attention weights and the values of the
    specification, then dropout on the weights and the product. *)
Lemma Head_forward_parts (h : Head.t) (x : Tensor R) (hs B T : nat) :
  wf_Head hp hs h -> (1 <= hs)%nat ->
  shape x = [B; T; HP.n_embed hp] -> (T <= HP.block_size hp)%nat ->
  exists p v,
    shape p = [B; T; T] /\ shape v = [B; T; hs] /\
    (forall b i j, (i < T)%nat -> (j < T)%nat ->
       p.[[b; i; j]] = spec_probs h x (HP.n_embed hp) hs T b i j) /\
    (forall b j c, v.[[b; j; c]] = spec_v h x (HP.n_embed hp) b j c) /\
    forall g, Head.forward h x g =
              bind (Dropout_forward (Head.dropout h) p)
                   (fun wd => lift (matmul wd v)) g.
Proof.
  intros (Hk & Hq & Hv & Ht) Hhs Hx HT.
  destruct (Linear_forward_3 _ _ _ _ _ B T Hk Hx) as (k & Ek & Sk & Vk).
  destruct (Linear_forward_3 _ _ _ _ _ B T Hq Hx) as (q & Eq & Sq & Vq).
  destruct (Linear_forward_3 _ _ _ _ _ B T Hv Hx) as (v & Ev & Sv & Vv).
  destruct (transpose_last2_3 _ _ _ _ Sk) as (kT & EkT & SkT & VkT).
  destruct (matmul_3 _ _ _ _ _ _ Sq SkT) as (qk & Eqk & Sqk & Vqk).
  destruct (slice2_tril _ _ _ Ht HT) as (mask & Em & Sm & Vm).
  assert (Sw : shape (tscale qk (/ sqrt (INR hs))) = [B; T; T]) by exact Sqk.
  destruct (masked_fill_3_2 _ (teq0 mask) NegInf _ _ Sw Sm) as (w & Ew & Sw' & Vw).
  destruct (F_softmax_3 _ _ _ _ Sw') as (Ss & Vs).
  assert (Hbias : forall l, wf_Linear (HP.n_embed hp) hs false l -> bias l = None).
  { intros l [_ Hb]. destruct (bias l); [destruct Hb; discriminate | reflexivity]. }
  assert (Hm : forall b i j, (i < T)%nat -> (j < T)%nat ->
            w.[[b; i; j]] = spec_scores h x (HP.n_embed hp) hs b i j).
  { intros b i j Hi Hj. rewrite Vw, Vm by assumption.
    unfold spec_scores. destruct (i <? j)%nat; [reflexivity|].
    f_equal. unfold tscale; simpl. rewrite Vqk. unfold Rdiv. f_equal.
    apply Rsum_ext; intros c _. rewrite VkT, Vq, Vk.
    rewrite (Hbias _ Hk), (Hbias _ Hq).
    unfold spec_q, spec_k, spec_linear. lra. }
  exists (F_softmax w), v. split; [exact Ss|]. split; [exact Sv|].
  split; [|split].
  - intros b i j Hi Hj. rewrite Vs. unfold spec_probs.
    rewrite Hm by assumption. f_equal.
    apply Rsum_ext; intros j' Hj'. now rewrite Hm.
  - intros b j c. rewrite Vv, (Hbias _ Hv). unfold spec_v, spec_linear. lra.
  - intros g. unfold Head.forward, bind, lift.
    rewrite Hx; cbn [unpack3].
    rewrite Ek, Eq, EkT, Eqk, Sk; cbn [last].
    rewrite (pow_neg_half_pos _ Hhs), Em, Ew.
    destruct (Dropout_forward (Head.dropout h) (F_softmax w) g) as [[wd g']|e];
      [|reflexivity].
    now rewrite Ev.
Qed.

Variables B T b n : nat.
Hypothesis Hb : (b < B)%nat.
Hypothesis Hn : (n < T)%nat.
Hypothesis HT : (T <= HP.block_size hp)%nat.

Lemma Head_forward_pair (h : Head.t) (x x' : Tensor R) (hs : nat) g :
  wf_Head hp hs h -> (1 <= hs)%nat ->
  shape x = [B; T; HP.n_embed hp] -> shape x' = [B; T; HP.n_embed hp] ->
  exists y y' g1,
    Head.forward h x g = Ok (y, g1) /\ Head.forward h x' g = Ok (y', g1) /\
    has_shape [B; T; hs] y /\ has_shape [B; T; hs] y' /\
    (agree_row b b n (HP.n_embed hp) x x' -> agree_row b b n hs y y').
Proof.
  intros Hh Hhs Hx Hx'.
  destruct (Head_forward_parts h x hs B T Hh Hhs Hx HT)
    as (p & v & Sp & Sv & Vp & Vv & E).
  destruct (Head_forward_parts h x' hs B T Hh Hhs Hx' HT)
    as (p' & v' & Sp' & Sv' & Vp' & Vv' & E').
  destruct (Dropout_forward_pair (Head.dropout h) p p' g ltac:(congruence))
    as (f & wd & wd' & g1 & Ed & Ed' & Swd & Swd' & Vd).
  rewrite Sp in Swd, Swd'.
  destruct (matmul_3 _ _ _ _ _ _ Swd Sv) as (y & Ey & Sy & Vy).
  destruct (matmul_3 _ _ _ _ _ _ Swd' Sv') as (y' & Ey' & Sy' & Vy').
  exists y, y', g1. rewrite E, E'. unfold bind, lift. rewrite Ed, Ed', Ey, Ey'.
  split; [reflexivity|]; split; [reflexivity|].
  split; [exact Sy|]; split; [exact Sy'|].
  intros Hag t c Ht Hc. rewrite Vy, Vy'. apply Rsum_ext; intros j Hj.
  destruct (Vd [b; t; j]) as [-> ->].
  rewrite Vp, Vp' by lia.
  destruct (Nat.lt_ge_cases t j) as [Hlt|Hle].
  - rewrite !spec_probs_future by assumption. ring.
  - rewrite Vv, Vv'.
    rewrite (spec_probs_row T T b b n h x x' _ hs t j Hag Ht) by lia.
    unfold spec_v. rewrite (spec_linear_row b b n _ x x' _ j c Hag) by lia.
    reflexivity.
Qed.

Lemma mapM_heads_pair (l : list Head.t) (x x' : Tensor R) (hs : nat) g :
  Forall (wf_Head hp hs) l -> (1 <= hs)%nat ->
  shape x = [B; T; HP.n_embed hp] -> shape x' = [B; T; HP.n_embed hp] ->
  exists ys ys' g1,
    mapM (fun h => Head.forward h x) l g = Ok (ys, g1) /\
    mapM (fun h => Head.forward h x') l g = Ok (ys', g1) /\
    length ys = length l /\ length ys' = length l /\
    Forall (has_shape [B; T; hs]) ys /\ Forall (has_shape [B; T; hs]) ys' /\
    (agree_row b b n (HP.n_embed hp) x x' -> Forall2 (agree_row b b n hs) ys ys').
Proof.
  intros Hwf Hhs Hx Hx'; revert g.
  induction Hwf as [|h l Hh _ IH]; intros g.
  - exists [], [], g; simpl; unfold ret; repeat split; auto.
  - destruct (Head_forward_pair h x x' hs g Hh Hhs Hx Hx')
      as (y & y' & g1 & E & E' & S & S' & Hy).
    destruct (IH g1) as (ys & ys' & g2 & F & F' & L & L' & Ss & Ss' & Hys).
    exists (y :: ys), (y' :: ys'), g2.
    cbn [mapM]; unfold bind, ret. rewrite E, E', F, F'.
    repeat split; simpl; auto.
Qed.

Lemma MultiHeadAttention_forward_pair (m : MultiHeadAttention.t) (x x' : Tensor R)
  (nh hs : nat) g :
  wf_MultiHeadAttention hp nh hs m -> (1 <= hs)%nat -> (1 <= nh)%nat ->
  shape x = [B; T; HP.n_embed hp] -> shape x' = [B; T; HP.n_embed hp] ->
  exists y y' g1,
    MultiHeadAttention.forward m x g = Ok (y, g1) /\
    MultiHeadAttention.forward m x' g = Ok (y', g1) /\
    shape y = [B; T; HP.n_embed hp] /\ shape y' = [B; T; HP.n_embed hp] /\
    (agree_row b b n (HP.n_embed hp) x x' ->
     agree_row b b n (HP.n_embed hp) y y').
Proof.
  intros (Hlen & Hheads & Hproj) Hhs Hnh Hx Hx'.
  destruct (mapM_heads_pair _ x x' hs g Hheads Hhs Hx Hx')
    as (ys & ys' & g1 & E & E' & L & L' & Ss & Ss' & Hys).
  assert (Hne : ys <> []) by (destruct ys; [simpl in L; lia | discriminate]).
  assert (Hne' : ys' <> []) by (destruct ys'; [simpl in L'; lia | discriminate]).
  destruct (torch_cat_last_values ys B T hs Hne Ss) as (c0 & Ec & Sc & Vc).
  destruct (torch_cat_last_values ys' B T hs Hne' Ss') as (c0' & Ec' & Sc' & Vc').
  rewrite L, Hlen in Sc. rewrite L', Hlen in Sc'.
  destruct (Linear_forward_row B T B T b b n _ c0 c0' _ _ _ Hproj Sc Sc')
    as (p & p' & Ep & Ep' & Sp & Sp' & Hp).
  destruct (Dropout_forward_pair (MultiHeadAttention.dropout m) p p' g1
              ltac:(congruence))
    as (f & y & y' & g2 & Ed & Ed' & Sd & Sd' & Vd).
  exists y, y', g2.
  unfold MultiHeadAttention.forward, bind, lift.
  rewrite E, E', Ec, Ec', Ep, Ep', Ed, Ed'.
  split; [reflexivity|]; split; [reflexivity|].
  split; [congruence|]; split; [congruence|].
  intros Hag t c Ht Hc. destruct (Vd [b; t; c]) as [-> ->]. f_equal.
  apply Hp; [|assumption|assumption].
  intros t0 c1 Ht0 Hc1. rewrite Vc, Vc'.
  now apply (cat_last_at_row b n B T hs ys ys' Ss Ss' (Hys Hag)).
Qed.

Lemma FeedForward_forward_pair (f : FeedForward.t) (x x' : Tensor R) g :
  wf_FeedForward (HP.n_embed hp) f ->
  shape x = [B; T; HP.n_embed hp] -> shape x' = [B; T; HP.n_embed hp] ->
  exists y y' g1,
    FeedForward.forward f x g = Ok (y, g1) /\
    FeedForward.forward f x' g = Ok (y', g1) /\
    shape y = [B; T; HP.n_embed hp] /\ shape y' = [B; T; HP.n_embed hp] /\
    (agree_row b b n (HP.n_embed hp) x x' ->
     agree_row b b n (HP.n_embed hp) y y').
Proof.
  intros (H0 & H2) Hx Hx'.
  destruct (Linear_forward_row B T B T b b n _ x x' _ _ _ H0 Hx Hx')
    as (a & a' & Ea & Ea' & Sa & Sa' & Ha).
  assert (Sr : shape (F_relu a) = [B; T; (4 * HP.n_embed hp)%nat]) by exact Sa.
  assert (Sr' : shape (F_relu a') = [B; T; (4 * HP.n_embed hp)%nat]) by exact Sa'.
  destruct (Linear_forward_row B T B T b b n _ (F_relu a) (F_relu a') _ _ _ H2 Sr Sr')
    as (c & c' & Ec & Ec' & Sc & Sc' & Hc).
  destruct (Dropout_forward_pair (FeedForward.net_3 f) c c' g ltac:(congruence))
    as (k & y & y' & g1 & Ed & Ed' & Sd & Sd' & Vd).
  exists y, y', g1.
  unfold FeedForward.forward, bind, lift.
  rewrite Ea, Ea', Ec, Ec', Ed, Ed'.
  split; [reflexivity|]; split; [reflexivity|].
  split; [congruence|]; split; [congruence|].
  intros Hag t c1 Ht Hc1. destruct (Vd [b; t; c1]) as [-> ->]. f_equal.
  now apply Hc; [apply (F_relu_row b b n), Ha| |].
Qed.

Lemma Block_forward_pair (k : Block.t) (x x' : Tensor R) g :
  wf_Block hp k -> (1 <= head_size hp)%nat ->
  shape x = [B; T; HP.n_embed hp] -> shape x' = [B; T; HP.n_embed hp] ->
  exists y y' g1,
    Block.forward k x g = Ok (y, g1) /\ Block.forward k x' g = Ok (y', g1) /\
    shape y = [B; T; HP.n_embed hp] /\ shape y' = [B; T; HP.n_embed hp] /\
    (agree_row b b n (HP.n_embed hp) x x' ->
     agree_row b b n (HP.n_embed hp) y y').
Proof.
  intros (Hsa & Hff & Hl1 & Hl2) Hhs Hx Hx'.
  assert (Hnh : (1 <= HP.n_head hp)%nat).
  { unfold head_size in Hhs. destruct (HP.n_head hp); [simpl in Hhs; lia | lia]. }
  destruct (MultiHeadAttention_forward_pair _ x x' _ _ g Hsa Hhs Hnh Hx Hx')
    as (a & a' & g1 & Ea & Ea' & Sa & Sa' & Ha).
  destruct (tadd_row B T B T b b n x a x' a' _ Hb Hb Hn Hn Hx Sa Hx' Sa')
    as (s & s' & Es & Es' & Ss & Ss' & Hs).
  destruct (LayerNorm_forward_row B T B T b b n _ s s' _ Hl1 Ss Ss')
    as (u & u' & Eu & Eu' & Su & Su' & Hu).
  destruct (FeedForward_forward_pair _ u u' g1 Hff Su Su')
    as (f & f' & g2 & Ef & Ef' & Sf & Sf' & Hf).
  destruct (tadd_row B T B T b b n u f u' f' _ Hb Hb Hn Hn Su Sf Su' Sf')
    as (r & r' & Er & Er' & Sr & Sr' & Hr).
  destruct (LayerNorm_forward_row B T B T b b n _ r r' _ Hl2 Sr Sr')
    as (y & y' & Ey & Ey' & Sy & Sy' & Hy).
  exists y, y', g2.
  unfold Block.forward, bind, lift, ret.
  rewrite Ea, Ea', Es, Es', Eu, Eu', Ef, Ef', Er, Er', Ey, Ey'.
  repeat split; auto.
  intros Hag. pose proof (Hu (Hs Hag (Ha Hag))) as Hu1.
  exact (Hy (Hr Hu1 (Hf Hu1))).
Qed.

Lemma blocks_forward_pair (bs : list Block.t) (x x' : Tensor R) g :
  Forall (wf_Block hp) bs -> (1 <= head_size hp)%nat ->
  shape x = [B; T; HP.n_embed hp] -> shape x' = [B; T; HP.n_embed hp] ->
  exists y y' g1,
    foldM Block.forward bs x g = Ok (y, g1) /\
    foldM Block.forward bs x' g = Ok (y', g1) /\
    shape y = [B; T; HP.n_embed hp] /\ shape y' = [B; T; HP.n_embed hp] /\
    (agree_row b b n (HP.n_embed hp) x x' ->
     agree_row b b n (HP.n_embed hp) y y').
Proof.
  intros Hwf Hhs; revert x x' g.
  induction Hwf as [|k l Hk _ IH]; intros x x' g Hx Hx'.
  - exists x, x', g; simpl; unfold ret; repeat split; auto.
  - destruct (Block_forward_pair k x x' g Hk Hhs Hx Hx')
      as (u & u' & g1 & E & E' & S & S' & Hu).
    destruct (IH u u' g1 S S') as (y & y' & g2 & F & F' & Sy & Sy' & Hy).
    exists y, y', g2. cbn [foldM]; unfold bind. rewrite E, E', F, F'.
    repeat split; auto.
Qed.

Lemma forward_pair (m : GPTLanguageModel.t) (idx idx' : Tensor Z) (V : nat) g :
  wf_GPT hp V m -> (1 <= head_size hp)%nat ->
  shape idx = [B; T] -> shape idx' = [B; T] ->
  valid_tokens V idx -> valid_tokens V idx' ->
  exists L L' g1,
    GPTLanguageModel.forward m idx None g = Ok ((L, None), g1) /\
    GPTLanguageModel.forward m idx' None g = Ok ((L', None), g1) /\
    shape L = [B; T; V] /\ shape L' = [B; T; V] /\
    ((forall t, (t <= n)%nat -> idx.[[b; t]] = idx'.[[b; t]]) ->
     agree_row b b n V L L').
Proof.
  intros (Htok & Hpos & _ & Hbs & Hln & Hhead) Hhs Hs Hs' Hv Hv'.
  destruct (Embedding_forward_tokens _ idx _ _ B T Htok Hs Hv) as (te & Ete & Ste & Vte).
  destruct (Embedding_forward_tokens _ idx' _ _ B T Htok Hs' Hv')
    as (te' & Ete' & Ste' & Vte').
  destruct (Embedding_forward_arange _ _ _ T Hpos HT) as (pe & Epe & Spe & Vpe).
  destruct (tadd_3_2 te pe B T _ Ste Spe) as (x & Ex & Sx & Vx).
  destruct (tadd_3_2 te' pe B T _ Ste' Spe) as (x' & Ex' & Sx' & Vx').
  destruct (blocks_forward_pair _ x x' g Hbs Hhs Sx Sx')
    as (u & u' & g1 & Eu & Eu' & Su & Su' & Hu).
  destruct (LayerNorm_forward_row B T B T b b n _ u u' _ Hln Su Su')
    as (w & w' & Ew & Ew' & Sw & Sw' & Hw).
  destruct (Linear_forward_row B T B T b b n _ w w' _ _ _ Hhead Sw Sw')
    as (L & L' & EL & EL' & SL & SL' & HL).
  exists L, L', g1.
  unfold GPTLanguageModel.forward, bind, lift, ret.
  rewrite Hs, Hs'; cbn [unpack2].
  rewrite Ete, Ete', Epe, Ex, Ex', Eu, Eu', Ew, Ew', EL, EL'.
  repeat split; auto.
  intros Hag. apply HL, Hw, Hu.
  intros t c Ht Hc. rewrite Vx, Vx' by (assumption || lia).
  now rewrite Vte, Vte', (Hag t Ht).
Qed.
End TrainFacts.

(** X15.  The forward pass is causal in training mode too.  Two calls
    from the same generator state, on index matrices of the same shape
    whose row [b] holds the same tokens at the positions [0..i], end in the
    same generator state and return the same logits at position [i] of
    row [b], whether dropout is active or not: the dropout masks are drawn
    for the shapes, so both calls draw the same masks, and no later token
    and no other row of the batch enters the logits of a position. *)
Theorem forward_causal_any_mode {TR : TorchRandom} (hp : HP.t)
  (m : GPTLanguageModel.t) (V B T : nat) (idx idx' : Tensor Z)
  (b i : nat) (g : Generator) :
  wf_GPT hp V m -> (1 <= head_size hp)%nat ->
  shape idx = [B; T] -> shape idx' = [B; T] -> (T <= HP.block_size hp)%nat ->
  valid_tokens V idx -> valid_tokens V idx' ->
  (b < B)%nat -> (i < T)%nat ->
  (forall t, (t <= i)%nat -> idx.[[b; t]] = idx'.[[b; t]]) ->
  exists L L' g1,
    GPTLanguageModel.forward m idx None g = Ok ((L, None), g1) /\
    GPTLanguageModel.forward m idx' None g = Ok ((L', None), g1) /\
    forall c, (c < V)%nat -> L.[[b; i; c]] = L'.[[b; i; c]].
Proof.
  intros Hwf Hhs Hs Hs' HT Hv Hv' Hb Hi Hag.
  destruct (forward_pair hp B T b i Hb Hi HT m idx idx' V g Hwf Hhs Hs Hs' Hv Hv')
    as (L & L' & g1 & E & E' & _ & _ & H).
  exists L, L', g1; split; [exact E|]; split; [exact E'|].
  intros c Hc. now apply (H Hag).
Qed.

Lemma forward_causal_any_mode_witness :
  exists m g0,
    @GPTLanguageModel.init counting_random source_hparams 65 0%nat = Ok (m, g0) /\
    exists L L' g1,
      @GPTLanguageModel.forward counting_random m
        (set_token (zero_tokens 2 8) 0 6 7%Z) None g0 = Ok ((L, None), g1) /\
      @GPTLanguageModel.forward counting_random m
        (set_token (zero_tokens 2 8) 1 3 9%Z) None g0 = Ok ((L', None), g1) /\
      forall c, (c < 65)%nat -> L.[[0%nat; 5%nat; c]] = L'.[[0%nat; 5%nat; c]].
Proof.
  destruct (@GPT_init_ok counting_random source_hparams ltac:(simpl; lra) 65 0%nat
              ltac:(simpl; lia)) as (m & g0 & E & Hwf).
  exists m, g0. split; [exact E|].
  apply (@forward_causal_any_mode counting_random source_hparams m 65 2 8
           (set_token (zero_tokens 2 8) 0 6 7%Z)
           (set_token (zero_tokens 2 8) 1 3 9%Z) 0 5 g0).
  - exact Hwf.
  - rewrite head_size_source; lia.
  - reflexivity.
  - reflexivity.
  - simpl; lia.
  - apply (valid_set_token 65 2 8); [reflexivity | apply valid_zero_tokens; lia | lia].
  - apply (valid_set_token 65 2 8); [reflexivity | apply valid_zero_tokens; lia | lia].
  - lia.
  - lia.
  - intros t Ht. simpl. destruct (Nat.eqb_spec t 6); [lia | reflexivity].
Defined.

(** ** The value of the loss *)

Lemma filter_all {A} (f : A -> bool) (l : list A) :
  (forall a, In a l -> f a = true) -> filter f l = l.
Proof.
  induction l as [|a l IH]; intros H; simpl; [reflexivity|].
  rewrite (H a (or_introl eq_refl)), IH; [reflexivity|].
  intros; apply H; now right.
Qed.

Lemma fold_right_Rsum (f : nat -> R) (N : nat) :
  fold_right (fun n acc => f n + acc) 0 (seq 0 N) = Rsum N f.
Proof.
  induction N as [|N IH]; [reflexivity|].
  rewrite seq_S, fold_right_app; simpl.
  rewrite <- IH. generalize (seq 0 N) as l. clear IH.
  induction l as [|a l IHl]; simpl; [lra|]. rewrite IHl. lra.
Qed.

(** The mean of the negative log-likelihoods when no target is ignored. *)
Lemma F_cross_entropy_value (logits : Tensor R) (targets : Tensor Z) (N C : nat) :
  shape logits = [N; C] -> shape targets = [N] -> (1 <= N)%nat ->
  (forall n, (n < N)%nat -> (0 <= targets.[[n]] < Z.of_nat C)%Z) ->
  F_cross_entropy logits targets
  = Ok (Real (Rsum N (fun n => nll logits targets C n) / INR N)).
Proof.
  intros Hl Ht HN Hv. unfold F_cross_entropy. rewrite Hl, Ht, Nat.eqb_refl.
  assert (Hok : forallb (fun n => target_ok C targets.[[n]]) (seq 0 N) = true).
  { apply forallb_forall. intros n Hn. apply in_seq in Hn.
    unfold target_ok. apply orb_true_iff; right.
    specialize (Hv n ltac:(lia)).
    apply andb_true_iff; split; [apply Z.leb_le | apply Z.ltb_lt]; lia. }
  rewrite Hok, filter_all.
  - destruct (seq 0 N) as [|k0 l] eqn:Es.
    + apply (f_equal (@length nat)) in Es. rewrite length_seq in Es.
      simpl in Es; lia.
    + rewrite <- Es, fold_right_Rsum, length_seq. reflexivity.
  - intros n Hn. apply in_seq in Hn. specialize (Hv n ltac:(lia)).
    unfold ignore_index. destruct (Z.eqb_spec targets.[[n]] (-100)); [lia | reflexivity].
Qed.

(** X16.  With targets of the shape of the index matrix, in a layout
    that [view(B * T)] accepts (contiguous, for one) and over the
    vocabulary, the loss is the mean over all [B * T] positions of the
    negative log-likelihood of the target of position [(b, t)] under the
    logits of the same position [(b, t)] of the pass without targets:
    the two [view] calls keep logits and targets aligned. *)
Theorem forward_loss_mean_nll {TR : TorchRandom} (hp : HP.t)
  (m : GPTLanguageModel.t) (V B T : nat) (idx : Tensor Z) (tg : Strided Z)
  (g : Generator) :
  wf_GPT hp V m -> (1 <= head_size hp)%nat ->
  shape idx = [B; T] -> (T <= HP.block_size hp)%nat -> valid_tokens V idx ->
  shape tg = [B; T] -> flattenable tg = true -> valid_tokens V tg ->
  (1 <= B * T)%nat ->
  exists L L2 g1,
    GPTLanguageModel.forward m idx None g = Ok ((L, None), g1) /\
    GPTLanguageModel.forward m idx (Some tg) g =
    Ok ((L2, Some (Real
          (Rsum B (fun b => Rsum T (fun t =>
             ln (Rsum V (fun c => exp L.[[b; t; c]]))
             - L.[[b; t; Z.to_nat tg.[[b; t]]]]))
           / INR (B * T)))), g1).
Proof.
  intros Hwf Hhs Hs HT Hv Htg Hf Hvt HN.
  destruct (forward_2 hp m idx idx V B T g g Hwf Hhs Hs Hs HT Hv Hv)
    as (L & _ & g1 & _ & E & _ & SL & _).
  assert (Hn : numel (shape tg) = (B * T)%nat) by (rewrite Htg; simpl; lia).
  destruct (view_logits L B T V SL) as (L2 & E2 & S2).
  unfold flattenable in Hf. rewrite Hn in Hf.
  destruct (view_flat tg (strides tg) _ Hn Hf) as (t2 & Et & St & Vt).
  assert (Ht2 : forall n, t2.[[n]] = tg.[[(n / T)%nat; (n mod T)%nat]]).
  { intros n. now rewrite Vt, Htg, unravel_2. }
  assert (HTpos : (0 < T)%nat) by (destruct T; lia).
  assert (Hv2 : forall n, (n < B * T)%nat -> (0 <= t2.[[n]] < Z.of_nat V)%Z).
  { intros n Hlt. rewrite Ht2.
    apply (proj1 (valid_tokens_2 V tg B T Htg) Hvt).
    - apply Nat.Div0.div_lt_upper_bound. lia.
    - now apply Nat.mod_upper_bound; lia. }
  exists L, L2, g1. split; [exact E|].
  rewrite (forward_targets m idx tg g L g1 E).
  unfold bind, lift, ret. rewrite SL; cbn [unpack3]. rewrite E2, Et.
  rewrite (F_cross_entropy_value L2 t2 _ _ S2 St HN Hv2).
  do 4 f_equal. f_equal.
  rewrite (Nat.mul_comm B T), Rsum_blocks. f_equal.
  apply Rsum_ext; intros b Hb. apply Rsum_ext; intros t Ht.
  assert (Hlt : (b * T + t < B * T)%nat) by nia.
  assert (E1 : ((b * T + t) / T = b)%nat).
  { rewrite Nat.add_comm, Nat.div_add by lia. rewrite Nat.div_small by lia. lia. }
  assert (E3 : ((b * T + t) mod T = t)%nat).
  { rewrite Nat.add_comm, Nat.Div0.mod_add. now apply Nat.mod_small. }
  unfold nll. rewrite Ht2, E1, E3.
  assert (Htv : (Z.to_nat tg.[[b; t]] < V)%nat).
  { pose proof (proj1 (valid_tokens_2 V tg B T Htg) Hvt b t Hb Ht). lia. }
  rewrite (view_logits_values L L2 _ B T V _ _ SL E2 Hlt Htv), E1, E3.
  f_equal. f_equal. apply Rsum_ext; intros c Hc.
  now rewrite (view_logits_values L L2 _ B T V _ _ SL E2 Hlt Hc), E1, E3.
Qed.

Lemma forward_loss_mean_nll_witness :
  exists L L2 g1,
    @GPTLanguageModel.forward counting_random (zero_GPT source_hparams 65)
      (zero_tokens 2 8) None 0%nat = Ok ((L, None), g1) /\
    @GPTLanguageModel.forward counting_random (zero_GPT source_hparams 65)
      (zero_tokens 2 8)
      (Some (contiguous (set_token (zero_tokens 2 8) 1 3 9%Z))) 0%nat =
    Ok ((L2, Some (Real
          (Rsum 2 (fun b => Rsum 8 (fun t =>
             ln (Rsum 65 (fun c => exp L.[[b; t; c]]))
             - L.[[b; t; Z.to_nat (set_token (zero_tokens 2 8) 1 3 9%Z).[[b; t]]]]))
           / INR (2 * 8)))), g1).
Proof.
  apply (@forward_loss_mean_nll counting_random source_hparams
           (zero_GPT source_hparams 65) 65 2 8 (zero_tokens 2 8)
           (contiguous (set_token (zero_tokens 2 8) 1 3 9%Z)) 0%nat).
  - apply wf_zero_GPT.
  - rewrite head_size_source; lia.
  - reflexivity.
  - simpl; lia.
  - apply valid_zero_tokens; lia.
  - reflexivity.
  - reflexivity.
  - apply (valid_set_token 65 2 8); [reflexivity | apply valid_zero_tokens; lia | lia].
  - lia.
Defined.

(** ** Construction without heads *)

(** X17.  With [n_head = 0] and at least one layer the constructor
    fails: the tables are built, then the first block divides
    [n_embed // n_head] and raises [ZeroDivisionError]; no model is
    returned. *)
Theorem init_rejects_zero_heads {TR : TorchRandom} (hp : HP.t) (V : nat)
  (g : Generator) :
  HP.n_head hp = 0%nat -> (1 <= HP.n_layer hp)%nat ->
  GPTLanguageModel.init hp V g = Err ZeroDivisionError.
Proof.
  intros Hnh Hnl. exact (GPT_init_no_head hp V g Hnh Hnl).
Qed.

Lemma init_rejects_zero_heads_witness :
  @GPTLanguageModel.init counting_random (HP.mk 64 384 8 0 (2 / 10)) 65 0%nat
  = Err ZeroDivisionError.
Proof.
  apply (@init_rejects_zero_heads counting_random (HP.mk 64 384 8 0 (2 / 10)) 65 0%nat).
  - reflexivity.
  - simpl; lia.
Defined.
